(** * Molecular graph batching and message passing (mpn.py)

    A shallow embedding of [src/mpn.py]: the one-hot feature encoders, the
    graph batcher [mol2graph] with its process-wide memoisation table
    [SMILES_TO_FEATURES], and the message passing network [MPN.forward].

    Conventions.
    - Python exceptions are values of [exn]; a computation that may raise
      returns a [result].
    - The batcher mutates a global dictionary and calls the chemistry
      toolkit; it lives in the monad [M], which threads a [World] (the
      dictionary and the log of toolkit calls) and keeps the mutations
      made before an exception was raised, as Python does.
    - Python lists are [list]; a subscript is an integer in [Z] and goes
      through [py_subscript], which implements negative subscripts and the
      [IndexError] outside the range.
    - The chemistry toolkit and the tensor arithmetic are collaborators of
      the module: they are interfaces ([Toolkit], [Scalar]). *)

From Stdlib Require Import ZArith Lia.
From stdpp Require Import base decidable option list strings gmap.

Open Scope Z_scope.

(** ** Exceptions and results *)

Inductive exn : Type :=
| IndexError                (* subscript out of range *)
| ValueError_not_in_list    (* list.index(x): x not in list *)
| ValueError_max_empty      (* max() arg is an empty sequence *)
| ValueError_bad_conformer  (* Get3DDistanceMatrix: molecule has no conformer *)
| ArgumentError             (* a toolkit function applied to None *)
| RuntimeError_stack        (* torch.stack: empty list, or tensors of unequal size *)
| RuntimeError_shape.       (* tensor arithmetic on incompatible shapes *)

Inductive result (A : Type) : Type :=
| Ok (a : A)
| Raise (e : exn).
Arguments Ok {A} a.
Arguments Raise {A} e.

#[global] Instance exn_eq_dec : EqDecision exn.
Proof. solve_decision. Defined.

#[global] Instance result_ret : MRet result := fun A a => Ok a.
#[global] Instance result_bind : MBind result := fun A B f r =>
  match r with
  | Ok a => f a
  | Raise e => Raise e
  end.
#[global] Instance result_fmap : FMap result := fun A B f r =>
  match r with
  | Ok a => Ok (f a)
  | Raise e => Raise e
  end.

Definition is_Ok {A} (r : result A) : bool :=
  match r with
  | Ok _ => true
  | Raise _ => false
  end.

Definition of_option {A} (e : exn) (o : option A) : result A :=
  match o with
  | Some a => Ok a
  | None => Raise e
  end.

(** [mapM] on results, left to right, stopping at the first exception. *)
Fixpoint result_mapM {A B} (f : A -> result B) (l : list A) : result (list B) :=
  match l with
  | [] => Ok []
  | a :: l' => b ← f a; bs ← result_mapM f l'; Ok (b :: bs)
  end.

(** ** Python list primitives *)

(** [l[i]] for a list of length [n]: the position a subscript denotes. *)
Definition py_subscript (n : nat) (i : Z) : result nat :=
  if decide (0 <= i < Z.of_nat n) then Ok (Z.to_nat i)
  else if decide (- Z.of_nat n <= i < 0) then Ok (Z.to_nat (Z.of_nat n + i))
  else Raise IndexError.

Definition py_getitem {A} (l : list A) (i : Z) : result A :=
  k ← py_subscript (length l) i; of_option IndexError (l !! k).

Definition py_setitem {A} (l : list A) (i : Z) (x : A) : result (list A) :=
  k ← py_subscript (length l) i; Ok (<[k:=x]> l).

(** [choices.index(value)]: the first position holding [value]. *)
Fixpoint py_index {A} `{EqDecision A} (value : A) (choices : list A) : result nat :=
  match choices with
  | [] => Raise ValueError_not_in_list
  | c :: choices' =>
      if decide (c = value) then Ok 0%nat
      else S <$> py_index value choices'
  end.

(** [value in choices] *)
Definition py_in {A} `{EqDecision A} (value : A) (choices : list A) : bool :=
  bool_decide (value ∈ choices).

(** [list(range(n))] *)
Definition py_range (n : nat) : list Z := Z.of_nat <$> seq 0 n.

(** ** Feature encoders *)

(** [onek_encoding_unk], lines 60-73. *)
Definition onek_encoding_unk {A} `{EqDecision A} (value : A) (choices : list A)
  : result (list Z) :=
  let encoding := replicate (length choices + 1) 0 in
  index ← (if py_in value choices then Z.of_nat <$> py_index value choices
           else Ok (-1));
  py_setitem encoding index 1.

(** ** Collaborators: tensor scalars and the chemistry toolkit *)

(** The element type of torch tensors, with the arithmetic [MPN.forward]
    uses.  [of_Z] is the conversion [torch.Tensor(...)] applies to the
    Python ints and bools of a feature list. *)
Class Scalar := {
  scalar : Type;
  of_Z : Z -> scalar;
  sadd : scalar -> scalar -> scalar;
  ssub : scalar -> scalar -> scalar;
  smul : scalar -> scalar -> scalar;
  sdiv : scalar -> scalar -> scalar;
  (* torch.softmax along one axis *)
  softmax : list scalar -> list scalar;
}.

(** An atom as the encoders see it: the values of the getters
    [atom_features] calls.  Getters returning a toolkit enumeration
    ([GetChiralTag], [GetHybridization]) are stored as the [int(...)] the
    source takes of them. *)
Record Atom := {
  GetAtomicNum : Z;
  GetDegree : Z;
  GetFormalCharge : Z;
  GetChiralTag : Z;
  GetImplicitValence : Z;
  GetTotalNumHs : Z;
  GetHybridization : Z;
  GetNumRadicalElectrons : Z;
  GetIsAromatic : bool;
}.

Inductive BondType := SINGLE | DOUBLE | TRIPLE | AROMATIC | OTHER_BOND_TYPE.

#[global] Instance BondType_eq_dec : EqDecision BondType.
Proof. solve_decision. Defined.

Record Bond := {
  GetBondType : BondType;
  GetIsConjugated : bool;
  IsInRing : bool;
  GetStereo : Z;
}.

Section Toolkit.
Context `{Scalar}.

(** A molecule object: its atoms in toolkit order, the bond between two
    atom positions if any, the topological distance matrix (path lengths,
    which the toolkit returns as whole-valued floats), and the 3D distance
    matrix of its conformer when it has one. *)
Record Mol := {
  GetAtoms : list Atom;
  GetBondBetweenAtoms : nat -> nat -> option Bond;
  GetDistanceMatrix : nat -> nat -> Z;
  Get3DDistanceMatrix : option (nat -> nat -> scalar);
}.

Definition GetNumAtoms (mol : Mol) : nat := length (GetAtoms mol).

(** The toolkit functions that make or transform molecules, and the integer
    values of the five [HybridizationType] members listed in
    [ATOM_FEATURES].  [MolFromSmiles] returns [None] for a notation it
    cannot parse.  [EmbedMolecule] stands for
    [AllChem.EmbedMolecule(mol, AllChem.ETKDG())] with its seed fixed: the
    molecule with a conformer added, or unchanged when embedding fails. *)
Class Toolkit := {
  MolFromSmiles : string -> option Mol;
  AddHs : Mol -> Mol;
  RemoveHs : Mol -> Mol;
  EmbedMolecule : Mol -> Mol;
  HybridizationType_SP : Z;
  HybridizationType_SP2 : Z;
  HybridizationType_SP3 : Z;
  HybridizationType_SP3D : Z;
  HybridizationType_SP3D2 : Z;
}.

End Toolkit.
Arguments Mol {_}.
Arguments Toolkit {_}.

Section Encoders.
Context `{Scalar} `{!Toolkit}.

(** [ATOM_FEATURES], lines 14-29. *)
Definition ATOM_FEATURES : gmap string (list Z) :=
  list_to_map [
    ("atomic_num", py_range 100);
    ("degree", [0; 1; 2; 3; 4; 5]);
    ("formal_charge", [-1; -2; 1; 2; 0]);
    ("chiral_tag", [0; 1; 2; 3]);
    ("implicit_valence", [0; 1; 2; 3; 4; 5; 6]);
    ("num_Hs", [0; 1; 2; 3; 4]);
    ("hybridization", [HybridizationType_SP; HybridizationType_SP2;
                       HybridizationType_SP3; HybridizationType_SP3D;
                       HybridizationType_SP3D2]);
    ("num_radical_electrons", [0; 1; 2])
  ]%string.

(** [ATOM_FDIM], line 32. *)
Definition ATOM_FDIM : nat :=
  (sum_list ((fun choices : list Z => length choices + 1)%nat
               <$> (map_to_list ATOM_FEATURES).*2) + 1)%nat.

Definition BOND_FDIM : nat := 14.

Definition get_atom_fdim : nat := ATOM_FDIM.

(** [get_bond_fdim], line 57: the booleans count as 0 and 1. *)
Definition get_bond_fdim (three_d virtual_edges : bool) : nat :=
  (BOND_FDIM + Nat.b2n three_d + 11 * Nat.b2n virtual_edges)%nat.

(** [torch.Tensor(l)] for a list of Python ints and bools. *)
Definition torch_Tensor (l : list Z) : list scalar := of_Z <$> l.

(** [atom_features], lines 76-93. *)
Definition atom_features (atom : Atom) : result (list scalar) :=
  f_num ← onek_encoding_unk (GetAtomicNum atom - 1) (ATOM_FEATURES !!! "atomic_num"%string);
  f_deg ← onek_encoding_unk (GetDegree atom) (ATOM_FEATURES !!! "degree"%string);
  f_chg ← onek_encoding_unk (GetFormalCharge atom) (ATOM_FEATURES !!! "formal_charge"%string);
  f_chi ← onek_encoding_unk (GetChiralTag atom) (ATOM_FEATURES !!! "chiral_tag"%string);
  f_val ← onek_encoding_unk (GetImplicitValence atom) (ATOM_FEATURES !!! "implicit_valence"%string);
  f_nHs ← onek_encoding_unk (GetTotalNumHs atom) (ATOM_FEATURES !!! "num_Hs"%string);
  f_hyb ← onek_encoding_unk (GetHybridization atom) (ATOM_FEATURES !!! "hybridization"%string);
  f_rad ← onek_encoding_unk (GetNumRadicalElectrons atom)
            (ATOM_FEATURES !!! "num_radical_electrons"%string);
  Ok (torch_Tensor (f_num ++ f_deg ++ f_chg ++ f_chi ++ f_val ++ f_nHs ++ f_hyb ++ f_rad
                    ++ [Z.b2z (GetIsAromatic atom)])).

(** [bond_features], lines 96-124.  [bt is not None] holds for every bond
    object, whose [GetBondType] is a member of the enumeration. *)
Definition bond_features (bond : option Bond) (distance_path : option Z)
    (distance_3d : option scalar) : result (list scalar) :=
  fbond ← match bond with
          | None => Ok (1 :: replicate 13 0)
          | Some bond =>
              let bt := GetBondType bond in
              let fbond := [
                0;
                Z.b2z (bool_decide (bt = SINGLE));
                Z.b2z (bool_decide (bt = DOUBLE));
                Z.b2z (bool_decide (bt = TRIPLE));
                Z.b2z (bool_decide (bt = AROMATIC));
                Z.b2z (GetIsConjugated bond);
                Z.b2z (IsInRing bond)
              ] in
              stereo ← onek_encoding_unk (GetStereo bond) (py_range 6);
              Ok (fbond ++ stereo)
          end;
  fdistance_path ← match distance_path with
                   | Some d => onek_encoding_unk d (py_range 10)
                   | None => Ok []
                   end;
  let fdistance_3d := match distance_3d with
                      | Some d => [d]
                      | None => []
                      end in
  Ok (torch_Tensor (fbond ++ fdistance_path) ++ fdistance_3d).

End Encoders.

(** ** The batcher's world: the memoisation table and the toolkit calls *)

(** The tuple memoised per notation, line 196. *)
Record MolFeatures `{Scalar} := {
  mol_fatoms : list (list scalar);
  mol_fbonds : list (list scalar);
  mol_all_bonds : list (Z * Z);
  n_atoms : nat;
}.

Inductive ToolkitCall :=
| Call_MolFromSmiles
| Call_AddHs
| Call_EmbedMolecule
| Call_RemoveHs
| Call_Get3DDistanceMatrix
| Call_GetDistanceMatrix.

#[global] Instance ToolkitCall_eq_dec : EqDecision ToolkitCall.
Proof. solve_decision. Defined.

(** [SMILES_TO_FEATURES] is the module-level dictionary of line 37;
    [toolkit_calls] logs, in order, each toolkit call together with the
    notation being processed. *)
Record World `{Scalar} := {
  SMILES_TO_FEATURES : gmap string MolFeatures;
  toolkit_calls : list (string * ToolkitCall);
}.

(** Computations over the world that may raise.  The world comes back also
    when an exception is raised: what was memoised before stays. *)
Definition M `{Scalar} (A : Type) : Type := World -> World * result A.

Section Monad.
Context `{Scalar}.

#[global] Instance M_ret : MRet M := fun A a w => (w, Ok a).
#[global] Instance M_bind : MBind M := fun A B f m w =>
  match m w with
  | (w', Ok a) => f a w'
  | (w', Raise e) => (w', Raise e)
  end.

Definition lift {A} (r : result A) : M A := fun w => (w, r).

Definition cache_lookup (smiles : string) : M (option MolFeatures) :=
  fun w => (w, Ok (SMILES_TO_FEATURES w !! smiles)).

Definition cache_store (smiles : string) (mf : MolFeatures) : M unit :=
  fun w => ({| SMILES_TO_FEATURES := <[smiles := mf]> (SMILES_TO_FEATURES w);
               toolkit_calls := toolkit_calls w |}, Ok tt).

Definition log_call (smiles : string) (c : ToolkitCall) : M unit :=
  fun w => ({| SMILES_TO_FEATURES := SMILES_TO_FEATURES w;
               toolkit_calls := toolkit_calls w ++ [(smiles, c)] |}, Ok tt).

End Monad.

(** A [for] loop with loop-carried variables [b], in a monad. *)
Fixpoint foldM {Mo : Type -> Type} `{!MBind Mo, !MRet Mo} {A B}
    (body : B -> A -> Mo B) (l : list A) (b : B) : Mo B :=
  match l with
  | [] => mret b
  | a :: l' => b' ← body b a; foldM body l' b'
  end.

(** [enumerate(l)] *)
Definition enumerate {A} (l : list A) : list (nat * A) := zip (seq 0 (length l)) l.

(** ** The graph batcher *)

(** The batched graph [mol2graph] returns. *)
Record Graph `{Scalar} := {
  g_fatoms : list (list scalar);
  g_fbonds : list (list scalar);
  g_agraph : list (list nat);
  g_bgraph : list (list nat);
  g_scope : list (nat * nat);
}.

(** The local variables of [mol2graph] that the loop over the batch carries
    from one molecule to the next (lines 141-144). *)
Record Locals `{Scalar} := {
  fatoms : list (list scalar);
  fbonds : list (list scalar);
  in_bonds : list (list nat);
  all_bonds : list (Z * Z);
  scope : list (nat * nat);
  total_atoms : nat;
}.

(** [max(...)] over a sequence of naturals. *)
Definition py_max (l : list nat) : result nat :=
  match l with
  | [] => Raise ValueError_max_empty
  | _ => Ok (max_list l)
  end.

(** [torch.stack(rows, dim=0)] of one-dimensional tensors. *)
Definition torch_stack {A} (rows : list (list A)) : result (list (list A)) :=
  match rows with
  | [] => Raise RuntimeError_stack
  | r :: rs =>
      if forallb (fun r' => Nat.eqb (length r') (length r)) rs then Ok rows
      else Raise RuntimeError_stack
  end.

(** [t[i, j] = v] on a two-dimensional tensor. *)
Definition tensor_set2 {A} (t : list (list A)) (i j : nat) (v : A) : result (list (list A)) :=
  match t !! i with
  | Some row =>
      if decide (j < length row)%nat then Ok (<[i := <[j := v]> row]> t)
      else Raise IndexError
  | None => Raise IndexError
  end.

Section Batcher.
Context `{Scalar} `{!Toolkit}.

(** The toolkit calls of lines 153-167: each is logged, then made. *)
Definition call_MolFromSmiles (smiles : string) : M (option Mol) :=
  _ ← log_call smiles Call_MolFromSmiles; mret (MolFromSmiles smiles).

Definition call_AddHs (smiles : string) (mol : Mol) : M Mol :=
  _ ← log_call smiles Call_AddHs; mret (AddHs mol).

Definition call_EmbedMolecule (smiles : string) (mol : Mol) : M Mol :=
  _ ← log_call smiles Call_EmbedMolecule; mret (EmbedMolecule mol).

Definition call_RemoveHs (smiles : string) (mol : Mol) : M Mol :=
  _ ← log_call smiles Call_RemoveHs; mret (RemoveHs mol).

Definition call_Get3DDistanceMatrix (smiles : string) (mol : Mol) : M (nat -> nat -> scalar) :=
  _ ← log_call smiles Call_Get3DDistanceMatrix;
  lift (of_option ValueError_bad_conformer (Get3DDistanceMatrix mol)).

Definition call_GetDistanceMatrix (smiles : string) (mol : Mol) : M (nat -> nat -> Z) :=
  _ ← log_call smiles Call_GetDistanceMatrix; mret (GetDistanceMatrix mol).

(** The body of the loop over atom pairs, lines 177-193. *)
Definition bond_pair (three_d virtual_edges : bool) (mol : Mol)
    (mol_fatoms : list (list scalar))
    (distances_3d : option (nat -> nat -> scalar)) (distances_path : nat -> nat -> Z)
    (a1 : nat) (acc : list (list scalar) * list (Z * Z)) (a2 : nat)
  : result (list (list scalar) * list (Z * Z)) :=
  let '(mol_fbonds, mol_all_bonds) := acc in
  let bond := GetBondBetweenAtoms mol a1 a2 in
  if bool_decide (bond = None :> option Bond) && negb virtual_edges then Ok acc
  else
    let distance_3d := if three_d then (fun d => d a1 a2) <$> distances_3d else None in
    let distance_path := if virtual_edges then Some (distances_path a1 a2) else None in
    let mol_all_bonds := mol_all_bonds ++ [(Z.of_nat a1, Z.of_nat a2)] in
    fa1 ← of_option IndexError (mol_fatoms !! a1);
    bf ← bond_features bond distance_path distance_3d;
    let mol_fbonds := mol_fbonds ++ [fa1 ++ bf] in
    let mol_all_bonds := mol_all_bonds ++ [(Z.of_nat a2, Z.of_nat a1)] in
    fa2 ← of_option IndexError (mol_fatoms !! a2);
    bf ← bond_features bond distance_path distance_3d;
    let mol_fbonds := mol_fbonds ++ [fa2 ++ bf] in
    Ok (mol_fbonds, mol_all_bonds).

(** The two nested loops of lines 175-193. *)
Definition bond_loops (three_d virtual_edges : bool) (mol : Mol)
    (mol_fatoms : list (list scalar))
    (distances_3d : option (nat -> nat -> scalar)) (distances_path : nat -> nat -> Z)
    (n_atoms : nat) : result (list (list scalar) * list (Z * Z)) :=
  foldM (fun acc a1 =>
           foldM (bond_pair three_d virtual_edges mol mol_fatoms distances_3d distances_path a1)
                 (seq (a1 + 1) (n_atoms - (a1 + 1))) acc)
        (seq 0 n_atoms) ([], []).

(** Lines 150-196: featurise a notation that is not memoised, and memoise
    it.  When [MolFromSmiles] returned [None], the first toolkit function
    that receives it raises: [AddHs] (line 156 or 160) or
    [GetDistanceMatrix] (line 167); nothing else happens in between, so the
    exception is raised here right after the parse. *)
Definition featurize (addHs three_d virtual_edges : bool) (smiles : string) : M MolFeatures :=
  mol ← call_MolFromSmiles smiles;
  mol ← lift (of_option ArgumentError mol);
  mol ← (if addHs then call_AddHs smiles mol else mret mol);
  '(mol, distances_3d) ←
    (if three_d then
       mol ← call_AddHs smiles mol;
       mol ← call_EmbedMolecule smiles mol;
       mol ← (if negb addHs then call_RemoveHs smiles mol else mret mol);
       distances_3d ← call_Get3DDistanceMatrix smiles mol;
       mret (mol, Some distances_3d)
     else mret (mol, None));
  distances_path ← call_GetDistanceMatrix smiles mol;
  let n_atoms := GetNumAtoms mol in
  mol_fatoms ← lift (result_mapM atom_features (GetAtoms mol));
  '(mol_fbonds, mol_all_bonds) ←
    lift (bond_loops three_d virtual_edges mol mol_fatoms distances_3d distances_path n_atoms);
  let mf := {| mol_fatoms := mol_fatoms; mol_fbonds := mol_fbonds;
               mol_all_bonds := mol_all_bonds; n_atoms := n_atoms |} in
  _ ← cache_store smiles mf;
  mret mf.

(** Lines 147-196: the memoised tuple if the notation is a key of
    [SMILES_TO_FEATURES], else a fresh one. *)
Definition mol_features (addHs three_d virtual_edges : bool) (smiles : string) : M MolFeatures :=
  cached ← cache_lookup smiles;
  match cached with
  | Some mf => mret mf
  | None => featurize addHs three_d virtual_edges smiles
  end.

(** Lines 204-210: record one directed pair of the molecule. *)
Definition add_bond (total_atoms : nat) (acc : list (Z * Z) * list (list nat)) (pair : Z * Z)
  : result (list (Z * Z) * list (list nat)) :=
  let '(all_bonds, in_bonds) := acc in
  let '(a1, a2) := pair in
  let a1 := a1 + Z.of_nat total_atoms in
  let a2 := a2 + Z.of_nat total_atoms in
  let bond_idx := length all_bonds in
  let all_bonds := all_bonds ++ [(a1, a2)] in
  k ← py_subscript (length in_bonds) a2;
  Ok (all_bonds, alter (fun bonds => bonds ++ [bond_idx]) k in_bonds).

(** Lines 198-213: add the features of one molecule to those of the batch. *)
Definition add_molecule (L : Locals) (mf : MolFeatures) : result Locals :=
  let fatoms := fatoms L ++ mol_fatoms mf in
  let fbonds := fbonds L ++ mol_fbonds mf in
  let in_bonds := in_bonds L ++ replicate (n_atoms mf) [] in
  '(all_bonds, in_bonds) ← foldM (add_bond (total_atoms L)) (mol_all_bonds mf)
                                 (all_bonds L, in_bonds);
  Ok {| fatoms := fatoms; fbonds := fbonds; in_bonds := in_bonds; all_bonds := all_bonds;
        scope := scope L ++ [(total_atoms L, n_atoms mf)];
        total_atoms := (total_atoms L + n_atoms mf)%nat |}.

(** Lines 140-144. *)
Definition initial_locals (three_d virtual_edges : bool) : Locals :=
  let padding := replicate (get_atom_fdim + get_bond_fdim three_d virtual_edges) (of_Z 0) in
  {| fatoms := []; fbonds := [padding]; in_bonds := []; all_bonds := [(-1, -1)];
     scope := []; total_atoms := 0 |}.

(** Lines 147-213: the body of the loop over the batch. *)
Definition batch_body (addHs three_d virtual_edges : bool) (L : Locals) (smiles : string)
  : M Locals :=
  mf ← mol_features addHs three_d virtual_edges smiles;
  lift (add_molecule L mf).

(** Lines 146-213: the loop over the batch. *)
Definition batch_loop (mol_batch : list string) (addHs three_d virtual_edges : bool) : M Locals :=
  foldM (batch_body addHs three_d virtual_edges) mol_batch
        (initial_locals three_d virtual_edges).

(** Lines 223-225. *)
Definition fill_agraph (in_bonds : list (list nat)) (total_atoms : nat)
    (agraph : list (list nat)) : result (list (list nat)) :=
  foldM (fun agraph a =>
           bonds ← of_option IndexError (in_bonds !! a);
           foldM (fun agraph '(i, b) => tensor_set2 agraph a i b) (enumerate bonds) agraph)
        (seq 0 total_atoms) agraph.

(** Lines 227-231. *)
Definition fill_bgraph (in_bonds : list (list nat)) (all_bonds : list (Z * Z))
    (total_bonds : nat) (bgraph : list (list nat)) : result (list (list nat)) :=
  foldM (fun bgraph b1 =>
           '(x, y) ← of_option IndexError (all_bonds !! b1);
           bonds ← py_getitem in_bonds x;
           foldM (fun bgraph '(i, b2) =>
                    '(src, _) ← of_option IndexError (all_bonds !! b2);
                    if decide (src ≠ y) then tensor_set2 bgraph b1 i b2
                    else Ok bgraph)
                 (enumerate bonds) bgraph)
        (seq 1 (total_bonds - 1)) bgraph.

(** Lines 215-233: the index tables. *)
Definition build_graph (L : Locals) : result Graph :=
  let total_bonds := length (all_bonds L) in
  max_num_bonds ← py_max (length <$> in_bonds L);
  fatoms ← torch_stack (fatoms L);
  fbonds ← torch_stack (fbonds L);
  let agraph := replicate (total_atoms L) (replicate max_num_bonds 0%nat) in
  let bgraph := replicate total_bonds (replicate max_num_bonds 0%nat) in
  agraph ← fill_agraph (in_bonds L) (total_atoms L) agraph;
  bgraph ← fill_bgraph (in_bonds L) (all_bonds L) total_bonds bgraph;
  Ok {| g_fatoms := fatoms; g_fbonds := fbonds; g_agraph := agraph; g_bgraph := bgraph;
        g_scope := scope L |}.

(** [mol2graph], lines 127-233. *)
Definition mol2graph (mol_batch : list string) (addHs three_d virtual_edges : bool) : M Graph :=
  L ← batch_loop mol_batch addHs three_d virtual_edges;
  lift (build_graph L).

End Batcher.

(** ** The message passing network *)

(** [nn.Linear]: one weight row per output feature, and a bias unless the
    layer was made with [bias=False]. *)
Record Linear `{Scalar} := {
  weight : list (list scalar);
  bias : option (list scalar);
}.

(** The attributes [MPN.__init__] sets (lines 288-317), and the [training]
    flag of [nn.Module].  [act_func] is the activation the constructor picked;
    [W_a], [W_b] are read only when [attention] is set and [W_ma1] only when
    [message_attention] is. *)
Record MPN `{Scalar} := {
  hidden_size : nat;
  depth : Z;
  dropout : scalar;
  attention : bool;
  message_attention : bool;
  W_i : Linear;
  W_h : Linear;
  W_o : Linear;
  W_a : Linear;
  W_b : Linear;
  W_ma1 : Linear;
  act_func : scalar -> scalar;
  training : bool;
}.

Section Network.
Context `{Scalar}.

Definition out_features (L : Linear) : nat := length (weight L).

(** Elementwise operations on vectors of equal length. *)
Definition vadd (x y : list scalar) : result (list scalar) :=
  if decide (length x = length y) then Ok (zip_with sadd x y)
  else Raise RuntimeError_shape.

Definition vmul (x y : list scalar) : result (list scalar) :=
  if decide (length x = length y) then Ok (zip_with smul x y)
  else Raise RuntimeError_shape.

Definition dot (x w : list scalar) : result scalar :=
  if decide (length x = length w) then Ok (foldr sadd (of_Z 0) (zip_with smul x w))
  else Raise RuntimeError_shape.

(** The layer applied to one vector, and to every row of a matrix. *)
Definition linear (L : Linear) (x : list scalar) : result (list scalar) :=
  y ← result_mapM (dot x) (weight L);
  match bias L with
  | Some b => vadd y b
  | None => Ok y
  end.

Definition linear_rows (L : Linear) (X : list (list scalar)) : result (list (list scalar)) :=
  result_mapM (linear L) X.

(** Modelled from the spec: [index_select_ND] of [nn_utils], which is not
    in the source tree.  Section 2 describes it: given a 2D index table and
    a source matrix, produce a 3D tensor by gathering rows.  An index
    outside the source raises, as [Tensor.index_select] does. *)
Definition index_select_ND (source : list (list scalar)) (index : list (list nat))
  : result (list (list (list scalar))) :=
  result_mapM (result_mapM (fun i => of_option IndexError (source !! i))) index.

(** [t.sum(dim=...)] over a list of vectors of width [width]. *)
Definition vsum (width : nat) (vs : list (list scalar)) : result (list scalar) :=
  foldM vadd vs (replicate width (of_Z 0)).

(** [self.dropout_layer(x)]: the identity in evaluation mode; in training
    mode element [(i, j)] is kept and scaled by [1 / (1 - p)] when the random
    draw [keep i j] says so, and zeroed otherwise. *)
Definition dropout_layer (m : MPN) (keep : nat -> nat -> bool) (x : list (list scalar))
  : list (list scalar) :=
  if training m then
    imap (fun i row =>
            imap (fun j v =>
                    if keep i j then smul v (sdiv (of_Z 1) (ssub (of_Z 1) (dropout m)))
                    else of_Z 0) row) x
  else x.

(** [self.act_func(x)] on a matrix. *)
Definition activate (m : MPN) (x : list (list scalar)) : list (list scalar) :=
  (fun row : list scalar => act_func m <$> row) <$> x.

(** Line 336 for the messages gathered for one bond: a score per message
    from [W_ma1] (one output feature, line 304), softmax over the messages,
    each weight repeated [hidden_size] times and multiplied in. *)
Definition message_attend (m : MPN) (nei : list (list scalar)) : result (list (list scalar)) :=
  scores ← result_mapM (fun v => s ← linear (W_ma1 m) v;
                                 match s with
                                 | [s] => Ok s
                                 | _ => Raise RuntimeError_shape
                                 end) nei;
  let weights := softmax scores in
  result_mapM (fun '(v, w) => vmul v (replicate (hidden_size m) w)) (zip nei weights).

(** Lines 330-331. *)
Definition initial_message (m : MPN) (fbonds : list (list scalar))
  : result (list (list scalar) * list (list scalar)) :=
  binput ← linear_rows (W_i m) fbonds;
  Ok (binput, activate m binput).

(** One round of message passing, lines 334-340. *)
Definition message_round (m : MPN) (keep : nat -> nat -> bool) (bgraph : list (list nat))
    (binput message : list (list scalar)) : result (list (list scalar)) :=
  nei_message ← index_select_ND message bgraph;
  nei_message ← (if message_attention m then result_mapM (message_attend m) nei_message
                 else Ok nei_message);
  nei_message ← result_mapM (vsum (out_features (W_i m))) nei_message;
  nei_message ← linear_rows (W_h m) nei_message;
  (if decide (length binput = length nei_message) then Ok tt else Raise RuntimeError_shape);;
  message ← result_mapM (fun '(b, n) => vadd b n) (zip binput nei_message);
  let message := activate m message in
  Ok (dropout_layer m keep message).

(** The loop of line 333, [rounds] iterations; iteration [i] takes its
    dropout draws from [rng (k + i)]. *)
Fixpoint message_rounds (m : MPN) (rng : nat -> nat -> nat -> bool) (bgraph : list (list nat))
    (binput : list (list scalar)) (rounds k : nat) (message : list (list scalar))
  : result (list (list scalar)) :=
  match rounds with
  | O => Ok message
  | S rounds' =>
      message ← message_round m (rng k) bgraph binput message;
      message_rounds m rng bgraph binput rounds' (S k) message
  end.

(** The final atom aggregation, lines 342-346. *)
Definition atom_aggregation (m : MPN) (keep : nat -> nat -> bool)
    (fatoms : list (list scalar)) (agraph : list (list nat)) (message : list (list scalar))
  : result (list (list scalar)) :=
  nei_message ← index_select_ND message agraph;
  nei_message ← result_mapM (vsum (out_features (W_i m))) nei_message;
  (if decide (length fatoms = length nei_message) then Ok tt else Raise RuntimeError_shape);;
  let ainput := zip_with app fatoms nei_message in
  atom_hiddens ← linear_rows (W_o m) ainput;
  let atom_hiddens := activate m atom_hiddens in
  Ok (dropout_layer m keep atom_hiddens).

(** [t.narrow(0, st, le)] *)
Definition narrow {A} (t : list A) (st le : nat) : result (list A) :=
  if decide (st + le <= length t)%nat then Ok (take le (drop st t))
  else Raise RuntimeError_shape.

(** Lines 350-363 for one molecule; the dropout draws of line 357 are [keep]. *)
Definition pool_molecule (m : MPN) (keep : nat -> nat -> bool)
    (atom_hiddens : list (list scalar)) (st le : nat) : result (list scalar) :=
  let width := out_features (W_o m) in
  cur_hiddens ← narrow atom_hiddens st le;
  mol_vec ←
    (if attention m then
       query ← linear_rows (W_a m) cur_hiddens;
       att_w ← result_mapM (fun q => result_mapM (dot q) cur_hiddens) query;
       let att_w := map softmax att_w in
       att_hiddens ← result_mapM
                       (fun ws => vsum width (zip_with (fun w h => map (smul w) h) ws cur_hiddens))
                       att_w;
       att_hiddens ← linear_rows (W_b m) att_hiddens;
       let att_hiddens := dropout_layer m keep (activate m att_hiddens) in
       (if decide (length cur_hiddens = length att_hiddens) then Ok tt
        else Raise RuntimeError_shape);;
       result_mapM (fun '(c, a) => vadd c a) (zip cur_hiddens att_hiddens)
     else Ok cur_hiddens);
  mol_vec ← vsum width mol_vec;
  Ok (map (fun v => sdiv v (of_Z (Z.of_nat le))) mol_vec).

(** Lines 348-366: the loop over [scope]; with attention every molecule
    takes one more set of dropout draws. *)
Definition pooling (m : MPN) (rng : nat -> nat -> nat -> bool) (k : nat)
    (atom_hiddens : list (list scalar)) (scope : list (nat * nat))
  : result (list (list scalar)) :=
  '(mol_vecs, _) ← foldM (fun '(mol_vecs, k) '(st, le) =>
                             mol_vec ← pool_molecule m (rng k) atom_hiddens st le;
                             Ok (mol_vecs ++ [mol_vec], if attention m then S k else k))
                         scope ([], k);
  torch_stack mol_vecs.

(** [MPN.forward], lines 319-366.  [rng k] holds the draws of the [k]-th
    call of the dropout layer.  The transfer to the accelerator of lines
    327-328 does not change values and is left out. *)
Definition forward (m : MPN) (rng : nat -> nat -> nat -> bool) (mol_graph : Graph)
  : result (list (list scalar)) :=
  '(binput, message) ← initial_message m (g_fbonds mol_graph);
  let rounds := Z.to_nat (depth m - 1) in
  message ← message_rounds m rng (g_bgraph mol_graph) binput rounds 0 message;
  atom_hiddens ← atom_aggregation m (rng rounds) (g_fatoms mol_graph) (g_agraph mol_graph)
                   message;
  pooling m rng (S rounds) atom_hiddens (g_scope mol_graph).

(** The depth-one reading of section 8: [activation(W_i(fbonds))] goes
    straight into the final atom aggregation, then pooling. *)
Definition forward_depth_one (m : MPN) (rng : nat -> nat -> nat -> bool) (mol_graph : Graph)
  : result (list (list scalar)) :=
  binput ← linear_rows (W_i m) (g_fbonds mol_graph);
  let message := activate m binput in
  atom_hiddens ← atom_aggregation m (rng 0%nat) (g_fatoms mol_graph) (g_agraph mol_graph)
                   message;
  pooling m rng 1 atom_hiddens (g_scope mol_graph).

End Network.

(** ** Notions used to state the properties *)

(** The directed bonds arriving at atom [a]: the positions [b >= 1] of
    [all_bonds] whose pair has destination [a], in increasing order. *)
Definition incoming (all_bonds : list (Z * Z)) (a : Z) : list nat :=
  (filter (fun p : nat * (Z * Z) => (1 <= p.1)%nat /\ p.2.2 = a) (enumerate all_bonds)).*1.

(** The source atom of the directed bond at position [b]. *)
Definition source_of (all_bonds : list (Z * Z)) (b : nat) : option Z :=
  fst <$> all_bonds !! b.

(** A row of an index table: the entries, then zeros up to [width]. *)
Definition pad (width : nat) (row : list nat) : list nat :=
  row ++ replicate (width - length row) 0%nat.

(** Row [b1] of [bgraph] for the directed bond [b1 = (x -> y)]: along the
    bonds arriving at [x], the bond itself unless its source is [y], where
    the entry stays 0; then zeros up to [width]. *)
Definition bgraph_row (all_bonds : list (Z * Z)) (width b1 : nat) : list nat :=
  match all_bonds !! b1 with
  | Some (x, y) =>
      pad width ((fun b2 => if bool_decide (source_of all_bonds b2 ≠ Some y) then b2 else 0%nat)
                   <$> incoming all_bonds x)
  | None => replicate width 0%nat
  end.

(** A pair of atom positions of a molecule, moved to the positions its
    atoms have in the batch (lines 205-206). *)
Definition shift_pair (offset : nat) (pair : Z * Z) : Z * Z :=
  (pair.1 + Z.of_nat offset, pair.2 + Z.of_nat offset).

Section BatcherNotions.
Context `{Scalar} `{!Toolkit}.

(** The molecule that reaches line 167 and, with [three_d], its 3D distance
    matrix (lines 153-164 without the log). *)
Definition prepare_mol (addHs three_d : bool) (smiles : string)
  : result (Mol * option (nat -> nat -> scalar)) :=
  mol ← of_option ArgumentError (MolFromSmiles smiles);
  let mol := if addHs then AddHs mol else mol in
  if three_d then
    let mol := EmbedMolecule (AddHs mol) in
    let mol := if negb addHs then RemoveHs mol else mol in
    distances_3d ← of_option ValueError_bad_conformer (Get3DDistanceMatrix mol);
    Ok (mol, Some distances_3d)
  else Ok (mol, None).

(** The tuple lines 150-193 compute for a notation under given flags. *)
Definition compute_features (addHs three_d virtual_edges : bool) (smiles : string)
  : result MolFeatures :=
  '(mol, distances_3d) ← prepare_mol addHs three_d smiles;
  mol_fatoms ← result_mapM atom_features (GetAtoms mol);
  '(mol_fbonds, mol_all_bonds) ←
    bond_loops three_d virtual_edges mol mol_fatoms distances_3d (GetDistanceMatrix mol)
               (GetNumAtoms mol);
  Ok {| mol_fatoms := mol_fatoms; mol_fbonds := mol_fbonds;
        mol_all_bonds := mol_all_bonds; n_atoms := GetNumAtoms mol |}.

(** The toolkit calls of a featurisation that reaches line 196. *)
Definition featurize_calls (addHs three_d : bool) : list ToolkitCall :=
  [Call_MolFromSmiles]
  ++ (if addHs then [Call_AddHs] else [])
  ++ (if three_d then
        [Call_AddHs; Call_EmbedMolecule]
        ++ (if negb addHs then [Call_RemoveHs] else [])
        ++ [Call_Get3DDistanceMatrix]
      else [])
  ++ [Call_GetDistanceMatrix].

(** The world after more toolkit calls were logged. *)
Definition log_calls (w : World) (tr : list (string * ToolkitCall)) : World :=
  {| SMILES_TO_FEATURES := SMILES_TO_FEATURES w;
     toolkit_calls := toolkit_calls w ++ tr |}.

(** The loop over atom pairs keeps one feature row per recorded pair, and
    records positions of the molecule only. *)
Definition pairs_ok (n : nat) (acc : list (list scalar) * list (Z * Z)) : Prop :=
  length acc.1 = length acc.2
  /\ Forall (fun pair : Z * Z => 0 <= pair.1 < Z.of_nat n /\ 0 <= pair.2 < Z.of_nat n) acc.2.

(** What every memoised tuple satisfies: one feature row per atom, one
    feature row per directed pair, and pairs of atom positions of the
    molecule. *)
Definition features_wf (mf : MolFeatures) : Prop :=
  length (mol_fatoms mf) = n_atoms mf
  /\ length (mol_fbonds mf) = length (mol_all_bonds mf)
  /\ Forall (fun pair : Z * Z =>
               0 <= pair.1 < Z.of_nat (n_atoms mf) /\ 0 <= pair.2 < Z.of_nat (n_atoms mf))
            (mol_all_bonds mf).

(** The state of [SMILES_TO_FEATURES] in a running process: its keys parse
    and its tuples are well formed.  It holds of the empty dictionary and
    every call of [mol2graph] keeps it. *)
Definition cache_wf (w : World) : Prop :=
  forall smiles mf, SMILES_TO_FEATURES w !! smiles = Some mf ->
                    features_wf mf /\ is_Some (MolFromSmiles smiles).

(** The tuple the loop uses for a notation when it starts from world [w]:
    the memoised one, or a fresh one under the flags of the call. *)
Definition tuple_for (addHs three_d virtual_edges : bool) (w : World)
    (smiles : string) (mf : MolFeatures) : Prop :=
  SMILES_TO_FEATURES w !! smiles = Some mf
  \/ (SMILES_TO_FEATURES w !! smiles = None
      /\ compute_features addHs three_d virtual_edges smiles = Ok mf).

(** The invariant of the two bond tables while atoms [0 .. bound) exist:
    [all_bonds] starts with the placeholder pair and then holds pairs of
    existing atoms, and [in_bonds] lists for each atom the bonds arriving
    at it. *)
Definition tables_inv (bound : nat) (all_bonds : list (Z * Z)) (in_bonds : list (list nat))
  : Prop :=
  length in_bonds = bound
  /\ (exists rest, all_bonds = (-1, -1) :: rest
                   /\ Forall (fun pair : Z * Z =>
                                0 <= pair.1 < Z.of_nat bound /\ 0 <= pair.2 < Z.of_nat bound)
                             rest)
  /\ (forall a, (a < bound)%nat -> in_bonds !! a = Some (incoming all_bonds (Z.of_nat a))).

(** The invariant of the loop over the batch. *)
Definition locals_inv (L : Locals) : Prop :=
  length (fatoms L) = total_atoms L
  /\ length (fbonds L) = length (all_bonds L)
  /\ tables_inv (total_atoms L) (all_bonds L) (in_bonds L).

End BatcherNotions.

(** ** Notions for the pairs of a molecule *)

(** The pairs of atom positions the two loops of lines 175-176 visit, in
    the order they visit them. *)
Definition atom_pairs (n : nat) : list (nat * nat) :=
  a1 ← seq 0 n; pair a1 <$> seq (a1 + 1) (n - (a1 + 1)).

(** The two directed pairs lines 185 and 189 record for a pair of atoms. *)
Definition both_ways (p : nat * nat) : list (Z * Z) :=
  [(Z.of_nat p.1, Z.of_nat p.2); (Z.of_nat p.2, Z.of_nat p.1)].

Section Edges.
Context `{Scalar} `{!Toolkit}.

(** The pairs line 180 does not skip. *)
Definition is_edge (virtual_edges : bool) (mol : Mol) (p : nat * nat) : bool :=
  negb (bool_decide (GetBondBetweenAtoms mol p.1 p.2 = None :> option Bond)
        && negb virtual_edges).

(** The features of the bond between two atoms, as line 186 and line 190
    compute them for the pair [a1 < a2]. *)
Definition pair_features (three_d virtual_edges : bool) (mol : Mol)
    (distances_3d : option (nat -> nat -> scalar)) (a1 a2 : nat) : result (list scalar) :=
  bond_features (GetBondBetweenAtoms mol a1 a2)
                (if virtual_edges then Some (GetDistanceMatrix mol a1 a2) else None)
                (if three_d then (fun d => d a1 a2) <$> distances_3d else None).

(** Row [b] of the bond features belongs to the directed pair at position
    [b]: the features of its source atom, then those of the bond. *)
Definition rows_ok (three_d virtual_edges : bool) (mol : Mol)
    (mol_fatoms : list (list scalar)) (distances_3d : option (nat -> nat -> scalar))
    (acc : list (list scalar) * list (Z * Z)) : Prop :=
  length acc.1 = length acc.2
  /\ forall b x y, acc.2 !! b = Some (x, y) ->
       exists fa_x bf,
         mol_fatoms !! Z.to_nat x = Some fa_x
         /\ pair_features three_d virtual_edges mol distances_3d
              (Z.to_nat (Z.min x y)) (Z.to_nat (Z.max x y)) = Ok bf
         /\ acc.1 !! b = Some (fa_x ++ bf).

End Edges.

(** ** Notions for the shapes of the tensors *)

Section ShapeNotions.
Context `{Scalar} `{!Toolkit}.

(** The scope entries are contiguous from 0 and their atom counts add up
    to the number of atoms so far. *)
Definition scope_contiguous (L : Locals) : Prop :=
  (forall i st n, scope L !! i = Some (st, n) -> st = sum_list ((take i (scope L)).*2))
  /\ sum_list ((scope L).*2) = total_atoms L.

(** Every memoised tuple has atom rows of width [ATOM_FDIM]. *)
Definition cache_atom_rows (w : World) : Prop :=
  forall smiles mf, SMILES_TO_FEATURES w !! smiles = Some mf ->
                    Forall (fun row => length row = ATOM_FDIM) (mol_fatoms mf).

(** Every memoised tuple has bond rows of the width the flags [three_d] and
    [virtual_edges] give. *)
Definition cache_bond_rows (three_d virtual_edges : bool) (w : World) : Prop :=
  forall smiles mf, SMILES_TO_FEATURES w !! smiles = Some mf ->
    Forall (fun row => length row = (ATOM_FDIM + get_bond_fdim three_d virtual_edges)%nat)
           (mol_fbonds mf).

End ShapeNotions.

(** ** Notions for the shapes the network expects *)

Section Shapes.
Context `{Scalar}.

(** A matrix of [rows] rows of width [cols]. *)
Definition mat (rows cols : nat) (X : list (list scalar)) : Prop :=
  length X = rows /\ Forall (fun row => length row = cols) X.

(** The layer [nn.Linear(n_in, n_out)]: [n_out] weight rows of width
    [n_in], and a bias of width [n_out] if there is one. *)
Definition linear_fits (L : Linear) (n_in n_out : nat) : Prop :=
  mat n_out n_in (weight L)
  /\ forall b, bias L = Some b -> length b = n_out.

End Shapes.

Section Fits.
Context `{Scalar} `{!Toolkit}.

(** The layers as [MPN.__init__] dimensions them (lines 296-304) for the
    flags [three_d] and [virtual_edges]. *)
Definition network_fits (m : MPN) (three_d virtual_edges : bool) : Prop :=
  linear_fits (W_i m) (get_atom_fdim + get_bond_fdim three_d virtual_edges) (hidden_size m)
  /\ linear_fits (W_h m) (hidden_size m) (hidden_size m)
  /\ linear_fits (W_o m) (get_atom_fdim + hidden_size m) (hidden_size m)
  /\ (attention m = true ->
      linear_fits (W_a m) (hidden_size m) (hidden_size m)
      /\ linear_fits (W_b m) (hidden_size m) (hidden_size m))
  /\ (message_attention m = true -> linear_fits (W_ma1 m) (hidden_size m) 1).

(** The tensors of a graph as a network for the flags [three_d] and
    [virtual_edges] expects them. *)
Definition graph_fits (g : Graph) (three_d virtual_edges : bool) : Prop :=
  Forall (fun row => length row = get_atom_fdim) (g_fatoms g)
  /\ Forall (fun row => length row = (get_atom_fdim + get_bond_fdim three_d virtual_edges)%nat)
            (g_fbonds g)
  /\ length (g_agraph g) = length (g_fatoms g)
  /\ length (g_bgraph g) = length (g_fbonds g)
  /\ Forall (Forall (fun b => (b < length (g_fbonds g))%nat)) (g_agraph g ++ g_bgraph g)
  /\ Forall (fun '(st, le) => (st + le <= length (g_fatoms g))%nat) (g_scope g)
  /\ g_scope g ≠ [].

End Fits.

(** ** Notions for a molecule inside a batch *)

(** The positions [k], [k + 1], ... of the pairs with destination [a]. *)
Fixpoint arriving (pairs : list (Z * Z)) (a : Z) (k : nat) : list nat :=
  match pairs with
  | [] => []
  | (_, y) :: pairs' => (if decide (y = a) then [k] else []) ++ arriving pairs' a (S k)
  end.

(** A bond index of the batch of one, moved to a batch where the bonds of
    the molecule start after position [boff]: the padding index 0 stays. *)
Definition shift_bond (boff b : nat) : nat :=
  if decide (b = 0%nat) then 0%nat else (boff + b)%nat.

(** A row of an index table of the batch of one and the row of the same
    atom or bond in a batch: the same entries, moved, before the padding of
    each table. *)
Definition row_embeds (boff : nat) (row1 row : list nat) : Prop :=
  exists core k1 k,
    row1 = core ++ replicate k1 0%nat
    /\ row = (shift_bond boff <$> core) ++ replicate k 0%nat.

(** The rows of a tensor over the bonds of the batch of one reappear in a
    tensor over the bonds of a batch. *)
Definition rows_embed `{Scalar} (boff n_bonds : nat) (M1 M : list (list scalar)) : Prop :=
  forall b, (b < n_bonds)%nat -> M !! shift_bond boff b = M1 !! b.

(** The two laws of scalar arithmetic the sentinel row relies on: zero
    times anything is zero, and adding zero changes nothing. *)
Class ScalarLaws `{Scalar} : Prop := {
  smul_0_l : forall x, smul (of_Z 0) x = of_Z 0;
  sadd_0_r : forall x, sadd x (of_Z 0) = x;
}.

(** ** A small toolkit for running the batcher

    Integer scalars and a toolkit that knows four notations: the empty
    notation (a molecule without atoms), methane, ethane and propane.
    Hydrogens are left implicit by [AddHs]; embedding always succeeds and
    places atom [i] at coordinate [i] on a line. *)
Module Toy.

#[export] Instance Z_scalar : Scalar := {|
  scalar := Z;
  of_Z := fun z => z;
  sadd := Z.add;
  ssub := Z.sub;
  smul := Z.mul;
  sdiv := Z.div;
  softmax := fun l => l;
|}.

Definition carbon (degree n_Hs : Z) : Atom := {|
  GetAtomicNum := 6; GetDegree := degree; GetFormalCharge := 0; GetChiralTag := 0;
  GetImplicitValence := n_Hs; GetTotalNumHs := n_Hs; GetHybridization := 4;
  GetNumRadicalElectrons := 0; GetIsAromatic := false |}.

Definition single_bond : Bond := {|
  GetBondType := SINGLE; GetIsConjugated := false; IsInRing := false; GetStereo := 0 |}.

(** An unbranched chain of carbons. *)
Definition chain (atoms : list Atom) : Mol := {|
  GetAtoms := atoms;
  GetBondBetweenAtoms := fun a1 a2 =>
    if decide (a1 < length atoms /\ a2 < length atoms /\ (a1 = S a2 \/ a2 = S a1))%nat
    then Some single_bond else None;
  GetDistanceMatrix := fun a1 a2 => Z.abs (Z.of_nat a1 - Z.of_nat a2);
  Get3DDistanceMatrix := None |}.

Definition parse (smiles : string) : option Mol :=
  if decide (smiles = ""%string) then Some (chain [])
  else if decide (smiles = "C"%string) then Some (chain [carbon 0 4])
  else if decide (smiles = "CC"%string) then Some (chain [carbon 1 3; carbon 1 3])
  else if decide (smiles = "CCC"%string)
       then Some (chain [carbon 1 3; carbon 2 2; carbon 1 3])
  else None.

Definition embed (mol : Mol) : Mol := {|
  GetAtoms := GetAtoms mol;
  GetBondBetweenAtoms := GetBondBetweenAtoms mol;
  GetDistanceMatrix := GetDistanceMatrix mol;
  Get3DDistanceMatrix := Some (fun a1 a2 => Z.abs (Z.of_nat a1 - Z.of_nat a2)) |}.

#[export] Instance toolkit : Toolkit := {|
  MolFromSmiles := parse;
  AddHs := fun mol => mol;
  RemoveHs := fun mol => mol;
  EmbedMolecule := embed;
  HybridizationType_SP := 2;
  HybridizationType_SP2 := 3;
  HybridizationType_SP3 := 4;
  HybridizationType_SP3D := 5;
  HybridizationType_SP3D2 := 6;
|}.

Definition empty_world : World := {| SMILES_TO_FEATURES := ∅; toolkit_calls := [] |}.

(** A network of hidden size 2 over the feature width of the default
    flags, with ReLU activation and every dropout draw kept. *)
Definition relu (z : Z) : Z := Z.max 0 z.

Definition net (depth : Z) (attention message_attention training : bool) : MPN := {|
  hidden_size := 2; depth := depth; dropout := 0;
  attention := attention; message_attention := message_attention;
  W_i := {| weight := [replicate 158 1; replicate 158 2]; bias := None |};
  W_h := {| weight := [[1; 0]; [1; 1]]; bias := None |};
  W_o := {| weight := [replicate 146 1; replicate 146 (-1)]; bias := Some [1; 2] |};
  W_a := {| weight := [[1; 0]; [0; 1]]; bias := None |};
  W_b := {| weight := [[1; 0]; [0; 1]]; bias := Some [0; 0] |};
  W_ma1 := {| weight := [[1; 1]]; bias := None |};
  act_func := relu; training := training |}.

Definition keep_all : nat -> nat -> nat -> bool := fun _ _ _ => true.

#[export] Instance Z_laws : ScalarLaws.
Proof. split; intros x; simpl; lia. Qed.

(** A run on propane and ethane, one on ethane alone, and the first step on
    methane, all from the empty dictionary and with the default flags. *)
Definition no_graph : Graph :=
  {| g_fatoms := []; g_fbonds := []; g_agraph := []; g_bgraph := []; g_scope := [] |}.

Definition graph_of (run : World * result Graph) : Graph :=
  match run.2 with
  | Ok g => g
  | Raise _ => no_graph
  end.

Definition batch_run : World * result Graph :=
  mol2graph ["CCC"; "CC"]%string false false false empty_world.

Definition single_run : World * result Graph :=
  mol2graph ["CC"]%string false false false empty_world.

Definition section8_run : World * result Graph :=
  mol2graph ["C"; "CC"]%string false false false empty_world.

Definition methane_step : World * result MolFeatures :=
  mol_features false false false "C"%string empty_world.

Definition methane_features : MolFeatures :=
  match methane_step.2 with
  | Ok mf => mf
  | Raise _ => {| mol_fatoms := []; mol_fbonds := []; mol_all_bonds := []; n_atoms := 0 |}
  end.


(** Ethane: its molecule and the tuple of the default flags; the network
    on the graph of propane and ethane; and dropout draws that keep
    nothing. *)
Definition ethane : Mol := chain [carbon 1 3; carbon 1 3].

Definition no_features : MolFeatures :=
  {| mol_fatoms := []; mol_fbonds := []; mol_all_bonds := []; n_atoms := 0 |}.

(** The value of a run that returned. *)
Definition value_or {A} (d : A) (r : result A) : A :=
  match r with
  | Ok a => a
  | Raise _ => d
  end.

Definition ethane_features : MolFeatures :=
  value_or no_features (compute_features false false false "CC"%string).

Definition forward_run : result (list (list scalar)) :=
  forward (net 3 true true true) keep_all (graph_of batch_run).

Definition keep_none : nat -> nat -> nat -> bool := fun _ _ _ => false.

End Toy.

(** * Properties *)

(** ** Results and the world monad *)

Lemma result_bind_Ok {A B} (r : result A) (f : A -> result B) (b : B) :
  r ≫= f = Ok b -> exists a, r = Ok a /\ f a = Ok b.
Proof. destruct r as [a|e]; simpl; [eauto | discriminate]. Qed.

Lemma result_fmap_Ok {A B} (f : A -> B) (r : result A) (b : B) :
  f <$> r = Ok b -> exists a, r = Ok a /\ b = f a.
Proof. destruct r as [a|e]; simpl; intros E; [injection E as <-; eauto | discriminate]. Qed.

Lemma result_mapM_Ok_length {A B} (f : A -> result B) (l : list A) (bs : list B) :
  result_mapM f l = Ok bs -> length bs = length l.
Proof.
  revert bs. induction l as [|a l IH]; simpl; intros bs E.
  - by injection E as <-.
  - apply result_bind_Ok in E as (b & _ & E).
    apply result_bind_Ok in E as (bs' & E' & E).
    injection E as <-. simpl. f_equal. by apply IH.
Qed.

Lemma result_mapM_Ok_lookup {A B} (f : A -> result B) (l : list A) (bs : list B) i a :
  result_mapM f l = Ok bs -> l !! i = Some a -> exists b, bs !! i = Some b /\ f a = Ok b.
Proof.
  revert bs i. induction l as [|a' l IH]; simpl; intros bs i E Hi; [done|].
  apply result_bind_Ok in E as (b & Eb & E).
  apply result_bind_Ok in E as (bs' & E' & E).
  injection E as <-. destruct i as [|i]; simpl in *.
  - injection Hi as ->. eauto.
  - eauto.
Qed.

Lemma result_mapM_total {A B} (f : A -> result B) (g : A -> B) (l : list A) :
  (forall a, a ∈ l -> f a = Ok (g a)) -> result_mapM f l = Ok (g <$> l).
Proof.
  induction l as [|a l IH]; simpl; intros Hf; [done|].
  rewrite Hf by left. simpl. rewrite IH; [done|]. intros a' Ha'. apply Hf. by right.
Qed.

Lemma foldM_result_app {A B} (body : B -> A -> result B) (l1 l2 : list A) (b : B) :
  foldM body (l1 ++ l2) b = foldM body l1 b ≫= foldM body l2.
Proof.
  revert b. induction l1 as [|a l1 IH]; simpl; intros b; [done|].
  destruct (body b a) as [b'|e]; simpl; [apply IH | done].
Qed.

(** ** Python list primitives *)

Lemma py_subscript_nat (n k : nat) :
  (k < n)%nat -> py_subscript n (Z.of_nat k) = Ok k.
Proof.
  intros Hk. unfold py_subscript. rewrite decide_True by lia. by rewrite Nat2Z.id.
Qed.

Lemma py_subscript_last (n : nat) : py_subscript (S n) (-1) = Ok n.
Proof.
  unfold py_subscript. rewrite decide_False by lia. rewrite decide_True by lia.
  f_equal. lia.
Qed.

Lemma py_subscript_Ok (n : nat) (i : Z) (k : nat) :
  py_subscript n i = Ok k -> (k < n)%nat.
Proof.
  unfold py_subscript. repeat case_decide; intros E; simplify_eq; lia.
Qed.

(** [choices.index(value)] finds the first occurrence of a member. *)
Lemma py_index_first {A} `{EqDecision A} (value : A) (choices : list A) :
  value ∈ choices ->
  exists p, py_index value choices = Ok p /\ choices !! p = Some value
            /\ forall j, (j < p)%nat -> choices !! j ≠ Some value.
Proof.
  induction choices as [|c choices IH]; intros Hin.
  - by apply elem_of_nil in Hin.
  - simpl. destruct (decide (c = value)) as [->|Hne].
    + exists 0%nat. split; [done|]. split; [done|]. intros j Hj. lia.
    + apply elem_of_cons in Hin as [->|Hin]; [done|].
      destruct (IH Hin) as (p & Ep & Hp & Hfirst).
      exists (S p). rewrite Ep. split; [done|]. split; [done|].
      intros [|j] Hj; simpl; [congruence|]. apply Hfirst. lia.
Qed.

Lemma insert_replicate_one_hot (n p : nat) :
  (p <= n)%nat ->
  <[p := 1]> (replicate (n + 1) 0) = replicate p 0 ++ 1 :: replicate (n - p) 0.
Proof.
  intros Hp. replace (n + 1)%nat with (p + S (n - p))%nat by lia.
  rewrite replicate_add. rewrite insert_app_r_alt by (rewrite length_replicate; lia).
  rewrite length_replicate, Nat.sub_diag. done.
Qed.

(** ** The one-hot encoder *)

Lemma py_setitem_zeros (n : nat) (i : Z) (k : nat) :
  py_subscript n i = Ok k ->
  py_setitem (replicate n 0) i 1 = Ok (<[k := 1]> (replicate n 0)).
Proof. intros E. unfold py_setitem. rewrite length_replicate, E. done. Qed.

Lemma onek_encoding_unk_spec {A} `{EqDecision A} (value : A) (choices : list A) :
  exists (enc : list Z) (p : nat),
    onek_encoding_unk value choices = Ok enc
    /\ length enc = (length choices + 1)%nat
    /\ enc = replicate p 0 ++ 1 :: replicate (length choices - p) 0
    /\ (p <= length choices)%nat
    /\ (value ∈ choices ->
        choices !! p = Some value /\ forall j, (j < p)%nat -> choices !! j ≠ Some value)
    /\ (value ∉ choices -> p = length choices).
Proof.
  unfold onek_encoding_unk, py_in.
  case_bool_decide as Hin.
  - destruct (py_index_first value choices Hin) as (p & Ep & Hp & Hfirst).
    pose proof (lookup_lt_Some _ _ _ Hp) as Hlt.
    exists (<[p := 1]> (replicate (length choices + 1) 0)), p.
    split.
    { rewrite Ep. cbn [fmap result_fmap mbind result_bind].
      apply py_setitem_zeros, py_subscript_nat. lia. }
    split; [by rewrite length_insert, length_replicate|].
    split; [apply insert_replicate_one_hot; lia|].
    split; [lia|]. split; [done|]. intros Hnot. by destruct Hnot.
  - exists (<[length choices := 1]> (replicate (length choices + 1) 0)), (length choices).
    split.
    { cbn [mbind result_bind]. apply py_setitem_zeros.
      rewrite Nat.add_1_r. apply py_subscript_last. }
    split; [rewrite length_insert, length_replicate; lia|].
    split; [apply insert_replicate_one_hot; lia|].
    split; [lia|]. split; [intros Hin'; by destruct Hin|done].
Qed.

Lemma onek_encoding_unk_Ok {A} `{EqDecision A} (value : A) (choices : list A) :
  exists enc, onek_encoding_unk value choices = Ok enc
              /\ length enc = (length choices + 1)%nat.
Proof.
  destruct (onek_encoding_unk_spec value choices) as (enc & p & E & Hlen & _). eauto.
Qed.

(** C5.  For every value and every choice list, [onek_encoding_unk] returns
    a list of length [len(choices) + 1] that holds exactly one 1 and 0
    everywhere else: zeros, a 1 at position [p], zeros.  When the value is a
    member of the choices, [p] is [choices.index(value)], the first position
    holding the value; otherwise [p] is the final, overflow position. *)
Theorem onek_encoding_unk_one_hot {A} `{EqDecision A} (value : A) (choices : list A) :
  exists (enc : list Z) (p : nat),
    onek_encoding_unk value choices = Ok enc
    /\ length enc = (length choices + 1)%nat
    /\ enc = replicate p 0 ++ 1 :: replicate (length choices - p) 0
    /\ (p <= length choices)%nat
    /\ (value ∈ choices ->
        choices !! p = Some value /\ forall j, (j < p)%nat -> choices !! j ≠ Some value)
    /\ (value ∉ choices -> p = length choices).
Proof. apply onek_encoding_unk_spec. Qed.

(** ** The feature encoders *)

Lemma elem_of_py_range (n : nat) (x : Z) : x ∈ py_range n <-> 0 <= x < Z.of_nat n.
Proof.
  unfold py_range. rewrite list_elem_of_fmap. split.
  - intros (k & -> & Hk). apply elem_of_seq in Hk. lia.
  - intros Hx. exists (Z.to_nat x). split; [lia|]. apply elem_of_seq. lia.
Qed.

Section EncoderFacts.
Context `{Scalar} `{!Toolkit}.

Lemma ATOM_FDIM_value : ATOM_FDIM = 144%nat.
Proof. vm_compute. reflexivity. Qed.

Lemma ATOM_FEATURES_atomic_num : ATOM_FEATURES !!! "atomic_num"%string = py_range 100.
Proof. vm_compute. reflexivity. Qed.

Lemma ATOM_FEATURES_lengths :
  length (ATOM_FEATURES !!! "atomic_num"%string) = 100%nat
  /\ length (ATOM_FEATURES !!! "degree"%string) = 6%nat
  /\ length (ATOM_FEATURES !!! "formal_charge"%string) = 5%nat
  /\ length (ATOM_FEATURES !!! "chiral_tag"%string) = 4%nat
  /\ length (ATOM_FEATURES !!! "implicit_valence"%string) = 7%nat
  /\ length (ATOM_FEATURES !!! "num_Hs"%string) = 5%nat
  /\ length (ATOM_FEATURES !!! "hybridization"%string) = 5%nat
  /\ length (ATOM_FEATURES !!! "num_radical_electrons"%string) = 3%nat.
Proof. vm_compute. repeat split. Qed.

(** [ATOM_FDIM] is the sum, over the eight blocks, of the number of choices
    plus one, and one more for the aromaticity flag. *)
Lemma ATOM_FDIM_blocks :
  ATOM_FDIM =
    ((length (ATOM_FEATURES !!! "atomic_num"%string) + 1)
     + (length (ATOM_FEATURES !!! "degree"%string) + 1)
     + (length (ATOM_FEATURES !!! "formal_charge"%string) + 1)
     + (length (ATOM_FEATURES !!! "chiral_tag"%string) + 1)
     + (length (ATOM_FEATURES !!! "implicit_valence"%string) + 1)
     + (length (ATOM_FEATURES !!! "num_Hs"%string) + 1)
     + (length (ATOM_FEATURES !!! "hybridization"%string) + 1)
     + (length (ATOM_FEATURES !!! "num_radical_electrons"%string) + 1)
     + 1)%nat.
Proof. vm_compute. reflexivity. Qed.

Ltac step_onek :=
  match goal with
  | |- context [onek_encoding_unk ?v ?c] =>
      let enc := fresh "enc" in
      let E := fresh "E" in
      let L := fresh "L" in
      destruct (onek_encoding_unk_Ok v c) as (enc & E & L);
      rewrite E; cbn [mbind result_bind]
  end.

Lemma atom_features_spec (atom : Atom) :
  exists v, atom_features atom = Ok v
            /\ length v = ATOM_FDIM
            /\ (~ (1 <= GetAtomicNum atom <= 100) -> v !! 100%nat = Some (of_Z 1)).
Proof.
  unfold atom_features.
  destruct (onek_encoding_unk_spec (GetAtomicNum atom - 1)
              (ATOM_FEATURES !!! "atomic_num"%string))
    as (f_num & p & E_num & L_num & Hform & _ & _ & Hover).
  rewrite E_num. cbn [mbind result_bind].
  do 7 step_onek.
  eexists. split; [done|]. split.
  - unfold torch_Tensor. rewrite length_fmap, !length_app. simpl.
    rewrite ATOM_FDIM_blocks. lia.
  - intros Hout. unfold torch_Tensor. rewrite list_lookup_fmap.
    rewrite Hover in Hform.
    2:{ rewrite ATOM_FEATURES_atomic_num, elem_of_py_range. lia. }
    destruct ATOM_FEATURES_lengths as (L100 & _). rewrite L100 in Hform.
    rewrite Nat.sub_diag in Hform. rewrite Hform.
    rewrite <- app_assoc. rewrite lookup_app_r by (rewrite length_replicate; lia).
    rewrite length_replicate. done.
Qed.

Lemma atom_features_Ok (atom : Atom) :
  exists v, atom_features atom = Ok v /\ length v = ATOM_FDIM.
Proof. destruct (atom_features_spec atom) as (v & E & L & _). eauto. Qed.

(** C6.  For every atom, whatever the values of its properties,
    [atom_features] returns a vector of length exactly [ATOM_FDIM], which is
    the sum over the eight feature blocks of (number of choices + 1), plus 1
    for the aromaticity scalar; an atomic number outside the enumerated
    1..100 sets the overflow slot of the first block (position 100). *)
Theorem atom_features_length (atom : Atom) :
  exists v, atom_features atom = Ok v
            /\ length v = ATOM_FDIM
            /\ ATOM_FDIM =
                 (sum_list ((fun choices : list Z => length choices + 1)%nat
                              <$> (map_to_list ATOM_FEATURES).*2) + 1)%nat
            /\ (~ (1 <= GetAtomicNum atom <= 100) -> v !! 100%nat = Some (of_Z 1)).
Proof.
  destruct (atom_features_spec atom) as (v & E & L & Hover).
  exists v. repeat split; done.
Qed.

Lemma bond_features_Ok (bond : option Bond) (distance_path : option Z)
    (distance_3d : option scalar) :
  exists v, bond_features bond distance_path distance_3d = Ok v
            /\ length v = (BOND_FDIM + (if distance_path is Some _ then 11 else 0)
                           + (if distance_3d is Some _ then 1 else 0))%nat.
Proof.
  unfold bond_features.
  destruct bond as [bond|]; cbn [mbind result_bind].
  - step_onek. destruct distance_path as [d|]; cbn [mbind result_bind].
    + step_onek. eexists. split; [done|].
      unfold torch_Tensor. rewrite length_app, length_fmap, !length_app.
      rewrite L, L0. unfold py_range. rewrite !length_fmap, !length_seq.
      destruct distance_3d; simpl; unfold BOND_FDIM; lia.
    + eexists. split; [done|].
      unfold torch_Tensor. rewrite length_app, length_fmap, !length_app.
      rewrite L. unfold py_range. rewrite !length_fmap, !length_seq.
      destruct distance_3d; simpl; unfold BOND_FDIM; lia.
  - destruct distance_path as [d|]; cbn [mbind result_bind].
    + step_onek. eexists. split; [done|].
      unfold torch_Tensor. rewrite length_app, length_fmap, !length_app.
      rewrite L. unfold py_range. rewrite !length_fmap, !length_seq.
      destruct distance_3d; simpl; unfold BOND_FDIM; lia.
    + eexists. split; [done|].
      unfold torch_Tensor. rewrite length_app, length_fmap, !length_app.
      destruct distance_3d; simpl; unfold BOND_FDIM; lia.
Qed.

End EncoderFacts.

(** ** Featurising one notation *)

Lemma foldM_result_total {A B} (P : B -> Prop) (body : B -> A -> result B)
    (l : list A) (b : B) :
  P b ->
  (forall b a, a ∈ l -> P b -> exists b', body b a = Ok b' /\ P b') ->
  exists b', foldM body l b = Ok b' /\ P b'.
Proof.
  revert b. induction l as [|a l IH]; simpl; intros b Hb Hbody; [eauto|].
  destruct (Hbody b a) as (b1 & E1 & Hb1); [by left|done|].
  rewrite E1. simpl. apply IH; [done|].
  intros b2 a2 Ha2. apply Hbody. by right.
Qed.

Section FeaturizeFacts.
Context `{Scalar} `{!Toolkit}.

Lemma M_bind_unfold {A B} (m : M A) (f : A -> M B) (w : World) :
  (m ≫= f) w = match m w with
               | (w', Ok a) => f a w'
               | (w', Raise e) => (w', Raise e)
               end.
Proof. reflexivity. Qed.

Lemma log_calls_log_calls w a b : log_calls (log_calls w a) b = log_calls w (a ++ b).
Proof. unfold log_calls. simpl. by rewrite app_assoc. Qed.

Lemma log_call_eq s c w : log_call s c w = (log_calls w [(s, c)], Ok tt).
Proof. reflexivity. Qed.

Lemma call_MolFromSmiles_eq s w :
  call_MolFromSmiles s w = (log_calls w [(s, Call_MolFromSmiles)], Ok (MolFromSmiles s)).
Proof. reflexivity. Qed.
Lemma call_AddHs_eq s mol w :
  call_AddHs s mol w = (log_calls w [(s, Call_AddHs)], Ok (AddHs mol)).
Proof. reflexivity. Qed.
Lemma call_EmbedMolecule_eq s mol w :
  call_EmbedMolecule s mol w = (log_calls w [(s, Call_EmbedMolecule)], Ok (EmbedMolecule mol)).
Proof. reflexivity. Qed.
Lemma call_RemoveHs_eq s mol w :
  call_RemoveHs s mol w = (log_calls w [(s, Call_RemoveHs)], Ok (RemoveHs mol)).
Proof. reflexivity. Qed.
Lemma call_Get3DDistanceMatrix_eq s mol w :
  call_Get3DDistanceMatrix s mol w =
    (log_calls w [(s, Call_Get3DDistanceMatrix)],
     of_option ValueError_bad_conformer (Get3DDistanceMatrix mol)).
Proof. reflexivity. Qed.
Lemma call_GetDistanceMatrix_eq s mol w :
  call_GetDistanceMatrix s mol w =
    (log_calls w [(s, Call_GetDistanceMatrix)], Ok (GetDistanceMatrix mol)).
Proof. reflexivity. Qed.
Lemma lift_eq {A} (r : result A) w : lift r w = (w, r).
Proof. reflexivity. Qed.
Lemma M_ret_eq {A} (a : A) (w : World) : (mret a : M A) w = (w, Ok a).
Proof. reflexivity. Qed.
Lemma cache_store_eq s mf w :
  cache_store s mf w = ({| SMILES_TO_FEATURES := <[s := mf]> (SMILES_TO_FEATURES w);
                           toolkit_calls := toolkit_calls w |}, Ok tt).
Proof. reflexivity. Qed.

Ltac mstep :=
  rewrite ?M_bind_unfold;
  rewrite ?call_MolFromSmiles_eq, ?call_AddHs_eq, ?call_EmbedMolecule_eq, ?call_RemoveHs_eq,
    ?call_Get3DDistanceMatrix_eq, ?call_GetDistanceMatrix_eq, ?lift_eq, ?M_ret_eq,
    ?cache_store_eq, ?log_calls_log_calls;
  cbn beta iota.

Lemma featurize_eq (addHs three_d virtual_edges : bool) (smiles : string) (w : World) :
  exists tr,
    featurize addHs three_d virtual_edges smiles w =
      ({| SMILES_TO_FEATURES :=
            match compute_features addHs three_d virtual_edges smiles with
            | Ok mf => <[smiles := mf]> (SMILES_TO_FEATURES w)
            | Raise _ => SMILES_TO_FEATURES w
            end;
          toolkit_calls := toolkit_calls w ++ tr |},
       compute_features addHs three_d virtual_edges smiles)
    /\ Forall (fun c => c.1 = smiles) tr
    /\ (forall mf, compute_features addHs three_d virtual_edges smiles = Ok mf ->
                   tr = pair smiles <$> featurize_calls addHs three_d).
Proof.
  unfold compute_features, prepare_mol, featurize_calls.
  destruct (MolFromSmiles smiles) as [mol|] eqn:Eparse; cbn [of_option mbind result_bind].
  2:{ unfold featurize. mstep. rewrite Eparse. cbn [of_option].
      eexists. split; [reflexivity|]. split; [repeat (apply Forall_cons_2; [reflexivity|]); apply Forall_nil_2|].
      intros mf; discriminate. }
  destruct addHs, three_d; cbv beta iota zeta delta [negb];
    cbn [of_option mbind result_bind];
    repeat match goal with
      | |- context [@mbind result _ _ _ _ ?r] =>
          lazymatch r with
          | Ok _ => fail
          | mbind _ _ => fail
          | _ => destruct r as [?|?] eqn:?
          end;
          cbn [of_option mbind result_bind]
      end;
    repeat match goal with
      | p : _ * _ |- _ => destruct p
      end;
    unfold featurize; cbv beta iota zeta delta [negb];
    repeat (mstep; cbv beta iota zeta;
            repeat match goal with
              | E : _ = _ |- _ => rewrite E
              end;
            cbn [of_option mbind result_bind]);
    unfold log_calls; cbn [app SMILES_TO_FEATURES toolkit_calls];
    (eexists; split; [reflexivity|];
     split; [repeat (apply Forall_cons_2; [reflexivity|]); apply Forall_nil_2|];
     intros mf; try discriminate; reflexivity).
Qed.
(** A notation that is a key of [SMILES_TO_FEATURES] is not featurised
    again: the world does not change and the memoised tuple comes back. *)
Lemma mol_features_hit (addHs three_d virtual_edges : bool) (smiles : string) (w : World)
    (mf : MolFeatures) :
  SMILES_TO_FEATURES w !! smiles = Some mf ->
  mol_features addHs three_d virtual_edges smiles w = (w, Ok mf).
Proof.
  intros Hhit. unfold mol_features, cache_lookup. rewrite M_bind_unfold.
  cbn beta iota. rewrite Hhit. reflexivity.
Qed.

Lemma mol_features_miss (addHs three_d virtual_edges : bool) (smiles : string) (w : World) :
  SMILES_TO_FEATURES w !! smiles = None ->
  mol_features addHs three_d virtual_edges smiles w
  = featurize addHs three_d virtual_edges smiles w.
Proof.
  intros Hmiss. unfold mol_features, cache_lookup. rewrite M_bind_unfold.
  cbn beta iota. rewrite Hmiss. reflexivity.
Qed.

End FeaturizeFacts.

(** ** The tuple computed for a notation *)

Lemma foldM_result_ext {A B} (f g : B -> A -> result B) (l : list A) (b : B) :
  (forall b a, f b a = g b a) -> foldM f l b = foldM g l b.
Proof.
  intros Hfg. revert b. induction l as [|a l IH]; simpl; intros b; [done|].
  rewrite Hfg. destruct (g b a); simpl; [apply IH | done].
Qed.

Section ComputeFacts.
Context `{Scalar} `{!Toolkit}.

Lemma bond_pair_Ok (three_d virtual_edges : bool) (mol : Mol) (mol_fatoms : list (list scalar))
    distances_3d distances_path (a1 a2 : nat) acc :
  (a1 < length mol_fatoms)%nat -> (a2 < length mol_fatoms)%nat ->
  pairs_ok (length mol_fatoms) acc ->
  exists acc', bond_pair three_d virtual_edges mol mol_fatoms distances_3d distances_path
                 a1 acc a2 = Ok acc'
               /\ pairs_ok (length mol_fatoms) acc'.
Proof.
  intros H1 H2 [Hlen Hrange]. destruct acc as [fb ab]. unfold bond_pair.
  destruct (bool_decide (GetBondBetweenAtoms mol a1 a2 = None) && negb virtual_edges).
  { eexists. split; [done|]. by split. }
  cbv zeta.
  destruct (lookup_lt_is_Some_2 mol_fatoms a1 H1) as [fa1 E1].
  destruct (lookup_lt_is_Some_2 mol_fatoms a2 H2) as [fa2 E2].
  rewrite E1, E2. cbn [of_option mbind result_bind].
  match goal with
  | |- context [bond_features ?b ?p ?d] =>
      destruct (bond_features_Ok b p d) as (bf & Ebf & _); rewrite Ebf
  end.
  cbn [mbind result_bind].
  eexists. split; [done|]. split; simpl in *.
  - rewrite !length_app. simpl. lia.
  - rewrite <- app_assoc. apply Forall_app. split; [done|].
    repeat apply Forall_cons_2; simpl; try lia. apply Forall_nil_2.
Qed.

Lemma bond_loops_Ok (three_d virtual_edges : bool) (mol : Mol) (mol_fatoms : list (list scalar))
    distances_3d distances_path :
  exists fb ab,
    bond_loops three_d virtual_edges mol mol_fatoms distances_3d distances_path
      (length mol_fatoms) = Ok (fb, ab)
    /\ pairs_ok (length mol_fatoms) (fb, ab).
Proof.
  unfold bond_loops.
  destruct (foldM_result_total (pairs_ok (length mol_fatoms))
              (fun acc a1 =>
                 foldM (bond_pair three_d virtual_edges mol mol_fatoms distances_3d
                          distances_path a1)
                       (seq (a1 + 1) (length mol_fatoms - (a1 + 1))) acc)
              (seq 0 (length mol_fatoms)) ([], [])) as ([fb ab] & E & Hok).
  - split; [done|]. apply Forall_nil_2.
  - intros acc a1 Ha1 Hacc. apply elem_of_seq in Ha1.
    apply foldM_result_total; [done|].
    intros acc' a2 Ha2 Hacc'. apply elem_of_seq in Ha2.
    apply bond_pair_Ok; [lia|lia|done].
  - eauto.
Qed.

(** Without virtual edges the topological distance matrix is not read. *)
Lemma bond_loops_ignores_distances_path (three_d : bool) (mol : Mol)
    (mol_fatoms : list (list scalar)) distances_3d (d d' : nat -> nat -> Z) (n : nat) :
  bond_loops three_d false mol mol_fatoms distances_3d d n
  = bond_loops three_d false mol mol_fatoms distances_3d d' n.
Proof.
  unfold bond_loops. apply foldM_result_ext. intros acc a1.
  apply foldM_result_ext. intros [fb ab] a2. reflexivity.
Qed.

Lemma prepare_mol_cases (addHs three_d : bool) (smiles : string) :
  (exists mol d3, prepare_mol addHs three_d smiles = Ok (mol, d3)
                  /\ is_Some (MolFromSmiles smiles))
  \/ (prepare_mol addHs three_d smiles = Raise ArgumentError
      /\ MolFromSmiles smiles = None)
  \/ (prepare_mol addHs three_d smiles = Raise ValueError_bad_conformer
      /\ three_d = true /\ is_Some (MolFromSmiles smiles)).
Proof.
  unfold prepare_mol.
  destruct (MolFromSmiles smiles) as [mol|]; cbn [of_option mbind result_bind];
    [|by right; left].
  destruct three_d; cbv zeta; [|left; eauto].
  match goal with
  | |- context [of_option _ ?o] => destruct o as [d3|]
  end; cbn [of_option mbind result_bind]; [left; eauto | right; right; eauto].
Qed.

Lemma compute_features_cases (addHs three_d virtual_edges : bool) (smiles : string) :
  (exists mf, compute_features addHs three_d virtual_edges smiles = Ok mf
              /\ features_wf mf /\ is_Some (MolFromSmiles smiles))
  \/ (compute_features addHs three_d virtual_edges smiles = Raise ArgumentError
      /\ MolFromSmiles smiles = None)
  \/ (compute_features addHs three_d virtual_edges smiles = Raise ValueError_bad_conformer
      /\ three_d = true /\ is_Some (MolFromSmiles smiles)).
Proof.
  unfold compute_features.
  destruct (prepare_mol_cases addHs three_d smiles)
    as [(mol & d3 & -> & Hparse) | [[-> Hnone] | (-> & Ht & Hparse)]];
    cbn [mbind result_bind]; [|by right; left|by right; right].
  left.
  rewrite (result_mapM_total atom_features
             (fun atom => default [] (match atom_features atom with
                                      | Ok v => Some v | Raise _ => None end))).
  2:{ intros atom _. destruct (atom_features_Ok atom) as (v & -> & _). done. }
  cbn [mbind result_bind]. unfold GetNumAtoms.
  set (fa := _ <$> GetAtoms mol).
  assert (length fa = length (GetAtoms mol)) as Hfa by (unfold fa; by rewrite length_fmap).
  rewrite <- Hfa.
  destruct (bond_loops_Ok three_d virtual_edges mol fa d3 (GetDistanceMatrix mol))
    as (fb & ab & -> & Hlen & Hrange).
  cbn [mbind result_bind]. eexists. split; [done|]. split; [|done].
  split; [done|]. split; done.
Qed.

End ComputeFacts.

(** ** Incoming bonds *)

Lemma enumerate_snoc {A} (l : list A) (x : A) :
  enumerate (l ++ [x]) = enumerate l ++ [(length l, x)].
Proof.
  unfold enumerate. rewrite length_app. cbn [length]. rewrite seq_app. cbn [seq].
  rewrite zip_with_app by (by rewrite length_seq). done.
Qed.

Lemma elem_of_zip_seq {A} (l : list A) (k i : nat) (x : A) :
  (i, x) ∈ zip (seq k (length l)) l <-> (k <= i)%nat /\ l !! (i - k)%nat = Some x.
Proof.
  revert k. induction l as [|y l IH]; intros k; simpl.
  - split; [intros Hin; by apply elem_of_nil in Hin | intros [_ ?]; done].
  - rewrite elem_of_cons, IH. split.
    + intros [E | [Hk Hl]].
      * injection E as -> ->. split; [lia|]. by rewrite Nat.sub_diag.
      * split; [lia|]. replace (i - k)%nat with (S (i - S k)) by lia. done.
    + intros [Hk Hl]. destruct (decide (i = k)) as [->|Hne].
      * left. rewrite Nat.sub_diag in Hl. simpl in Hl. by injection Hl as ->.
      * right. split; [lia|]. replace (i - k)%nat with (S (i - S k)) in Hl by lia. done.
Qed.

Lemma elem_of_enumerate {A} (l : list A) (i : nat) (x : A) :
  (i, x) ∈ enumerate l <-> l !! i = Some x.
Proof.
  unfold enumerate. rewrite elem_of_zip_seq. rewrite Nat.sub_0_r. split; [by intros [_ ?]|].
  intros ?. split; [lia|done].
Qed.

Lemma incoming_snoc (all_bonds : list (Z * Z)) (x y a : Z) :
  incoming (all_bonds ++ [(x, y)]) a
  = incoming all_bonds a
    ++ (if decide ((1 <= length all_bonds)%nat /\ y = a) then [length all_bonds] else []).
Proof.
  unfold incoming. rewrite enumerate_snoc, filter_app, fmap_app. f_equal.
  rewrite filter_cons, filter_nil. simpl.
  destruct (decide ((1 <= length all_bonds)%nat /\ y = a)); done.
Qed.

Lemma elem_of_incoming (all_bonds : list (Z * Z)) (a : Z) (b : nat) :
  b ∈ incoming all_bonds a
  <-> (1 <= b)%nat /\ exists x, all_bonds !! b = Some (x, a).
Proof.
  unfold incoming. rewrite list_elem_of_fmap. split.
  - intros ([b' [x y]] & -> & Hin). apply list_elem_of_filter in Hin as [[Hb Hy] Hin].
    simpl in *. apply elem_of_enumerate in Hin. subst y. eauto.
  - intros (Hb & x & Hl). exists (b, (x, a)). split; [done|].
    apply list_elem_of_filter. split; [done|]. by apply elem_of_enumerate.
Qed.

Lemma incoming_empty (rest : list (Z * Z)) (bound : nat) (a : Z) :
  Forall (fun pair : Z * Z => 0 <= pair.1 < Z.of_nat bound /\ 0 <= pair.2 < Z.of_nat bound) rest ->
  Z.of_nat bound <= a ->
  incoming ((-1, -1) :: rest) a = [].
Proof.
  intros Hrange Ha. destruct (incoming ((-1, -1) :: rest) a) as [|b bs] eqn:E; [done|].
  assert (b ∈ incoming ((-1, -1) :: rest) a) as Hb by (rewrite E; left).
  apply elem_of_incoming in Hb as (Hb & x & Hl).
  destruct b as [|b]; [lia|]. simpl in Hl.
  rewrite Forall_forall in Hrange.
  apply list_elem_of_lookup_2 in Hl. apply Hrange in Hl. simpl in Hl. lia.
Qed.

(** ** Adding a molecule to the batch *)

Lemma py_subscript_in_range (n : nat) (i : Z) :
  0 <= i < Z.of_nat n -> py_subscript n i = Ok (Z.to_nat i).
Proof. intros Hi. unfold py_subscript. by rewrite decide_True. Qed.

Lemma tables_inv_extend (bound n : nat) all_bonds in_bonds :
  tables_inv bound all_bonds in_bonds ->
  tables_inv (bound + n) all_bonds (in_bonds ++ replicate n []).
Proof.
  intros (Hlen & (rest & -> & Hrange) & Hin). split; [|split].
  - rewrite length_app, length_replicate. lia.
  - exists rest. split; [done|]. eapply Forall_impl; [exact Hrange|].
    intros [x y]; simpl. lia.
  - intros a Ha. destruct (decide (a < bound)%nat) as [Hlt|Hge].
    + rewrite lookup_app_l by lia. by apply Hin.
    + rewrite lookup_app_r by lia. rewrite lookup_replicate_2 by lia.
      f_equal. symmetry. apply (incoming_empty rest bound); [done|lia].
Qed.

Lemma add_bond_Ok (bound total : nat) (n : nat) all_bonds in_bonds (pair : Z * Z) :
  tables_inv bound all_bonds in_bonds ->
  (total + n <= bound)%nat ->
  0 <= pair.1 < Z.of_nat n -> 0 <= pair.2 < Z.of_nat n ->
  exists in_bonds',
    add_bond total (all_bonds, in_bonds) pair
    = Ok (all_bonds ++ [shift_pair total pair], in_bonds')
    /\ tables_inv bound (all_bonds ++ [shift_pair total pair]) in_bonds'.
Proof.
  intros (Hlen & (rest & -> & Hrange) & Hin) Hbound H1 H2.
  destruct pair as [a1 a2]. simpl in H1, H2. unfold add_bond, shift_pair. cbv zeta. simpl fst. simpl snd.
  rewrite py_subscript_in_range by lia. cbn [mbind result_bind].
  eexists. split; [reflexivity|]. split; [|split].
  - by rewrite length_alter.
  - exists (rest ++ [(a1 + Z.of_nat total, a2 + Z.of_nat total)]). split; [done|].
    apply Forall_app. split; [done|]. apply Forall_cons_2; [simpl; lia|apply Forall_nil_2].
  - intros a Ha. rewrite incoming_snoc.
    destruct (decide (Z.to_nat (a2 + Z.of_nat total) = a)) as [<-|Hne].
    + rewrite list_lookup_alter_eq, Hin by lia. simpl.
      rewrite decide_True; [done|]. split; [lia|]. lia.
    + rewrite list_lookup_alter_ne by done. rewrite Hin by done.
      rewrite decide_False by lia. by rewrite app_nil_r.
Qed.

Lemma add_bonds_Ok (bound total n : nat) (pairs : list (Z * Z)) all_bonds in_bonds :
  tables_inv bound all_bonds in_bonds ->
  (total + n <= bound)%nat ->
  Forall (fun pair : Z * Z => 0 <= pair.1 < Z.of_nat n /\ 0 <= pair.2 < Z.of_nat n) pairs ->
  exists in_bonds',
    foldM (add_bond total) pairs (all_bonds, in_bonds)
    = Ok (all_bonds ++ (shift_pair total <$> pairs), in_bonds')
    /\ tables_inv bound (all_bonds ++ (shift_pair total <$> pairs)) in_bonds'.
Proof.
  revert all_bonds in_bonds. induction pairs as [|pair pairs IH]; intros ab ib Hinv Hbound Hrange.
  - exists ib. simpl. rewrite app_nil_r. done.
  - apply Forall_cons in Hrange as [[H1 H2] Hrange].
    destruct (add_bond_Ok bound total n ab ib pair Hinv Hbound H1 H2) as (ib1 & E1 & Hinv1).
    cbn [foldM]. rewrite E1. cbn [mbind result_bind].
    destruct (IH _ _ Hinv1 Hbound Hrange) as (ib2 & E2 & Hinv2).
    exists ib2. rewrite E2. rewrite fmap_cons, <- app_assoc in *. simpl in *. done.
Qed.

Section AddMoleculeFacts.
Context `{Scalar} `{!Toolkit}.

Lemma add_molecule_Ok (L : Locals) (mf : MolFeatures) :
  locals_inv L -> features_wf mf ->
  exists L', add_molecule L mf = Ok L'
    /\ locals_inv L'
    /\ fatoms L' = fatoms L ++ mol_fatoms mf
    /\ fbonds L' = fbonds L ++ mol_fbonds mf
    /\ all_bonds L' = all_bonds L ++ (shift_pair (total_atoms L) <$> mol_all_bonds mf)
    /\ scope L' = scope L ++ [(total_atoms L, n_atoms mf)]
    /\ total_atoms L' = (total_atoms L + n_atoms mf)%nat.
Proof.
  intros (Hfa & Hfb & Hinv) (Hmfa & Hmfb & Hrange).
  unfold add_molecule. cbv zeta.
  destruct (add_bonds_Ok (total_atoms L + n_atoms mf) (total_atoms L) (n_atoms mf)
              (mol_all_bonds mf) (all_bonds L) (in_bonds L ++ replicate (n_atoms mf) []))
    as (ib' & E & Hinv'); [by apply tables_inv_extend|lia|done|].
  rewrite E. cbn [mbind result_bind].
  eexists. split; [reflexivity|]. simpl.
  split; [|done].
  split; [|split]; simpl.
  - rewrite length_app. lia.
  - rewrite !length_app, length_fmap. lia.
  - done.
Qed.

End AddMoleculeFacts.

(** ** The loop over the batch *)

Section BatchLoopFacts.
Context `{Scalar} `{!Toolkit}.

(** One notation of the batch: what [mol_features] does to the world and
    which tuple it returns. *)
Lemma mol_features_step (addHs three_d virtual_edges : bool) (smiles : string)
    (w w1 : World) (r : result MolFeatures) :
  mol_features addHs three_d virtual_edges smiles w = (w1, r) ->
  (forall s t, SMILES_TO_FEATURES w !! s = Some t -> SMILES_TO_FEATURES w1 !! s = Some t)
  /\ (exists tr, toolkit_calls w1 = toolkit_calls w ++ tr
                 /\ Forall (fun c => c.1 = smiles /\ SMILES_TO_FEATURES w !! c.1 = None) tr
                 /\ (SMILES_TO_FEATURES w !! smiles = None ->
                     forall mf, r = Ok mf -> tr = pair smiles <$> featurize_calls addHs three_d))
  /\ match r with
     | Ok t => tuple_for addHs three_d virtual_edges w smiles t
               /\ SMILES_TO_FEATURES w1 !! smiles = Some t
               /\ (forall s, s ≠ smiles ->
                             SMILES_TO_FEATURES w1 !! s = SMILES_TO_FEATURES w !! s)
     | Raise e => SMILES_TO_FEATURES w1 = SMILES_TO_FEATURES w
                  /\ SMILES_TO_FEATURES w !! smiles = None
                  /\ compute_features addHs three_d virtual_edges smiles = Raise e
     end.
Proof.
  destruct (SMILES_TO_FEATURES w !! smiles) as [mf|] eqn:Hcache.
  - rewrite (mol_features_hit _ _ _ _ _ _ Hcache). intros [= <- <-].
    split; [done|]. split.
    + exists []. rewrite app_nil_r. split; [done|]. split; [apply Forall_nil_2|done].
    + split; [by left|]. done.
  - rewrite (mol_features_miss _ _ _ _ _ Hcache).
    destruct (featurize_eq addHs three_d virtual_edges smiles w) as (tr & -> & Htr & Hcalls).
    intros [= <- <-]. simpl. split; [|split].
    + intros s t Hs. destruct (compute_features _ _ _ _); [|done].
      rewrite lookup_insert_ne; [done|]. intros <-. congruence.
    + exists tr. split; [done|]. split.
      * eapply Forall_impl; [exact Htr|]. intros c ->. done.
      * intros _ mf E. by eapply Hcalls.
    + destruct (compute_features _ _ _ _) as [t|e] eqn:E.
      * split; [right; done|]. split; [by rewrite lookup_insert_eq|].
        intros s Hs. by rewrite lookup_insert_ne.
      * done.
Qed.


Lemma batch_loop_unfold (mol_batch : list string) (addHs three_d virtual_edges : bool) :
  batch_loop mol_batch addHs three_d virtual_edges
  = foldM (batch_body addHs three_d virtual_edges) mol_batch
          (initial_locals three_d virtual_edges).
Proof. reflexivity. Qed.

Lemma batch_fold_cons (addHs three_d virtual_edges : bool) (smiles : string)
    (batch : list string) (L0 : Locals) (w : World) :
  foldM (batch_body addHs three_d virtual_edges) (smiles :: batch) L0 w
  = match mol_features addHs three_d virtual_edges smiles w with
    | (w1, Ok mf) =>
        match add_molecule L0 mf with
        | Ok L1 => foldM (batch_body addHs three_d virtual_edges) batch L1 w1
        | Raise e => (w1, Raise e)
        end
    | (w1, Raise e) => (w1, Raise e)
    end.
Proof.
  cbn [foldM]. rewrite M_bind_unfold.
  assert (batch_body addHs three_d virtual_edges L0 smiles w
          = match mol_features addHs three_d virtual_edges smiles w with
            | (w1, Ok mf) => (w1, add_molecule L0 mf)
            | (w1, Raise e) => (w1, Raise e)
            end) as ->.
  { unfold batch_body. rewrite M_bind_unfold.
    destruct (mol_features _ _ _ _ _) as [w1 [mf|e]]; done. }
  destruct (mol_features _ _ _ _ _) as [w1 [mf|e]]; [|done].
  destruct (add_molecule L0 mf); done.
Qed.

(** The loop over the batch uses, for each notation, the tuple [tuple_for]
    describes, and assembles these tuples with [add_molecule]. *)
Lemma batch_fold_tuples (addHs three_d virtual_edges : bool) (batch : list string) :
  forall (L0 : Locals) (w w' : World) (L : Locals),
    foldM (batch_body addHs three_d virtual_edges) batch L0 w = (w', Ok L) ->
    exists ts,
      Forall2 (fun s t => tuple_for addHs three_d virtual_edges w s t
                          /\ SMILES_TO_FEATURES w' !! s = Some t) batch ts
      /\ foldM add_molecule ts L0 = Ok L.
Proof.
  induction batch as [|smiles batch IH]; intros L0 w w' L.
  - intros [= <- <-]. exists []. split; [constructor|done].
  - rewrite batch_fold_cons.
    destruct (mol_features _ _ _ _ _) as [w1 [mf|e]] eqn:Estep; [|discriminate].
    destruct (add_molecule L0 mf) as [L1|e] eqn:Eadd; [|discriminate].
    intros Etail.
    apply mol_features_step in Estep as (Hmono & _ & Hfor & Hhit & Hother).
    destruct (IH _ _ _ _ Etail) as (ts & Hts & Hfold).
    assert (forall s t, SMILES_TO_FEATURES w1 !! s = Some t ->
                        SMILES_TO_FEATURES w' !! s = Some t) as Hmono'.
    { clear -Etail. revert L1 w1 Etail.
      induction batch as [|s' batch IH']; intros L1 w1.
      - by intros [= <- <-].
      - rewrite batch_fold_cons.
        destruct (mol_features _ _ _ _ _) as [w2 [mf|e]] eqn:Estep; [|discriminate].
        destruct (add_molecule L1 mf) as [L2|e]; [|discriminate].
        intros Etail s t Hs. eapply IH'; [exact Etail|].
        apply mol_features_step in Estep as (Hmono & _). by apply Hmono. }
    exists (mf :: ts). split.
    + constructor; [split; [done|by apply Hmono']|].
      eapply Forall2_impl; [exact Hts|]. intros s t [Ht Hw']. split; [|done].
      destruct Ht as [Hc|[Hc Hcomp]].
      * destruct (decide (s = smiles)) as [->|Hne].
        -- rewrite Hhit in Hc. injection Hc as <-. done.
        -- left. by rewrite <- Hother.
      * right. split; [|done].
        destruct (SMILES_TO_FEATURES w !! s) eqn:E; [|done].
        apply Hmono in E. congruence.
    + cbn [foldM]. rewrite Eadd. done.
Qed.

(** The dictionary only grows, and toolkit calls are made only for
    notations of the batch that were not keys when the loop started. *)
Lemma batch_fold_world (addHs three_d virtual_edges : bool) (batch : list string) :
  forall (L0 : Locals) (w w' : World) (r : result Locals),
    foldM (batch_body addHs three_d virtual_edges) batch L0 w = (w', r) ->
    (forall s t, SMILES_TO_FEATURES w !! s = Some t -> SMILES_TO_FEATURES w' !! s = Some t)
    /\ exists tr, toolkit_calls w' = toolkit_calls w ++ tr
                  /\ Forall (fun c => c.1 ∈ batch /\ SMILES_TO_FEATURES w !! c.1 = None) tr.
Proof.
  induction batch as [|smiles batch IH]; intros L0 w w' r.
  - intros [= <- <-]. split; [done|]. exists []. rewrite app_nil_r. split; [done|constructor].
  - rewrite batch_fold_cons.
    destruct (mol_features _ _ _ _ _) as [w1 [mf|e]] eqn:Estep.
    + apply mol_features_step in Estep as (Hmono & (tr1 & Etr1 & Htr1 & _) & _).
      assert (Forall (fun c => c.1 ∈ smiles :: batch /\ SMILES_TO_FEATURES w !! c.1 = None) tr1)
        as Htr1'.
      { eapply Forall_impl; [exact Htr1|]. intros c [-> Hc]. split; [left|done]. }
      destruct (add_molecule L0 mf) as [L1|e].
      * intros Etail. destruct (IH _ _ _ _ Etail) as (Hmono2 & tr2 & Etr2 & Htr2).
        split; [intros s t Hs; by apply Hmono2, Hmono|].
        exists (tr1 ++ tr2). rewrite Etr2, Etr1, app_assoc. split; [done|].
        apply Forall_app. split; [done|].
        eapply Forall_impl; [exact Htr2|]. intros c [Hin Hc]. split; [by right|].
        destruct (SMILES_TO_FEATURES w !! c.1) eqn:E; [|done].
        apply Hmono in E. congruence.
      * intros [= <- <-]. split; [done|]. exists tr1. done.
    + apply mol_features_step in Estep as (Hmono & (tr1 & Etr1 & Htr1 & _) & _).
      intros [= <- <-]. split; [done|]. exists tr1. split; [done|].
      eapply Forall_impl; [exact Htr1|]. intros c [-> Hc]. split; [left|done].
Qed.

Lemma tuple_for_wf (addHs three_d virtual_edges : bool) (w : World) (s : string)
    (t : MolFeatures) :
  cache_wf w -> tuple_for addHs three_d virtual_edges w s t ->
  features_wf t /\ is_Some (MolFromSmiles s).
Proof.
  intros Hwf [Hc|[_ Hcomp]]; [by eapply Hwf|].
  destruct (compute_features_cases addHs three_d virtual_edges s)
    as [(mf & E & Hmf & Hp) | [[E _] | (E & _)]]; rewrite E in Hcomp; [|done|done].
  by injection Hcomp as <-.
Qed.

(** Every call keeps the dictionary well formed, and the loop raises only
    what the toolkit raised: for a notation that does not parse, or, with
    [three_d], for a molecule without conformer. *)
Lemma batch_fold_wf (addHs three_d virtual_edges : bool) (batch : list string) :
  forall (L0 : Locals) (w w' : World) (r : result Locals),
    cache_wf w -> locals_inv L0 ->
    foldM (batch_body addHs three_d virtual_edges) batch L0 w = (w', r) ->
    cache_wf w'
    /\ match r with
       | Ok L => locals_inv L
       | Raise e => e = ArgumentError \/ (three_d = true /\ e = ValueError_bad_conformer)
       end.
Proof.
  induction batch as [|smiles batch IH]; intros L0 w w' r Hwf Hinv.
  - by intros [= <- <-].
  - rewrite batch_fold_cons.
    destruct (mol_features _ _ _ _ _) as [w1 [mf|e]] eqn:Estep.
    + apply mol_features_step in Estep as (Hmono & _ & Hfor & Hhit & Hother).
      destruct (tuple_for_wf _ _ _ _ _ _ Hwf Hfor) as [Hmf Hparse].
      assert (cache_wf w1) as Hwf1.
      { intros s t Hs. destruct (decide (s = smiles)) as [->|Hne].
        - rewrite Hhit in Hs. by injection Hs as <-.
        - rewrite Hother in Hs by done. by eapply Hwf. }
      destruct (add_molecule_Ok L0 mf Hinv Hmf) as (L1 & -> & Hinv1 & _).
      intros Etail. by eapply IH.
    + apply mol_features_step in Estep as (_ & _ & Hsame & Hmiss & Hcomp).
      intros [= <- <-]. split.
      * intros s t. rewrite Hsame. apply Hwf.
      * destruct (compute_features_cases addHs three_d virtual_edges smiles)
          as [(mf & E & _) | [[E _] | (E & Ht & _)]]; rewrite E in Hcomp;
          [done|left; congruence|right; split; [done|congruence]].
Qed.

End BatchLoopFacts.

(** ** The index tables *)

Lemma pad_length (width : nat) (row : list nat) :
  (length row <= width)%nat -> length (pad width row) = width.
Proof. intros Hle. unfold pad. rewrite length_app, length_replicate. lia. Qed.

Lemma pad_snoc (width : nat) (row : list nat) (b : nat) :
  (length row < width)%nat ->
  <[length row := b]> (pad width row) = pad width (row ++ [b]).
Proof.
  intros Hlt. unfold pad. rewrite insert_app_r_alt by lia. rewrite Nat.sub_diag.
  rewrite length_app. simpl.
  replace (width - length row)%nat with (S (width - (length row + 1))) by lia.
  simpl. by rewrite <- app_assoc.
Qed.

Lemma pad_snoc_zero (width : nat) (row : list nat) :
  (length row < width)%nat -> pad width row = pad width (row ++ [0%nat]).
Proof.
  intros Hlt. unfold pad. rewrite length_app. simpl.
  replace (width - length row)%nat with (S (width - (length row + 1))) by lia.
  simpl. by rewrite <- app_assoc.
Qed.

(** Filling one row of an index table (the inner loops of lines 224-225 and
    229-231): entry [i] of the row becomes the [i]-th bond when [sel]
    selects it and stays 0 otherwise. *)
Lemma fill_row_Ok (sel : nat -> bool) (body : list (list nat) -> nat * nat -> result (list (list nat)))
    (a width : nat) (bonds : list nat) (t : list (list nat)) :
  (forall t' i b, b ∈ bonds ->
                  body t' (i, b) = if sel b then tensor_set2 t' a i b else Ok t') ->
  t !! a = Some (replicate width 0%nat) ->
  (length bonds <= width)%nat ->
  foldM body (enumerate bonds) t
  = Ok (<[a := pad width ((fun b => if sel b then b else 0%nat) <$> bonds)]> t).
Proof.
  intros Hbody Ha. induction bonds as [|b bonds IH] using rev_ind; intros Hlen.
  - simpl. unfold pad. simpl. rewrite Nat.sub_0_r. by rewrite list_insert_id.
  - rewrite length_app in Hlen. simpl in Hlen.
    rewrite enumerate_snoc, foldM_result_app.
    rewrite IH; [|intros; apply Hbody; apply elem_of_app; by left|lia].
    cbn [mbind result_bind foldM]. rewrite Hbody by (apply elem_of_app; right; left).
    rewrite fmap_app. cbn [fmap list_fmap].
    assert (a < length t)%nat as Halt by (by eapply lookup_lt_Some).
    destruct (sel b).
    + unfold tensor_set2. rewrite list_lookup_insert_eq by done.
      rewrite decide_True by (rewrite pad_length by (rewrite length_fmap; lia); lia).
      cbn [mbind result_bind mret result_ret]. rewrite list_insert_insert_eq.
      do 2 f_equal. rewrite <- (length_fmap (fun b0 => if sel b0 then b0 else 0%nat) bonds) at 1.
      apply pad_snoc. rewrite length_fmap. lia.
    + cbn [mbind result_bind mret result_ret]. do 2 f_equal. apply pad_snoc_zero. rewrite length_fmap. lia.
Qed.

(** Filling the rows [start .. start + count) of a table, one by one (the
    outer loops of lines 223 and 227). *)
Lemma fill_rows_Ok {A} (body : list A -> nat -> result (list A)) (rowf : nat -> A) (zero : A)
    (count : nat) (pre : list A) :
  (forall t j, (length pre <= j < length pre + count)%nat -> t !! j = Some zero ->
               body t j = Ok (<[j := rowf j]> t)) ->
  foldM body (seq (length pre) count) (pre ++ replicate count zero)
  = Ok (pre ++ (rowf <$> seq (length pre) count)).
Proof.
  intros Hbody.
  assert (forall k, (k <= count)%nat ->
            foldM body (seq (length pre) k) (pre ++ replicate count zero)
            = Ok (pre ++ (rowf <$> seq (length pre) k) ++ replicate (count - k) zero)) as Hk.
  { induction k as [|k IH]; intros Hle.
    - simpl. by rewrite Nat.sub_0_r.
    - rewrite seq_S, foldM_result_app, IH by lia. cbn [mbind result_bind foldM].
      rewrite Hbody; [|lia|].
      + cbn [mbind result_bind mret result_ret]. f_equal.
        rewrite insert_app_r_alt by lia.
        rewrite insert_app_r_alt by (rewrite length_fmap, length_seq; lia).
        rewrite length_fmap, length_seq.
        replace (length pre + k - length pre - k)%nat with 0%nat by lia.
        replace (count - k)%nat with (S (count - S k)) by lia.
        rewrite fmap_app. simpl. by rewrite <- app_assoc.
      + rewrite lookup_app_r by lia.
        rewrite lookup_app_r by (rewrite length_fmap, length_seq; lia).
        rewrite length_fmap, length_seq. apply lookup_replicate_2. lia. }
  rewrite Hk by lia. by rewrite Nat.sub_diag, app_nil_r.
Qed.

Lemma torch_stack_Ok {A} (rows rows' : list (list A)) :
  torch_stack rows = Ok rows' -> rows' = rows /\ rows ≠ [].
Proof.
  unfold torch_stack. destruct rows as [|r rs]; [discriminate|].
  destruct (forallb _ rs); [|discriminate]. intros [= <-]. done.
Qed.

Lemma fmap_lookup_seq {A B} (f : A -> B) (d : A) (l : list A) :
  (fun j => f (default d (l !! j))) <$> seq 0 (length l) = f <$> l.
Proof.
  apply list_eq. intros i. rewrite !list_lookup_fmap.
  destruct (decide (i < length l)%nat) as [Hlt|Hge].
  - rewrite lookup_seq_lt by done. simpl.
    destruct (lookup_lt_is_Some_2 l i Hlt) as [x ->]. done.
  - rewrite lookup_seq_ge by lia. rewrite lookup_ge_None_2 by lia. done.
Qed.

Lemma fill_agraph_Ok (in_bonds : list (list nat)) (width : nat) :
  (forall bonds, bonds ∈ in_bonds -> (length bonds <= width)%nat) ->
  fill_agraph in_bonds (length in_bonds)
    (replicate (length in_bonds) (replicate width 0%nat))
  = Ok (pad width <$> in_bonds).
Proof.
  intros Hwidth. unfold fill_agraph.
  pose proof (fill_rows_Ok
    (fun agraph a =>
       bonds ← of_option IndexError (in_bonds !! a);
       foldM (fun agraph '(i, b) => tensor_set2 agraph a i b) (enumerate bonds) agraph)
    (fun j => pad width (default [] (in_bonds !! j)))
    (replicate width 0%nat) (length in_bonds) []) as Hfill.
  simpl in Hfill. rewrite Hfill.
  - f_equal. apply (fmap_lookup_seq (pad width) []).
  - intros t j Hj Ht.
    destruct (lookup_lt_is_Some_2 in_bonds j) as [bonds Hbonds]; [lia|].
    rewrite Hbonds. cbn [of_option mbind result_bind default].
    rewrite (fill_row_Ok (fun _ => true) _ j width bonds t); [| |done|].
    + do 3 f_equal. rewrite <- (list_fmap_id bonds) at 2. done.
    + intros t' i b _. done.
    + apply Hwidth. by eapply list_elem_of_lookup_2.
Qed.

Lemma fill_bgraph_Ok (bound : nat) (all_bonds : list (Z * Z)) (in_bonds : list (list nat))
    (width : nat) :
  tables_inv bound all_bonds in_bonds ->
  (forall bonds, bonds ∈ in_bonds -> (length bonds <= width)%nat) ->
  fill_bgraph in_bonds all_bonds (length all_bonds)
    (replicate (length all_bonds) (replicate width 0%nat))
  = Ok (replicate width 0%nat
        :: (bgraph_row all_bonds width <$> seq 1 (length all_bonds - 1))).
Proof.
  intros (Hlen & (rest & Hab & Hrange) & Hin) Hwidth. unfold fill_bgraph.
  pose proof (fill_rows_Ok
    (fun bgraph b1 =>
       '(x, y) ← of_option IndexError (all_bonds !! b1);
       bonds ← py_getitem in_bonds x;
       foldM (fun bgraph '(i, b2) =>
                '(src, _) ← of_option IndexError (all_bonds !! b2);
                if decide (src ≠ y) then tensor_set2 bgraph b1 i b2
                else Ok bgraph)
             (enumerate bonds) bgraph)
    (bgraph_row all_bonds width)
    (replicate width 0%nat) (length all_bonds - 1) [replicate width 0%nat]) as Hfill.
  assert (length all_bonds = S (length all_bonds - 1)) as Htb by (rewrite Hab; simpl; lia).
  rewrite Htb at 2. cbn [replicate]. simpl in Hfill. apply Hfill.
  intros t b1 Hb1 Ht.
  destruct (lookup_lt_is_Some_2 all_bonds b1) as [[x y] Hxy]; [lia|].
  unfold bgraph_row. rewrite Hxy. cbn [of_option mbind result_bind].
  assert (0 <= x < Z.of_nat bound) as Hx.
  { rewrite Hab in Hxy. destruct b1 as [|b1]; [lia|]. simpl in Hxy.
    rewrite Forall_forall in Hrange. apply list_elem_of_lookup_2, Hrange in Hxy.
    simpl in Hxy. lia. }
  unfold py_getitem. rewrite Hlen, py_subscript_in_range by done.
  cbn [mbind result_bind]. rewrite Hin by lia. rewrite Z2Nat.id by lia.
  cbn [of_option].
  apply (fill_row_Ok (fun b2 => bool_decide (source_of all_bonds b2 ≠ Some y))); [|done|].
  - intros t' i b2 Hb2. apply elem_of_incoming in Hb2 as (_ & x0 & Hb2).
    unfold source_of. rewrite Hb2. cbn [of_option mbind result_bind fmap option_fmap option_map].
    destruct (decide (x0 ≠ y)) as [Hne|Heq].
    + rewrite bool_decide_true; [done|]. intros [= ?]. done.
    + rewrite bool_decide_false; [done|]. intros Hne. apply Heq. intros ->. done.
  - apply Hwidth. apply list_elem_of_lookup. exists (Z.to_nat x).
    rewrite Hin by lia. by rewrite Z2Nat.id by lia.
Qed.

Section BuildGraphFacts.
Context `{Scalar} `{!Toolkit}.

(** What [build_graph] returns when it returns. *)
Lemma build_graph_Ok (L : Locals) (g : Graph) :
  locals_inv L -> build_graph L = Ok g ->
  let width := max_list (length <$> in_bonds L) in
  g_fatoms g = fatoms L /\ g_fbonds g = fbonds L /\ g_scope g = scope L
  /\ g_agraph g = (pad width <$> in_bonds L)
  /\ g_bgraph g = replicate width 0%nat
                  :: (bgraph_row (all_bonds L) width <$> seq 1 (length (all_bonds L) - 1))
  /\ (0 < total_atoms L)%nat.
Proof.
  intros (Hfa & Hfb & Hinv) E. cbv zeta.
  pose proof Hinv as (Hlen & _ & _).
  unfold build_graph in E. cbv zeta in E.
  apply result_bind_Ok in E as (width & Emax & E).
  assert (width = max_list (length <$> in_bonds L) /\ in_bonds L ≠ []) as [-> Hne].
  { unfold py_max in Emax. destruct (in_bonds L); [discriminate|].
    simpl in Emax. by injection Emax as <-. }
  apply result_bind_Ok in E as (fa & Efa & E).
  apply result_bind_Ok in E as (fb & Efb & E).
  apply torch_stack_Ok in Efa as [-> _]. apply torch_stack_Ok in Efb as [-> _].
  assert (forall bonds, bonds ∈ in_bonds L ->
            (length bonds <= max_list (length <$> in_bonds L))%nat) as Hwidth.
  { intros bonds Hb. apply max_list_elem_of_le. apply list_elem_of_fmap. eauto. }
  rewrite <- Hlen in E. rewrite fill_agraph_Ok in E by done.
  cbn [mbind result_bind] in E.
  rewrite (fill_bgraph_Ok _ _ _ _ Hinv Hwidth) in E.
  cbn [mbind result_bind] in E. injection E as <-. simpl.
  repeat split; try done. rewrite <- Hlen. destruct (in_bonds L); [done|simpl; lia].
Qed.

End BuildGraphFacts.

Lemma in_bonds_incoming (bound : nat) (all_bonds : list (Z * Z)) (in_bonds : list (list nat)) :
  tables_inv bound all_bonds in_bonds ->
  in_bonds = (fun a => incoming all_bonds (Z.of_nat a)) <$> seq 0 bound.
Proof.
  intros (Hlen & _ & Hin). apply list_eq. intros i. rewrite list_lookup_fmap.
  destruct (decide (i < bound)%nat) as [Hlt|Hge].
  - rewrite lookup_seq_lt by done. simpl. by apply Hin.
  - rewrite lookup_seq_ge by lia. apply lookup_ge_None_2. lia.
Qed.

Lemma filter_replicate_zero (k : nat) :
  filter (fun b : nat => b ≠ 0%nat) (replicate k 0%nat) = [].
Proof. induction k as [|k IH]; [done|]. simpl. by rewrite filter_cons_False by (intros ?; done). Qed.

(** The entries of a [bgraph] row that are not padding are the selected
    bonds, in order. *)
Lemma filter_pad_selected (P : nat -> Prop) `{!forall b, Decision (P b)} (width : nat)
    (bonds : list nat) :
  (forall b, b ∈ bonds -> b ≠ 0%nat) ->
  filter (fun b : nat => b ≠ 0%nat)
         (pad width ((fun b => if bool_decide (P b) then b else 0%nat) <$> bonds))
  = filter P bonds.
Proof.
  intros Hpos. unfold pad. rewrite filter_app, filter_replicate_zero, app_nil_r.
  induction bonds as [|b bonds IH]; [done|].
  rewrite fmap_cons. case_bool_decide as Hb.
  - rewrite filter_cons_True by (apply Hpos; left). rewrite filter_cons_True by done.
    f_equal. apply IH. intros b' Hb'. apply Hpos. by right.
  - rewrite filter_cons_False by (intros ?; done). rewrite filter_cons_False by done.
    apply IH. intros b' Hb'. apply Hpos. by right.
Qed.

(** ** The batcher as a whole *)

Section Mol2GraphFacts.
Context `{Scalar} `{!Toolkit}.

Lemma cache_wf_empty (calls : list (string * ToolkitCall)) :
  cache_wf {| SMILES_TO_FEATURES := ∅; toolkit_calls := calls |}.
Proof. intros s mf Hs. simpl in Hs. by rewrite lookup_empty in Hs. Qed.

Lemma initial_locals_inv (three_d virtual_edges : bool) :
  locals_inv (initial_locals three_d virtual_edges).
Proof.
  split; [done|]. split; [done|]. split; [done|]. split.
  - exists []. split; [done|]. apply Forall_nil_2.
  - intros a Ha. simpl in Ha. lia.
Qed.

Lemma mol2graph_unfold (mol_batch : list string) (addHs three_d virtual_edges : bool)
    (w : World) :
  mol2graph mol_batch addHs three_d virtual_edges w
  = match batch_loop mol_batch addHs three_d virtual_edges w with
    | (w', Ok L) => (w', build_graph L)
    | (w', Raise e) => (w', Raise e)
    end.
Proof.
  unfold mol2graph. rewrite M_bind_unfold.
  destruct (batch_loop _ _ _ _ _) as [w' [L|e]]; done.
Qed.

Lemma mol2graph_Ok (mol_batch : list string) (addHs three_d virtual_edges : bool)
    (w w' : World) (g : Graph) :
  mol2graph mol_batch addHs three_d virtual_edges w = (w', Ok g) ->
  exists L, batch_loop mol_batch addHs three_d virtual_edges w = (w', Ok L)
            /\ build_graph L = Ok g.
Proof.
  rewrite mol2graph_unfold.
  destruct (batch_loop _ _ _ _ _) as [w1 [L|e]]; [|discriminate].
  intros [= <- E]. eauto.
Qed.

(** Every call of [mol2graph], returning or raising, leaves the dictionary
    well formed: [cache_wf] holds throughout a process that starts with the
    empty dictionary. *)
Lemma mol2graph_keeps_cache_wf (mol_batch : list string) (addHs three_d virtual_edges : bool)
    (w w' : World) (r : result Graph) :
  cache_wf w ->
  mol2graph mol_batch addHs three_d virtual_edges w = (w', r) ->
  cache_wf w'.
Proof.
  intros Hwf. rewrite mol2graph_unfold, batch_loop_unfold.
  destruct (foldM (batch_body addHs three_d virtual_edges) mol_batch
              (initial_locals three_d virtual_edges) w) as [w1 [L|e]] eqn:Eloop;
    intros [= <- _];
    by pose proof (batch_fold_wf _ _ _ _ _ _ _ _ Hwf (initial_locals_inv _ _) Eloop) as [? _].
Qed.

(** C3.  For every batch accepted by [mol2graph]: row [i] of [agraph] holds
    the global indices of the in-degree(i) directed bonds whose destination
    is atom [i], then zeros up to the batch-wide maximum in-degree; and for
    every directed bond [b1 = (x -> y)] of global index at least 1, row
    [b1] of [bgraph] has that same width and its entries other than the
    padding index 0 are exactly the bonds arriving at [x] whose source is
    not [y]. *)
Theorem mol2graph_index_tables (mol_batch : list string) (addHs three_d virtual_edges : bool)
    (w w' : World) (g : Graph) :
  cache_wf w ->
  mol2graph mol_batch addHs three_d virtual_edges w = (w', Ok g) ->
  exists L,
    batch_loop mol_batch addHs three_d virtual_edges w = (w', Ok L)
    /\ let in_degree := fun i : nat => length (incoming (all_bonds L) (Z.of_nat i)) in
       let width := max_list (in_degree <$> seq 0 (total_atoms L)) in
       length (g_agraph g) = total_atoms L
       /\ length (g_bgraph g) = length (all_bonds L)
       /\ (forall i, (i < total_atoms L)%nat ->
                     g_agraph g !! i
                     = Some (incoming (all_bonds L) (Z.of_nat i)
                             ++ replicate (width - in_degree i) 0%nat))
       /\ (forall b1 x y, (1 <= b1)%nat -> all_bonds L !! b1 = Some (x, y) ->
             exists row,
               g_bgraph g !! b1 = Some row
               /\ length row = width
               /\ filter (fun b : nat => b ≠ 0%nat) row
                  = filter (fun b2 => source_of (all_bonds L) b2 ≠ Some y)
                           (incoming (all_bonds L) x)).
Proof.
  intros Hwf E. apply mol2graph_Ok in E as (L & Eloop & Ebuild).
  exists L. split; [done|].
  rewrite batch_loop_unfold in Eloop.
  apply batch_fold_wf in Eloop as [_ Hinv]; [|done|apply initial_locals_inv].
  destruct (build_graph_Ok L g Hinv Ebuild) as (_ & _ & _ & Hag & Hbg & Hpos).
  destruct Hinv as (_ & _ & Hinv). pose proof Hinv as (Hlen & (rest & Hab & Hrange) & Hin).
  pose proof (in_bonds_incoming _ _ _ Hinv) as Hib.
  assert (length <$> in_bonds L
          = (fun i : nat => length (incoming (all_bonds L) (Z.of_nat i)))
              <$> seq 0 (total_atoms L)) as Hwidth.
  { rewrite Hib at 1. by rewrite <- list_fmap_compose. }
  cbv zeta. rewrite <- Hwidth.
  split; [by rewrite Hag, length_fmap|].
  split.
  { rewrite Hbg. simpl. rewrite length_fmap, length_seq. rewrite Hab. simpl. lia. }
  split.
  - intros i Hi. rewrite Hag, list_lookup_fmap, Hin by done. done.
  - intros b1 x y Hb1 Hxy.
    pose proof (lookup_lt_Some _ _ _ Hxy) as Hlt.
    destruct b1 as [|b]; [lia|].
    assert (0 <= x < Z.of_nat (total_atoms L)) as Hx.
    { rewrite Hab in Hxy. simpl in Hxy. rewrite Forall_forall in Hrange.
      apply list_elem_of_lookup_2, Hrange in Hxy. simpl in Hxy. lia. }
    exists (bgraph_row (all_bonds L) (max_list (length <$> in_bonds L)) (S b)).
    split.
    { rewrite Hbg. simpl. rewrite list_lookup_fmap, lookup_seq_lt by lia. done. }
    unfold bgraph_row. rewrite Hxy. split.
    + apply pad_length. rewrite length_fmap. apply max_list_elem_of_le.
      apply list_elem_of_fmap. exists (incoming (all_bonds L) x). split; [done|].
      apply list_elem_of_lookup. exists (Z.to_nat x).
      rewrite Hin by lia. by rewrite Z2Nat.id by lia.
    + apply (filter_pad_selected (fun b2 => source_of (all_bonds L) b2 ≠ Some y)).
      intros b2 Hb2. apply elem_of_incoming in Hb2 as [Hge _]. lia.
Qed.

(** C10.  On the empty batch [mol2graph] raises: the maximum of line 216 is
    taken over no incoming-bond list at all.  It returns no graph, and the
    world is left as it was. *)
Theorem mol2graph_empty_batch (addHs three_d virtual_edges : bool) (w : World) :
  mol2graph [] addHs three_d virtual_edges w = (w, Raise ValueError_max_empty).
Proof. reflexivity. Qed.

(** C8.  For every batch that contains a notation the toolkit does not
    parse, the call of [mol2graph] raises and so returns no graph, partial
    or not.  The exception is the one the toolkit raised on the unparsed
    molecule, unless an earlier molecule of a [three_d] call had no
    conformer and raised first. *)
Theorem mol2graph_malformed_notation (mol_batch : list string)
    (addHs three_d virtual_edges : bool) (w : World) (smiles : string) :
  cache_wf w ->
  smiles ∈ mol_batch ->
  MolFromSmiles smiles = None ->
  exists w' e,
    mol2graph mol_batch addHs three_d virtual_edges w = (w', Raise e)
    /\ (e = ArgumentError \/ (three_d = true /\ e = ValueError_bad_conformer)).
Proof.
  intros Hwf Hin Hnone. rewrite mol2graph_unfold, batch_loop_unfold.
  destruct (foldM (batch_body addHs three_d virtual_edges) mol_batch
              (initial_locals three_d virtual_edges) w) as [w' [L|e]] eqn:Eloop.
  - exfalso.
    pose proof (batch_fold_wf _ _ _ _ _ _ _ _ Hwf (initial_locals_inv _ _) Eloop) as [Hwf' _].
    apply batch_fold_tuples in Eloop as (ts & Hts & _).
    apply list_elem_of_lookup in Hin as [i Hi].
    destruct (Forall2_lookup_l _ _ _ _ _ Hts Hi) as (t & _ & _ & Hcached).
    apply Hwf' in Hcached as [_ [mol Hmol]]. congruence.
  - exists w', e. split; [done|].
    by pose proof (batch_fold_wf _ _ _ _ _ _ _ _ Hwf (initial_locals_inv _ _) Eloop) as [_ He].
Qed.

End Mol2GraphFacts.

(** ** Batches and the dictionary *)

Section BatchFacts.
Context `{Scalar} `{!Toolkit}.

Lemma fold_add_molecule_middle (ts1 ts2 : list MolFeatures) (t : MolFeatures) (L0 L : Locals) :
  foldM add_molecule (ts1 ++ t :: ts2) L0 = Ok L ->
  exists L1 L2, foldM add_molecule ts1 L0 = Ok L1
                /\ add_molecule L1 t = Ok L2
                /\ foldM add_molecule ts2 L2 = Ok L.
Proof.
  rewrite foldM_result_app. intros E.
  apply result_bind_Ok in E as (L1 & E1 & E). cbn [foldM] in E.
  apply result_bind_Ok in E as (L2 & E2 & E). eauto.
Qed.

Lemma fold_add_molecule_grows (ts : list MolFeatures) :
  forall (L0 L : Locals),
    Forall features_wf ts -> locals_inv L0 ->
    foldM add_molecule ts L0 = Ok L ->
    locals_inv L
    /\ exists fa fb sc, fatoms L = fatoms L0 ++ fa /\ fbonds L = fbonds L0 ++ fb
                        /\ scope L = scope L0 ++ sc /\ length sc = length ts.
Proof.
  induction ts as [|t ts IH]; intros L0 L Hwf Hinv E.
  - injection E as <-. split; [done|]. exists [], [], []. by rewrite !app_nil_r.
  - apply Forall_cons in Hwf as [Ht Hwf]. cbn [foldM] in E.
    destruct (add_molecule_Ok L0 t Hinv Ht) as (L1 & E1 & Hinv1 & Hfa & Hfb & _ & Hsc & _).
    rewrite E1 in E. cbn [mbind result_bind] in E.
    destruct (IH _ _ Hwf Hinv1 E) as (HinvL & fa & fb & sc & Efa & Efb & Esc & Hlen).
    split; [done|].
    exists (mol_fatoms t ++ fa), (mol_fbonds t ++ fb), ((total_atoms L0, n_atoms t) :: sc).
    rewrite Efa, Efb, Esc, Hfa, Hfb, Hsc, <- !app_assoc. simpl.
    repeat split; try done. by rewrite Hlen.
Qed.


Lemma tuple_for_agree (addHs three_d virtual_edges : bool) (w w' : World) (s : string)
    (t t' : MolFeatures) :
  tuple_for addHs three_d virtual_edges w s t ->
  tuple_for addHs three_d virtual_edges w' s t' ->
  SMILES_TO_FEATURES w' !! s = SMILES_TO_FEATURES w !! s ->
  t' = t.
Proof.
  intros [Hc|[Hc Hcomp]] [Hc'|[Hc' Hcomp']] Hagree; congruence.
Qed.

Lemma tuple_for_cached (addHs three_d virtual_edges : bool) (w : World) (s : string)
    (t t' : MolFeatures) :
  tuple_for addHs three_d virtual_edges w s t' ->
  SMILES_TO_FEATURES w !! s = Some t ->
  t' = t.
Proof. intros [Hc|[Hc _]] Hs; congruence. Qed.

(** C2.  The feature rows of a notation do not depend on the rest of the
    batch.  Take a batch with [smiles] at any position and the batch of
    [smiles] alone, under the same flags, in a process where the two calls
    see the same dictionary entry for [smiles] (they start from dictionaries
    that agree on it, or one call comes after the other).  Then the scope
    entry of the notation gives its atom offset [st] and atom count [n], and
    the [n] rows of [fatoms] from [st] on are the [fatoms] of the batch of
    one; the bond rows of the notation, at a running offset in [fbonds], are
    the bond rows of the batch of one after its padding row. *)
Theorem mol2graph_batch_independent (pre post : list string) (smiles : string)
    (addHs three_d virtual_edges : bool) (w w1 w' w1' : World) (g g1 : Graph) :
  cache_wf w ->
  mol2graph (pre ++ smiles :: post) addHs three_d virtual_edges w = (w1, Ok g) ->
  mol2graph [smiles] addHs three_d virtual_edges w' = (w1', Ok g1) ->
  (SMILES_TO_FEATURES w' !! smiles = SMILES_TO_FEATURES w !! smiles
   \/ SMILES_TO_FEATURES w' !! smiles = SMILES_TO_FEATURES w1 !! smiles
   \/ SMILES_TO_FEATURES w !! smiles = SMILES_TO_FEATURES w1' !! smiles) ->
  exists st n boff,
    g_scope g !! length pre = Some (st, n)
    /\ g_scope g1 = [(0%nat, n)]
    /\ length (g_fatoms g1) = n
    /\ take n (drop st (g_fatoms g)) = g_fatoms g1
    /\ take (length (g_fbonds g1) - 1) (drop (S boff) (g_fbonds g)) = drop 1 (g_fbonds g1)
    /\ (S boff + (length (g_fbonds g1) - 1) <= length (g_fbonds g))%nat.
Proof.
  intros Hwf E E1 Hagree.
  apply mol2graph_Ok in E as (L & Eloop & Ebuild).
  apply mol2graph_Ok in E1 as (L' & Eloop1 & Ebuild1).
  rewrite batch_loop_unfold in Eloop, Eloop1.
  pose proof (batch_fold_wf _ _ _ _ _ _ _ _ Hwf (initial_locals_inv _ _) Eloop) as [_ HinvL].
  apply batch_fold_tuples in Eloop as (ts & Hts & Hfold).
  apply batch_fold_tuples in Eloop1 as (ts' & Hts' & Hfold').
  (* the tuples of the two calls *)
  apply Forall2_app_inv_l in Hts as (ts1 & ts23 & Hts1 & Hts23 & ->).
  apply Forall2_cons_inv_l in Hts23 as (t & ts2 & [Ht Hcached] & Hts2 & ->).
  apply Forall2_cons_inv_l in Hts' as (t' & ts0 & [Ht' Hcached'] & Hts0 & ->).
  apply Forall2_nil_inv_l in Hts0 as ->.
  assert (t' = t) as ->.
  { destruct Hagree as [Ha|[Ha|Ha]].
    - by eapply tuple_for_agree.
    - eapply tuple_for_cached; [exact Ht'|]. by rewrite Ha.
    - symmetry. eapply tuple_for_cached; [exact Ht|]. by rewrite Ha. }
  assert (Forall features_wf ts1) as Hwf1.
  { apply Forall_forall. intros t1 Hin. apply list_elem_of_lookup in Hin as [i Hi].
    destruct (Forall2_lookup_r _ _ _ _ _ Hts1 Hi) as (s1 & _ & Hfor & _).
    by apply (tuple_for_wf _ _ _ _ _ _ Hwf Hfor). }
  pose proof (tuple_for_wf _ _ _ _ _ _ Hwf Ht) as [Hwft _].
  assert (Forall features_wf ts2) as Hwf2.
  { apply Forall_forall. intros t2 Hin. apply list_elem_of_lookup in Hin as [i Hi].
    destruct (Forall2_lookup_r _ _ _ _ _ Hts2 Hi) as (s2 & _ & Hfor & _).
    by apply (tuple_for_wf _ _ _ _ _ _ Hwf Hfor). }
  (* the batch *)
  apply fold_add_molecule_middle in Hfold as (L1 & L2 & Ef1 & Ef2 & Ef3).
  destruct (fold_add_molecule_grows _ _ _ Hwf1 (initial_locals_inv _ _) Ef1)
    as (Hinv1 & fa1 & fb1 & sc1 & Efa1 & Efb1 & Esc1 & Hlen1).
  destruct (add_molecule_Ok L1 t Hinv1 Hwft)
    as (L2' & Ef2' & Hinv2 & Efa2 & Efb2 & _ & Esc2 & _).
  rewrite Ef2 in Ef2'. injection Ef2' as <-.
  destruct (fold_add_molecule_grows _ _ _ Hwf2 Hinv2 Ef3)
    as (_ & fa3 & fb3 & sc3 & Efa3 & Efb3 & Esc3 & _).
  (* the batch of one *)
  cbn [foldM] in Hfold'. apply result_bind_Ok in Hfold' as (L0' & Eadd & Eret).
  injection Eret as ->.
  destruct (add_molecule_Ok _ t (initial_locals_inv three_d virtual_edges) Hwft)
    as (L'' & Eadd' & _ & Efa' & Efb' & _ & Esc' & _).
  rewrite Eadd in Eadd'. injection Eadd' as <-.
  destruct (build_graph_Ok L g HinvL Ebuild) as (Hgfa & Hgfb & Hgsc & _).
  assert (locals_inv L') as HinvL'.
  { destruct (add_molecule_Ok _ t (initial_locals_inv three_d virtual_edges) Hwft)
      as (L'' & Eadd' & Hinv' & _). rewrite Eadd in Eadd'. by injection Eadd' as <-. }
  destruct (build_graph_Ok L' g1 HinvL' Ebuild1) as (Hgfa1 & Hgfb1 & Hgsc1 & _).
  destruct Hwft as (Hnfa & Hnfb & _).
  destruct Hinv1 as (Hlfa1 & Hlfb1 & _ & (rest1 & Hab1 & _) & _).
  assert (exists boff, length (fbonds L1) = S boff) as [boff Hboff].
  { rewrite Hlfb1, Hab1. simpl. eauto. }
  exists (total_atoms L1), (n_atoms t), boff.
  rewrite Hgfa, Hgfb, Hgsc, Hgfa1, Hgfb1, Hgsc1.
  rewrite Efa', Efb', Esc'. simpl.
  rewrite Efa3, Efb3, Esc3, Efa2, Efb2, Esc2.
  split.
  { rewrite Esc1. simpl. rewrite <- app_assoc. simpl.
    rewrite (Forall2_length _ _ _ Hts1), <- Hlen1. apply list_lookup_middle. done. }
  split; [done|]. split; [done|].
  split.
  { rewrite <- Hlfa1. rewrite <- app_assoc, drop_app_length.
    rewrite <- Hnfa. by rewrite take_app_length. }
  rewrite Nat.sub_0_r, drop_0. rewrite <- Hboff.
  split.
  { rewrite <- app_assoc, drop_app_length. by rewrite take_app_length. }
  rewrite !length_app. lia.
Qed.

(** C1.  The dictionary is keyed by the notation alone.  When a call under
    flags [(addHs1, three_d1, virtual_edges1)] returned for a batch
    containing [smiles], and [smiles] was not a key before, the tuple
    computed under these first flags is memoised.  From then on, in every
    world where it is still memoised (the dictionary never drops or
    replaces an entry), a call under any flags
    [(addHs2, three_d2, virtual_edges2)] takes that tuple for [smiles]
    instead of computing one: [mol_features] returns it without touching the
    world, and the loop over a batch containing [smiles] assembles it at the
    position of [smiles] and makes no toolkit call for [smiles]. *)
Theorem cache_key_is_notation_alone
    (addHs1 three_d1 virtual_edges1 addHs2 three_d2 virtual_edges2 : bool)
    (batch1 : list string) (smiles : string) (w0 w1 : World) (g1 : Graph) :
  smiles ∈ batch1 ->
  SMILES_TO_FEATURES w0 !! smiles = None ->
  mol2graph batch1 addHs1 three_d1 virtual_edges1 w0 = (w1, Ok g1) ->
  exists t,
    compute_features addHs1 three_d1 virtual_edges1 smiles = Ok t
    /\ SMILES_TO_FEATURES w1 !! smiles = Some t
    /\ forall w2, SMILES_TO_FEATURES w2 !! smiles = Some t ->
         mol_features addHs2 three_d2 virtual_edges2 smiles w2 = (w2, Ok t)
         /\ (forall batch w3 r,
               mol2graph batch addHs2 three_d2 virtual_edges2 w2 = (w3, r) ->
               SMILES_TO_FEATURES w3 !! smiles = Some t)
         /\ (forall pre post w3 L,
               batch_loop (pre ++ smiles :: post) addHs2 three_d2 virtual_edges2 w2
               = (w3, Ok L) ->
               (exists ts, length ts = length (pre ++ smiles :: post)
                           /\ ts !! length pre = Some t
                           /\ foldM add_molecule ts (initial_locals three_d2 virtual_edges2)
                              = Ok L)
               /\ exists tr, toolkit_calls w3 = toolkit_calls w2 ++ tr
                             /\ Forall (fun c => c.1 ≠ smiles) tr).
Proof.
  intros Hin Hmiss E.
  apply mol2graph_Ok in E as (L1 & Eloop & _). rewrite batch_loop_unfold in Eloop.
  apply batch_fold_tuples in Eloop as (ts1 & Hts1 & _).
  apply list_elem_of_lookup in Hin as [i Hi].
  destruct (Forall2_lookup_l _ _ _ _ _ Hts1 Hi) as (t & _ & Hfor & Hcached).
  exists t. split.
  { destruct Hfor as [Hc|[_ Hcomp]]; [congruence|done]. }
  split; [done|].
  intros w2 Hw2. split; [by apply mol_features_hit|]. split.
  - intros batch w3 r E2. rewrite mol2graph_unfold, batch_loop_unfold in E2.
    destruct (foldM (batch_body addHs2 three_d2 virtual_edges2) batch
                (initial_locals three_d2 virtual_edges2) w2) as [w3' [L|e]] eqn:Eloop2.
    + apply batch_fold_world in Eloop2 as [Hmono _].
      injection E2 as <- _. by apply Hmono.
    + apply batch_fold_world in Eloop2 as [Hmono _].
      injection E2 as <- _. by apply Hmono.
  - intros pre post w3 L Eloop2. rewrite batch_loop_unfold in Eloop2.
    pose proof (batch_fold_world _ _ _ _ _ _ _ _ Eloop2) as (_ & tr & Etr & Htr).
    apply batch_fold_tuples in Eloop2 as (ts & Hts & Hfold).
    split.
    + exists ts. split; [symmetry; by eapply Forall2_length|]. split; [|done].
      destruct (Forall2_lookup_l _ _ _ _ _ Hts (list_lookup_middle pre post smiles _ eq_refl))
        as (t2 & Ht2 & Hfor2 & _).
      rewrite Ht2. f_equal. by eapply tuple_for_cached.
    + exists tr. split; [done|]. eapply Forall_impl; [exact Htr|].
      intros c [_ Hc] Heq. rewrite Heq in Hc. congruence.
Qed.

(** C9 as amended.  A cache miss that gets as far as line 167 calls
    [GetDistanceMatrix], once and as the last toolkit call of the
    featurisation, whether [virtual_edges] is set or not; when
    [virtual_edges] is false the bond loops do not read the matrix. *)
Theorem cache_miss_calls_GetDistanceMatrix (addHs three_d virtual_edges : bool)
    (smiles : string) (w w' : World) (mf : MolFeatures) :
  SMILES_TO_FEATURES w !! smiles = None ->
  mol_features addHs three_d virtual_edges smiles w = (w', Ok mf) ->
  (exists earlier,
     toolkit_calls w' = toolkit_calls w ++ earlier ++ [(smiles, Call_GetDistanceMatrix)]
     /\ (smiles, Call_GetDistanceMatrix) ∉ earlier)
  /\ (forall mol mol_fatoms distances_3d (d d' : nat -> nat -> Z) n,
        bond_loops three_d false mol mol_fatoms distances_3d d n
        = bond_loops three_d false mol mol_fatoms distances_3d d' n).
Proof.
  intros Hmiss E. split; [|intros; apply bond_loops_ignores_distances_path].
  apply mol_features_step in E as (_ & (tr & Etr & _ & Hcalls) & _).
  rewrite Etr, (Hcalls Hmiss mf eq_refl).
  destruct addHs, three_d; cbn.
  - eexists [_; _; _; _; _]. split; [reflexivity|].
    rewrite !not_elem_of_cons. repeat split; try (intros [= ?]; done). apply not_elem_of_nil.
  - eexists [_; _]. split; [reflexivity|].
    rewrite !not_elem_of_cons. repeat split; try (intros [= ?]; done). apply not_elem_of_nil.
  - eexists [_; _; _; _; _]. split; [reflexivity|].
    rewrite !not_elem_of_cons. repeat split; try (intros [= ?]; done). apply not_elem_of_nil.
  - eexists [_]. split; [reflexivity|].
    rewrite !not_elem_of_cons. repeat split; try (intros [= ?]; done). apply not_elem_of_nil.
Qed.

End BatchFacts.

(** ** The sentinel row in the network *)

Lemma result_mapM_replicate {A B} (f : A -> result B) (a : A) (b : B) (n : nat) :
  f a = Ok b -> result_mapM f (replicate n a) = Ok (replicate n b).
Proof.
  intros E. induction n as [|n IH]; [done|]. simpl. rewrite E, IH. done.
Qed.

Lemma result_mapM_Forall {A B} (P : A -> Prop) (Q : B -> Prop) (f : A -> result B)
    (l : list A) (bs : list B) :
  (forall a b, P a -> f a = Ok b -> Q b) ->
  Forall P l -> result_mapM f l = Ok bs -> Forall Q bs.
Proof.
  intros Hf. revert bs. induction l as [|a l IH]; simpl; intros bs HP E.
  - injection E as <-. constructor.
  - apply Forall_cons in HP as [Ha HP].
    apply result_bind_Ok in E as (b & Eb & E).
    apply result_bind_Ok in E as (bs' & Ebs & E). injection E as <-.
    constructor; [by eapply Hf | by apply IH].
Qed.

Section SentinelFacts.
Context `{Scalar} `{!ScalarLaws}.

Abbreviation zeros n := (replicate n (of_Z 0)).

Lemma sadd_0_0 : sadd (of_Z 0) (of_Z 0) = of_Z 0.
Proof. apply sadd_0_r. Qed.

Lemma zip_with_smul_zeros (n : nat) (ys : list scalar) :
  length ys = n -> zip_with smul (zeros n) ys = zeros n.
Proof.
  revert ys. induction n as [|n IH]; intros [|y ys] Hlen; simpl in *; try done.
  rewrite smul_0_l, IH by lia. done.
Qed.

Lemma zip_with_sadd_zeros (n : nat) : zip_with sadd (zeros n) (zeros n) = zeros n.
Proof. induction n as [|n IH]; [done|]. simpl. by rewrite sadd_0_0, IH. Qed.

Lemma foldr_sadd_zeros (n : nat) : foldr sadd (of_Z 0) (zeros n) = of_Z 0.
Proof. induction n as [|n IH]; [done|]. simpl. by rewrite IH, sadd_0_0. Qed.

Lemma vadd_zeros (n k : nat) (x : list scalar) :
  vadd (zeros n) (zeros k) = Ok x -> x = zeros n.
Proof.
  unfold vadd. rewrite !length_replicate. case_decide as Hlen; [|discriminate].
  intros [= <-]. subst k. apply zip_with_sadd_zeros.
Qed.

Lemma vmul_zeros (n : nat) (y x : list scalar) :
  vmul (zeros n) y = Ok x -> x = zeros n.
Proof.
  unfold vmul. rewrite length_replicate. case_decide as Hlen; [|discriminate].
  intros [= <-]. by apply zip_with_smul_zeros.
Qed.

Lemma dot_zeros (n : nat) (w : list scalar) (x : scalar) :
  dot (zeros n) w = Ok x -> x = of_Z 0.
Proof.
  unfold dot. rewrite length_replicate. case_decide as Hlen; [|discriminate].
  intros [= <-]. rewrite zip_with_smul_zeros by done. apply foldr_sadd_zeros.
Qed.

(** A layer without bias maps the zero vector to the zero vector. *)
Lemma linear_zeros (L : Linear) (n : nat) (y : list scalar) :
  bias L = None -> linear L (zeros n) = Ok y -> y = zeros (out_features L).
Proof.
  intros Hbias. unfold linear, out_features. rewrite Hbias. intros E.
  apply result_bind_Ok in E as (y' & E & [= <-]).
  pose proof (result_mapM_Ok_length _ _ _ E) as Hlen.
  assert (Forall (fun x => x = of_Z 0) y') as Hall.
  { eapply (result_mapM_Forall (fun _ => True)); [|apply Forall_true; done|exact E].
    intros w x _. apply dot_zeros. }
  rewrite <- Hlen. clear -Hall. induction Hall as [|x y' -> _ IH]; [done|].
  simpl. f_equal. exact IH.
Qed.

Lemma vsum_zeros (width : nat) (vs : list (list scalar)) (x : list scalar) :
  Forall (fun v => v = zeros width) vs -> vsum width vs = Ok x -> x = zeros width.
Proof.
  unfold vsum. intros Hvs. induction Hvs as [|v vs -> _ IH]; simpl.
  - by intros [= <-].
  - intros E. apply result_bind_Ok in E as (acc & Eacc & E).
    apply vadd_zeros in Eacc as ->. by apply IH.
Qed.

Lemma activate_zeros (m : MPN) (x : list (list scalar)) (i n : nat) :
  act_func m (of_Z 0) = of_Z 0 ->
  x !! i = Some (zeros n) -> activate m x !! i = Some (zeros n).
Proof.
  intros Hact Hx. unfold activate. rewrite list_lookup_fmap, Hx. simpl.
  by rewrite fmap_replicate, Hact.
Qed.

Lemma dropout_layer_zeros (m : MPN) (keep : nat -> nat -> bool) (x : list (list scalar))
    (i n : nat) :
  x !! i = Some (zeros n) -> dropout_layer m keep x !! i = Some (zeros n).
Proof.
  intros Hx. unfold dropout_layer. destruct (training m); [|done].
  rewrite list_lookup_imap, Hx. simpl. f_equal.
  apply list_eq. intros j. rewrite list_lookup_imap.
  destruct (decide (j < n)%nat) as [Hlt|Hge].
  - rewrite lookup_replicate_2 by done. simpl. destruct (keep i j); [|done].
    by rewrite smul_0_l.
  - rewrite lookup_ge_None_2 by (rewrite length_replicate; lia). done.
Qed.

Lemma Forall_zip_fst {A B} (P : A -> Prop) (l : list A) (k : list B) :
  Forall P l -> Forall (fun p => P p.1) (zip l k).
Proof.
  intros Hl. revert k. induction Hl as [|a l Ha _ IH]; intros [|b k]; simpl;
    constructor; [done|apply IH].
Qed.

Lemma message_attend_zeros (m : MPN) (width : nat) (vs b : list (list scalar)) :
  Forall (fun v => v = zeros width) vs ->
  message_attend m vs = Ok b ->
  Forall (fun v => v = zeros width) b.
Proof.
  intros Hvs E. unfold message_attend in E.
  apply result_bind_Ok in E as (scores & _ & E).
  pose proof (Forall_zip_fst (fun v => v = zeros width) vs (softmax scores) Hvs) as Hzip.
  eapply result_mapM_Forall; [|exact Hzip|exact E].
  intros [v wt] x Hv Ex. simpl in Hv. subst v. by apply vmul_zeros in Ex.
Qed.

(** A gather through index 0 yields row 0 of the source. *)
Lemma index_select_ND_sentinel (source : list (list scalar)) (index : list (list nat))
    (gathered : list (list (list scalar))) (z : list scalar) (r c : nat) (row : list nat) :
  source !! 0%nat = Some z ->
  index_select_ND source index = Ok gathered ->
  index !! r = Some row -> row !! c = Some 0%nat ->
  exists grow, gathered !! r = Some grow /\ grow !! c = Some z.
Proof.
  intros Hz E Hr Hc. unfold index_select_ND in E.
  destruct (result_mapM_Ok_lookup _ _ _ _ _ E Hr) as (grow & Hgrow & Erow).
  destruct (result_mapM_Ok_lookup _ _ _ _ _ Erow Hc) as (v & Hv & Ev).
  rewrite Hz in Ev. injection Ev as <-. eauto.
Qed.

Lemma index_select_ND_row_0 (source : list (list scalar)) (index : list (list nat))
    (gathered : list (list (list scalar))) (z : list scalar) (r width : nat) :
  source !! 0%nat = Some z ->
  index_select_ND source index = Ok gathered ->
  index !! r = Some (replicate width 0%nat) ->
  gathered !! r = Some (replicate width z).
Proof.
  intros Hz E Hr. unfold index_select_ND in E.
  destruct (result_mapM_Ok_lookup _ _ _ _ _ E Hr) as (grow & Hgrow & Erow).
  rewrite (result_mapM_replicate _ 0%nat z) in Erow by (by rewrite Hz).
  by injection Erow as <-.
Qed.

Lemma message_round_row_0 (m : MPN) (keep : nat -> nat -> bool) (bgraph : list (list nat))
    (binput message message' : list (list scalar)) (width : nat) :
  bias (W_h m) = None -> act_func m (of_Z 0) = of_Z 0 ->
  bgraph !! 0%nat = Some (replicate width 0%nat) ->
  binput !! 0%nat = Some (zeros (out_features (W_i m))) ->
  message !! 0%nat = Some (zeros (out_features (W_i m))) ->
  message_round m keep bgraph binput message = Ok message' ->
  message' !! 0%nat = Some (zeros (out_features (W_i m))).
Proof.
  intros Hbias Hact Hbg Hbin Hmsg E. unfold message_round in E.
  apply result_bind_Ok in E as (nei1 & E1 & E).
  apply result_bind_Ok in E as (nei2 & E2 & E).
  apply result_bind_Ok in E as (nei3 & E3 & E).
  apply result_bind_Ok in E as (nei4 & E4 & E).
  apply result_bind_Ok in E as (_ & _ & E).
  apply result_bind_Ok in E as (msg & E5 & E). injection E as <-.
  pose proof (index_select_ND_row_0 _ _ _ _ _ _ Hmsg E1 Hbg) as H1.
  assert (exists b2, nei2 !! 0%nat = Some b2
                     /\ Forall (fun v => v = zeros (out_features (W_i m))) b2)
    as (b2 & H2 & Hb2).
  { destruct (message_attention m).
    - destruct (result_mapM_Ok_lookup _ _ _ _ _ E2 H1) as (b2 & H2 & Eb2).
      exists b2. split; [done|]. eapply message_attend_zeros; [|exact Eb2].
      apply Forall_replicate. done.
    - injection E2 as <-. eexists. split; [done|]. by apply Forall_replicate. }
  destruct (result_mapM_Ok_lookup _ _ _ _ _ E3 H2) as (b3 & H3 & Eb3).
  apply (vsum_zeros _ _ _ Hb2) in Eb3. subst b3.
  destruct (result_mapM_Ok_lookup _ _ _ _ _ E4 H3) as (b4 & H4 & Eb4).
  apply (linear_zeros _ _ _ Hbias) in Eb4. subst b4.
  assert (zip binput nei4 !! 0%nat
          = Some (zeros (out_features (W_i m)), zeros (out_features (W_h m)))) as Hzip.
  { rewrite lookup_zip_with, Hbin, H4. done. }
  destruct (result_mapM_Ok_lookup _ _ _ _ _ E5 Hzip) as (b5 & H5 & Eb5).
  apply vadd_zeros in Eb5. subst b5.
  apply dropout_layer_zeros. by apply activate_zeros.
Qed.

Lemma message_rounds_row_0 (m : MPN) (rng : nat -> nat -> nat -> bool)
    (bgraph : list (list nat)) (binput : list (list scalar)) (width : nat) (rounds : nat) :
  forall (k : nat) (message message' : list (list scalar)),
    bias (W_h m) = None -> act_func m (of_Z 0) = of_Z 0 ->
    bgraph !! 0%nat = Some (replicate width 0%nat) ->
    binput !! 0%nat = Some (zeros (out_features (W_i m))) ->
    message !! 0%nat = Some (zeros (out_features (W_i m))) ->
    message_rounds m rng bgraph binput rounds k message = Ok message' ->
    message' !! 0%nat = Some (zeros (out_features (W_i m))).
Proof.
  induction rounds as [|rounds IH]; intros k message message' Hbias Hact Hbg Hbin Hmsg E.
  - simpl in E. by injection E as <-.
  - cbn [message_rounds] in E. apply result_bind_Ok in E as (msg1 & E1 & E).
    apply (IH (S k) msg1 message' Hbias Hact Hbg Hbin); [|exact E].
    exact (message_round_row_0 m (rng k) bgraph binput message msg1 width
             Hbias Hact Hbg Hbin Hmsg E1).
Qed.

Lemma initial_message_row_0 (m : MPN) (fbonds binput message : list (list scalar)) (n : nat) :
  bias (W_i m) = None -> act_func m (of_Z 0) = of_Z 0 ->
  fbonds !! 0%nat = Some (zeros n) ->
  initial_message m fbonds = Ok (binput, message) ->
  binput !! 0%nat = Some (zeros (out_features (W_i m)))
  /\ message !! 0%nat = Some (zeros (out_features (W_i m))).
Proof.
  intros Hbias Hact Hfb E. unfold initial_message in E.
  apply result_bind_Ok in E as (b & Eb & E). injection E as <- <-.
  destruct (result_mapM_Ok_lookup _ _ _ _ _ Eb Hfb) as (b0 & Hb0 & Eb0).
  apply (linear_zeros _ _ _ Hbias) in Eb0. subst b0.
  split; [done|]. by apply activate_zeros.
Qed.

End SentinelFacts.

(** ** The network on the graphs of the batcher *)

Section NetworkFacts.
Context `{Scalar} `{!Toolkit} `{!ScalarLaws}.

Abbreviation zeros n := (replicate n (of_Z 0)).

Lemma vadd_length (x y z : list scalar) : vadd x y = Ok z -> length z = length x.
Proof.
  unfold vadd. case_decide as Hlen; [|discriminate]. intros [= <-].
  rewrite length_zip_with. lia.
Qed.

Lemma foldM_vadd_length (vs : list (list scalar)) (acc x : list scalar) :
  foldM vadd vs acc = Ok x -> length x = length acc.
Proof.
  revert acc. induction vs as [|v vs IH]; intros acc E; simpl in E.
  - by injection E as <-.
  - apply result_bind_Ok in E as (acc' & E1 & E). apply IH in E.
    apply vadd_length in E1. lia.
Qed.

Lemma vadd_zeros_r (x : list scalar) : vadd x (zeros (length x)) = Ok x.
Proof.
  unfold vadd. rewrite length_replicate, decide_True by done. f_equal.
  induction x as [|a x IH]; [done|]. simpl. by rewrite sadd_0_r, IH.
Qed.

(** A zero vector among the summands does not change the sum. *)
Lemma vsum_skip_zeros (width : nat) (vs1 vs2 : list (list scalar)) :
  vsum width (vs1 ++ zeros width :: vs2) = vsum width (vs1 ++ vs2).
Proof.
  unfold vsum. rewrite !foldM_result_app.
  destruct (foldM vadd vs1 (zeros width)) as [acc|e] eqn:E; [|done].
  cbn [mbind result_bind foldM].
  apply foldM_vadd_length in E. rewrite length_replicate in E.
  rewrite <- E, vadd_zeros_r. done.
Qed.

Lemma mol2graph_sentinel_rows (mol_batch : list string) (addHs three_d virtual_edges : bool)
    (w w' : World) (g : Graph) :
  cache_wf w ->
  mol2graph mol_batch addHs three_d virtual_edges w = (w', Ok g) ->
  g_fbonds g !! 0%nat
  = Some (zeros (get_atom_fdim + get_bond_fdim three_d virtual_edges))
  /\ exists width, g_bgraph g !! 0%nat = Some (replicate width 0%nat).
Proof.
  intros Hwf E. apply mol2graph_Ok in E as (L & Eloop & Ebuild).
  rewrite batch_loop_unfold in Eloop.
  pose proof (batch_fold_wf _ _ _ _ _ _ _ _ Hwf (initial_locals_inv _ _) Eloop) as [_ HinvL].
  apply batch_fold_tuples in Eloop as (ts & Hts & Hfold).
  assert (Forall features_wf ts) as Hwfts.
  { apply Forall_forall. intros t Hin. apply list_elem_of_lookup in Hin as [i Hi].
    destruct (Forall2_lookup_r _ _ _ _ _ Hts Hi) as (s & _ & Hfor & _).
    by apply (tuple_for_wf _ _ _ _ _ _ Hwf Hfor). }
  destruct (fold_add_molecule_grows _ _ _ Hwfts (initial_locals_inv _ _) Hfold)
    as (_ & fa & fb & sc & _ & Efb & _).
  destruct (build_graph_Ok L g HinvL Ebuild) as (_ & Hgfb & _ & _ & Hgbg & _).
  split.
  - rewrite Hgfb, Efb. done.
  - eexists. rewrite Hgbg. done.
Qed.

(** C4.  Row 0 of [fbonds] is the all-zero padding row.  In [MPN.forward],
    when [W_i] and [W_h] have no bias and the activation maps 0 to 0, row 0
    of the message tensor is the zero vector after the initial projection
    ([rounds = 0]) and after any number of message passing rounds, with or
    without message attention and whatever the dropout draws.  So a gather
    through index 0 of an index table yields the zero vector, and a zero
    vector adds nothing to the sum over the gathered messages. *)
Theorem sentinel_row_inert (mol_batch : list string) (addHs three_d virtual_edges : bool)
    (w w' : World) (g : Graph) (m : MPN) (rng : nat -> nat -> nat -> bool) :
  cache_wf w ->
  mol2graph mol_batch addHs three_d virtual_edges w = (w', Ok g) ->
  bias (W_i m) = None -> bias (W_h m) = None ->
  act_func m (of_Z 0) = of_Z 0 ->
  g_fbonds g !! 0%nat = Some (zeros (get_atom_fdim + get_bond_fdim three_d virtual_edges))
  /\ (forall binput message0 rounds k message,
        initial_message m (g_fbonds g) = Ok (binput, message0) ->
        message_rounds m rng (g_bgraph g) binput rounds k message0 = Ok message ->
        message !! 0%nat = Some (zeros (out_features (W_i m))))
  /\ (forall (message : list (list scalar)) index gathered r c row,
        message !! 0%nat = Some (zeros (out_features (W_i m))) ->
        index_select_ND message index = Ok gathered ->
        index !! r = Some row -> row !! c = Some 0%nat ->
        exists grow, gathered !! r = Some grow
                     /\ grow !! c = Some (zeros (out_features (W_i m))))
  /\ (forall vs1 vs2,
        vsum (out_features (W_i m)) (vs1 ++ zeros (out_features (W_i m)) :: vs2)
        = vsum (out_features (W_i m)) (vs1 ++ vs2)).
Proof.
  intros Hwf E Hbi Hbh Hact.
  destruct (mol2graph_sentinel_rows _ _ _ _ _ _ _ Hwf E) as (Hfb & width & Hbg).
  split; [done|]. split; [|split].
  - intros binput message0 rounds k message Einit Erounds.
    destruct (initial_message_row_0 _ _ _ _ _ Hbi Hact Hfb Einit) as [Hbin Hmsg0].
    exact (message_rounds_row_0 m rng (g_bgraph g) binput width rounds k message0 message
             Hbh Hact Hbg Hbin Hmsg0 Erounds).
  - intros message index gathered r c row Hz Egather Hr Hc.
    by eapply index_select_ND_sentinel.
  - apply vsum_skip_zeros.
Qed.

(** C7.  With [depth = 1] the network makes no message passing round:
    [forward] is [forward_depth_one], in which [activation(W_i(fbonds))]
    goes straight into the final atom aggregation and the pooling. *)
Theorem forward_depth_one_reduces (m : MPN) (rng : nat -> nat -> nat -> bool)
    (mol_graph : Graph) :
  depth m = 1 ->
  forward m rng mol_graph = forward_depth_one m rng mol_graph.
Proof.
  intros Hdepth. unfold forward, forward_depth_one, initial_message.
  rewrite Hdepth. change (Z.to_nat (1 - 1)) with 0%nat.
  destruct (linear_rows (W_i m) (g_fbonds mol_graph)) as [binput|e]; [|done].
  reflexivity.
Qed.

End NetworkFacts.

(** * Further properties *)

Lemma foldM_result_inv {A B} (P : B -> Prop) (body : B -> A -> result B) (l : list A) :
  (forall b a b', a ∈ l -> P b -> body b a = Ok b' -> P b') ->
  forall b b', P b -> foldM body l b = Ok b' -> P b'.
Proof.
  induction l as [|a l IH]; intros Hstep b b' Hb E.
  - by injection E as <-.
  - cbn [foldM] in E. apply result_bind_Ok in E as (b1 & E1 & E).
    eapply IH; [|eapply Hstep; [left|exact Hb|exact E1]|exact E].
    intros b2 a2 b2' Ha2. apply Hstep. by right.
Qed.

(** ** Decoding a one-hot encoding *)

Lemma py_index_replicate_one (p k : nat) :
  py_index 1 (replicate p 0 ++ 1 :: replicate k 0) = Ok p.
Proof.
  induction p as [|p IH]; [reflexivity|].
  cbn [replicate app py_index]. rewrite IH. reflexivity.
Qed.

(** X1.  Decoding: the position of the 1 in the encoding of a member of the
    choices, found with [list.index], is a position of that member in the
    choices; for a value that is not a member it is [len(choices)]. *)
Theorem onek_encoding_unk_decode {A} `{EqDecision A} (value : A) (choices : list A) :
  exists (enc : list Z) (p : nat),
    onek_encoding_unk value choices = Ok enc
    /\ py_index 1 enc = Ok p
    /\ (value ∈ choices -> choices !! p = Some value)
    /\ (value ∉ choices -> p = length choices).
Proof.
  destruct (onek_encoding_unk_spec value choices) as (enc & p & E & _ & -> & _ & Hin & Hout).
  exists (replicate p 0 ++ 1 :: replicate (length choices - p) 0), p.
  split; [done|]. split; [apply py_index_replicate_one|].
  split; [intros Hv; by apply Hin|done].
Qed.

Lemma replicate_one_hot_inj (p q k l : nat) :
  replicate p 0 ++ 1 :: replicate k 0 = replicate q 0 ++ 1 :: replicate l 0 -> p = q.
Proof.
  intros E. apply (f_equal (py_index 1)) in E.
  rewrite !py_index_replicate_one in E. by injection E.
Qed.

(** X2.  The encoding tells members of the choices apart and nothing else:
    two values have the same encoding exactly when they are the same member,
    or are both outside the choices. *)
Theorem onek_encoding_unk_same {A} `{EqDecision A} (v v' : A) (choices : list A) :
  onek_encoding_unk v choices = onek_encoding_unk v' choices
  <-> (v = v' \/ ((v ∉ choices) /\ (v' ∉ choices))).
Proof.
  destruct (onek_encoding_unk_spec v choices) as (enc & p & E & _ & Henc & Hp & Hin & Hout).
  destruct (onek_encoding_unk_spec v' choices)
    as (enc' & p' & E' & _ & Henc' & Hp' & Hin' & Hout').
  rewrite E, E'. split.
  - intros [= Heq]. rewrite Henc, Henc' in Heq. apply replicate_one_hot_inj in Heq. subst p'.
    destruct (decide (v ∈ choices)) as [Hv|Hv]; destruct (decide (v' ∈ choices)) as [Hv'|Hv'].
    + left. destruct (Hin Hv) as [Hl _]. destruct (Hin' Hv') as [Hl' _]. congruence.
    + exfalso. destruct (Hin Hv) as [Hl _]. apply lookup_lt_Some in Hl.
      specialize (Hout' Hv'). lia.
    + exfalso. destruct (Hin' Hv') as [Hl _]. apply lookup_lt_Some in Hl.
      specialize (Hout Hv). lia.
    + right. done.
  - intros [<- | [Hv Hv']]; [congruence|].
    rewrite Henc, Henc', (Hout Hv), (Hout' Hv'). done.
Qed.

(** ** The layout of the feature vectors *)

Section LayoutFacts.
Context `{Scalar} `{!Toolkit}.

Lemma py_index_py_range (n : nat) (x : Z) :
  0 <= x < Z.of_nat n -> py_range n !! Z.to_nat x = Some x.
Proof.
  intros Hx. unfold py_range. rewrite list_lookup_fmap, lookup_seq_lt by lia.
  simpl. f_equal. lia.
Qed.

Lemma py_range_lookup_inv (n j : nat) (x : Z) :
  py_range n !! j = Some x -> x = Z.of_nat j.
Proof.
  unfold py_range. rewrite list_lookup_fmap. intros E.
  destruct (seq 0 n !! j) as [k|] eqn:Ek; [|done]. apply lookup_seq in Ek as [-> _].
  simpl in E. by injection E as <-.
Qed.

(** X3.  The layout of [atom_features]: the last entry, at position
    [ATOM_FDIM - 1], is the aromaticity flag, and for an atomic number [z]
    between 1 and 100 the first block has its 1 at position [z - 1] and 0 at
    its 100 other positions. *)
Theorem atom_features_layout (atom : Atom) :
  exists v,
    atom_features atom = Ok v
    /\ v !! (ATOM_FDIM - 1)%nat = Some (of_Z (Z.b2z (GetIsAromatic atom)))
    /\ (1 <= GetAtomicNum atom <= 100 ->
        forall j, (j < 101)%nat ->
                  v !! j = Some (of_Z (if decide (Z.of_nat j = GetAtomicNum atom - 1)
                                       then 1 else 0))).
Proof.
  unfold atom_features.
  destruct (onek_encoding_unk_spec (GetAtomicNum atom - 1)
              (ATOM_FEATURES !!! "atomic_num"%string))
    as (f_num & p & E_num & L_num & Hform & Hp & Hin & _).
  rewrite E_num. cbn [mbind result_bind].
  repeat match goal with
  | |- context [onek_encoding_unk ?v ?c] =>
      let enc := fresh "enc" in
      let E := fresh "E" in
      let L := fresh "L" in
      destruct (onek_encoding_unk_Ok v c) as (enc & E & L);
      rewrite E; cbn [mbind result_bind]
  end.
  destruct ATOM_FEATURES_lengths as (K1 & K2 & K3 & K4 & K5 & K6 & K7 & K8).
  eexists. split; [done|]. split.
  - unfold torch_Tensor. rewrite list_lookup_fmap.
    rewrite !app_assoc. rewrite lookup_app_r.
    2:{ rewrite !length_app. rewrite ATOM_FDIM_value. lia. }
    rewrite !length_app, ATOM_FDIM_value.
    replace (144 - 1 - _)%nat with 0%nat by lia. done.
  - intros Hz j Hj. unfold torch_Tensor. rewrite list_lookup_fmap.
    rewrite lookup_app_l by lia.
    rewrite ATOM_FEATURES_atomic_num in Hin.
    destruct Hin as [Hlook _]; [apply elem_of_py_range; lia|].
    apply py_range_lookup_inv in Hlook.
    rewrite Hform, K1.
    destruct (decide (Z.of_nat j = GetAtomicNum atom - 1)) as [Heq|Hne].
    + assert (j = p) as -> by lia.
      rewrite lookup_app_r by (rewrite length_replicate; lia).
      rewrite length_replicate, Nat.sub_diag. done.
    + destruct (decide (j < p)%nat) as [Hlt|Hge].
      * rewrite lookup_app_l by (rewrite length_replicate; lia).
        rewrite lookup_replicate_2 by lia. done.
      * rewrite lookup_app_r by (rewrite length_replicate; lia).
        rewrite length_replicate.
        replace (j - p)%nat with (S (j - p - 1)) by lia. simpl.
        rewrite lookup_replicate_2 by lia. done.
Qed.

(** X4.  [bond_features] always returns, and the length of its vector is
    [get_bond_fdim] of the two optional arguments it was given: 14, plus 11
    when a path distance is passed, plus 1 when a 3D distance is passed. *)
Theorem bond_features_length (bond : option Bond) (distance_path : option Z)
    (distance_3d : option scalar) :
  exists v,
    bond_features bond distance_path distance_3d = Ok v
    /\ length v = get_bond_fdim (bool_decide (is_Some distance_3d))
                                (bool_decide (is_Some distance_path)).
Proof.
  destruct (bond_features_Ok bond distance_path distance_3d) as (v & E & L).
  exists v. split; [done|]. rewrite L. unfold get_bond_fdim.
  destruct distance_path, distance_3d; simpl; lia.
Qed.

End LayoutFacts.

(** ** The directed pairs of a molecule *)

Lemma elem_of_atom_pairs (n a1 a2 : nat) :
  (a1, a2) ∈ atom_pairs n <-> (a1 < a2 < n)%nat.
Proof.
  unfold atom_pairs. rewrite list_elem_of_bind. split.
  - intros (a & Hp & Ha). apply list_elem_of_fmap in Hp as (b & [= -> ->] & Hb).
    apply elem_of_seq in Ha, Hb. lia.
  - intros Hlt. exists a1. split; [|apply elem_of_seq; lia].
    apply list_elem_of_fmap. exists a2. split; [done|]. apply elem_of_seq. lia.
Qed.

Lemma atom_pairs_count (s m : nat) :
  (length (a1 ← seq s m; pair a1 <$> seq (a1 + 1) (s + m - (a1 + 1))) * 2 = m * (m - 1))%nat.
Proof.
  revert s. induction m as [|m IH]; intros s; [done|].
  cbn [seq]. rewrite bind_cons, length_app, length_fmap, length_seq.
  replace (s + S m)%nat with (S s + m)%nat by lia. rewrite Nat.mul_add_distr_r, IH.
  destruct m; simpl; lia.
Qed.

Lemma both_ways_lookup (ps : list (nat * nat)) (k : nat) :
  (ps ≫= both_ways) !! (2 * k)%nat
  = (fun p : nat * nat => (Z.of_nat p.1, Z.of_nat p.2)) <$> ps !! k
  /\ (ps ≫= both_ways) !! (2 * k + 1)%nat
     = (fun p : nat * nat => (Z.of_nat p.2, Z.of_nat p.1)) <$> ps !! k.
Proof.
  revert k. induction ps as [|p ps IH]; intros k; [done|].
  rewrite bind_cons. destruct k as [|k]; [done|].
  replace (2 * S k)%nat with (S (S (2 * k))) by lia.
  replace (S (S (2 * k)) + 1)%nat with (S (S (2 * k + 1))) by lia.
  simpl. apply IH.
Qed.

Section EdgeFacts.
Context `{Scalar} `{!Toolkit}.

Lemma bond_pair_pairs (three_d virtual_edges : bool) (mol : Mol)
    (mol_fatoms : list (list scalar)) distances_3d distances_path (a1 a2 : nat) acc acc' :
  bond_pair three_d virtual_edges mol mol_fatoms distances_3d distances_path a1 acc a2 = Ok acc' ->
  acc'.2 = acc.2 ++ (if is_edge virtual_edges mol (a1, a2) then both_ways (a1, a2) else []).
Proof.
  destruct acc as [fb ab]. unfold bond_pair, is_edge. simpl.
  destruct (bool_decide _ && negb virtual_edges); simpl.
  { intros [= <-]. simpl. by rewrite app_nil_r. }
  intros E.
  apply result_bind_Ok in E as (fa1 & _ & E).
  apply result_bind_Ok in E as (bf1 & _ & E).
  apply result_bind_Ok in E as (fa2 & _ & E).
  apply result_bind_Ok in E as (bf2 & _ & E).
  injection E as <-. simpl. by rewrite <- app_assoc.
Qed.

Lemma bond_row_pairs (three_d virtual_edges : bool) (mol : Mol)
    (mol_fatoms : list (list scalar)) distances_3d distances_path (a1 : nat) (l : list nat) :
  forall acc acc',
    foldM (bond_pair three_d virtual_edges mol mol_fatoms distances_3d distances_path a1) l acc
    = Ok acc' ->
    acc'.2 = acc.2 ++ (filter (is_edge virtual_edges mol) (pair a1 <$> l) ≫= both_ways).
Proof.
  induction l as [|a2 l IH]; intros acc acc' E.
  - injection E as <-. simpl. by rewrite app_nil_r.
  - cbn [foldM] in E. apply result_bind_Ok in E as (acc1 & E1 & E).
    apply bond_pair_pairs in E1. rewrite (IH _ _ E), E1, <- app_assoc. f_equal.
    rewrite fmap_cons, filter_cons.
    destruct (is_edge virtual_edges mol (a1, a2)) eqn:He.
    + destruct (decide _) as [_|Hd]; [by rewrite bind_cons|by destruct Hd].
    + destruct (decide _) as [Hd|_]; [by destruct Hd|done].
Qed.

Lemma bond_loops_fold_pairs (three_d virtual_edges : bool) (mol : Mol)
    (mol_fatoms : list (list scalar)) distances_3d distances_path (n : nat) (l : list nat) :
  forall acc acc',
    foldM (fun acc a1 =>
             foldM (bond_pair three_d virtual_edges mol mol_fatoms distances_3d distances_path a1)
                   (seq (a1 + 1) (n - (a1 + 1))) acc) l acc = Ok acc' ->
    acc'.2 = acc.2 ++ (filter (is_edge virtual_edges mol)
                         (a1 ← l; pair a1 <$> seq (a1 + 1) (n - (a1 + 1))) ≫= both_ways).
Proof.
  induction l as [|a1 l IH]; intros acc acc' E.
  - injection E as <-. simpl. by rewrite app_nil_r.
  - cbn [foldM] in E. apply result_bind_Ok in E as (acc1 & E1 & E).
    apply bond_row_pairs in E1.
    rewrite (IH _ _ E), E1, <- app_assoc, bind_cons, filter_app, bind_app. done.
Qed.

Lemma bond_loops_pairs (three_d virtual_edges : bool) (mol : Mol)
    (mol_fatoms : list (list scalar)) distances_3d distances_path (n : nat) fb ab :
  bond_loops three_d virtual_edges mol mol_fatoms distances_3d distances_path n = Ok (fb, ab) ->
  ab = filter (is_edge virtual_edges mol) (atom_pairs n) ≫= both_ways.
Proof. intros E. by apply bond_loops_fold_pairs in E. Qed.

Lemma bond_pair_rows_ok (three_d virtual_edges : bool) (mol : Mol)
    (mol_fatoms : list (list scalar)) distances_3d (a1 a2 : nat) acc acc' :
  (a1 < a2)%nat ->
  rows_ok three_d virtual_edges mol mol_fatoms distances_3d acc ->
  bond_pair three_d virtual_edges mol mol_fatoms distances_3d (GetDistanceMatrix mol) a1 acc a2
  = Ok acc' ->
  rows_ok three_d virtual_edges mol mol_fatoms distances_3d acc'.
Proof.
  intros Hlt [Hlen Hrows]. destruct acc as [fb ab]. unfold bond_pair.
  destruct (bool_decide _ && negb virtual_edges); [by intros [= <-]|].
  intros E.
  apply result_bind_Ok in E as (fa1 & E1 & E).
  apply result_bind_Ok in E as (bf1 & Eb1 & E).
  apply result_bind_Ok in E as (fa2 & E2 & E).
  apply result_bind_Ok in E as (bf2 & Eb2 & E).
  injection E as <-. simpl in *.
  assert (bf2 = bf1) as -> by congruence.
  destruct (mol_fatoms !! a1) as [fa|] eqn:Hfa1; [injection E1 as ->|discriminate].
  destruct (mol_fatoms !! a2) as [fa|] eqn:Hfa2; [injection E2 as ->|discriminate].
  split; simpl; [rewrite !length_app; simpl; lia|].
  intros b x y. rewrite <- !app_assoc. simpl.
  destruct (decide (b < length ab)%nat) as [Hb|Hb].
  { rewrite lookup_app_l by done. intros Hxy.
    destruct (Hrows _ _ _ Hxy) as (fa_x & bf & ? & ? & Hl). exists fa_x, bf.
    split_and!; [done..|]. rewrite lookup_app_l by lia. done. }
  rewrite lookup_app_r by lia. rewrite (lookup_app_r fb) by lia. rewrite Hlen.
  destruct (b - length ab)%nat as [|[|k]]; simpl; [| |done].
  - intros [= <- <-]. exists fa1, bf1. rewrite Nat2Z.id.
    replace (Z.min (Z.of_nat a1) (Z.of_nat a2)) with (Z.of_nat a1) by lia.
    replace (Z.max (Z.of_nat a1) (Z.of_nat a2)) with (Z.of_nat a2) by lia.
    rewrite !Nat2Z.id. done.
  - intros [= <- <-]. exists fa2, bf1. rewrite Nat2Z.id.
    replace (Z.min (Z.of_nat a2) (Z.of_nat a1)) with (Z.of_nat a1) by lia.
    replace (Z.max (Z.of_nat a2) (Z.of_nat a1)) with (Z.of_nat a2) by lia.
    rewrite !Nat2Z.id. done.
Qed.

Lemma bond_loops_rows_ok (three_d virtual_edges : bool) (mol : Mol)
    (mol_fatoms : list (list scalar)) distances_3d (n : nat) acc :
  bond_loops three_d virtual_edges mol mol_fatoms distances_3d (GetDistanceMatrix mol) n
  = Ok acc ->
  rows_ok three_d virtual_edges mol mol_fatoms distances_3d acc.
Proof.
  unfold bond_loops.
  apply (foldM_result_inv (rows_ok three_d virtual_edges mol mol_fatoms distances_3d));
    [|by split].
  intros acc0 a1 acc1 _ Hacc0.
  apply (foldM_result_inv (rows_ok three_d virtual_edges mol mol_fatoms distances_3d));
    [|done].
  intros b a2 b' Ha2 Hb. apply bond_pair_rows_ok; [|done].
  apply elem_of_seq in Ha2. lia.
Qed.

(** X5.  Which pairs of atoms become directed bonds of a molecule.  For
    the molecule [mol] that reaches the loops, the tuple records the pair
    [(a1, a2)] exactly when the two are different atoms of [mol] and either
    [virtual_edges] is set or the toolkit has a bond between the smaller
    and the larger position; the pairs come two by two, the pair from the
    smaller to the larger position at an even position and its reverse
    right after; and with [virtual_edges] there are [n * (n - 1)] of them. *)
Theorem compute_features_pairs (addHs three_d virtual_edges : bool) (smiles : string)
    (mol : Mol) (distances_3d : option (nat -> nat -> scalar)) (mf : MolFeatures) :
  prepare_mol addHs three_d smiles = Ok (mol, distances_3d) ->
  compute_features addHs three_d virtual_edges smiles = Ok mf ->
  n_atoms mf = GetNumAtoms mol
  /\ (forall a1 a2 : nat,
        (Z.of_nat a1, Z.of_nat a2) ∈ mol_all_bonds mf
        <-> (a1 < GetNumAtoms mol)%nat /\ (a2 < GetNumAtoms mol)%nat /\ a1 ≠ a2
            /\ (virtual_edges = true
                \/ is_Some (GetBondBetweenAtoms mol (Nat.min a1 a2) (Nat.max a1 a2))))
  /\ (forall k x y, mol_all_bonds mf !! (2 * k)%nat = Some (x, y) ->
                    x < y /\ mol_all_bonds mf !! (2 * k + 1)%nat = Some (y, x))
  /\ (exists k, length (mol_all_bonds mf) = (2 * k)%nat)
  /\ (virtual_edges = true ->
      length (mol_all_bonds mf) = (GetNumAtoms mol * (GetNumAtoms mol - 1))%nat).
Proof.
  intros Eprep E. unfold compute_features in E. rewrite Eprep in E. simpl in E.
  apply result_bind_Ok in E as (fa & Efa & E).
  apply result_bind_Ok in E as ([fb ab] & Eloops & E).
  injection E as <-. cbn [mol_all_bonds n_atoms].
  apply bond_loops_pairs in Eloops. subst ab.
  set (n := GetNumAtoms mol).
  assert (forall p, is_edge virtual_edges mol p
                    <-> virtual_edges = true \/ is_Some (GetBondBetweenAtoms mol p.1 p.2))
    as Hedge.
  { intros p. unfold is_edge.
    destruct (GetBondBetweenAtoms mol p.1 p.2) as [bond|], virtual_edges; simpl.
    all: rewrite ?bool_decide_eq_true_2, ?bool_decide_eq_false_2 by done; simpl.
    all: split; eauto; try done.
    intros [|[]]; done. }
  split; [done|]. split; [|split; [|split]].
  - intros a1 a2. rewrite list_elem_of_bind. split.
    + intros ([b1 b2] & Hdir & Hp). apply list_elem_of_filter in Hp as [He Hp].
      apply Hedge in He. apply elem_of_atom_pairs in Hp. simpl in He.
      unfold both_ways in Hdir. simpl in Hdir.
      apply elem_of_cons in Hdir as [Hd|Hd];
        [|apply elem_of_cons in Hd as [Hd|Hd]; [|by apply elem_of_nil in Hd]].
      * injection Hd as Hd1 Hd2. apply Nat2Z.inj in Hd1, Hd2. subst b1 b2.
        rewrite Nat.min_l, Nat.max_r by lia. repeat split; done || lia.
      * injection Hd as Hd1 Hd2. apply Nat2Z.inj in Hd1, Hd2. subst b1 b2.
        rewrite Nat.min_r, Nat.max_l by lia. repeat split; done || lia.
    + intros (Ha1 & Ha2 & Hne & He).
      exists (Nat.min a1 a2, Nat.max a1 a2). split.
      * unfold both_ways. simpl. destruct (decide (a1 < a2)%nat).
        -- rewrite Nat.min_l, Nat.max_r by lia. left.
        -- rewrite Nat.min_r, Nat.max_l by lia. right. left.
      * apply list_elem_of_filter. split; [by apply Hedge|].
        apply elem_of_atom_pairs. fold n. lia.
  - intros k x y Hk.
    destruct (both_ways_lookup (filter (is_edge virtual_edges mol) (atom_pairs n)) k)
      as [Heven Hodd].
    rewrite Heven in Hk. rewrite Hodd.
    destruct (filter (is_edge virtual_edges mol) (atom_pairs n) !! k) as [[a1 a2]|] eqn:Hp;
      [|done].
    injection Hk as <- <-. simpl. split; [|done].
    apply list_elem_of_lookup_2, list_elem_of_filter in Hp as [_ Hp].
    apply elem_of_atom_pairs in Hp. lia.
  - exists (length (filter (is_edge virtual_edges mol) (atom_pairs n))).
    generalize (filter (is_edge virtual_edges mol) (atom_pairs n)).
    intros l. induction l as [|p l IH]; [done|]. rewrite bind_cons, length_app, IH. simpl. lia.
  - intros ->.
    assert (filter (is_edge true mol) (atom_pairs n) = atom_pairs n) as ->.
    { generalize (atom_pairs n). intros l. induction l as [|p l IH]; [done|].
      rewrite filter_cons, decide_True, IH; [done|]. apply Hedge. by left. }
    pose proof (atom_pairs_count 0 n) as Hcount. simpl in Hcount. fold (atom_pairs n) in Hcount.
    rewrite <- Hcount. generalize (atom_pairs n).
    intros l. induction l as [|p l IH]; [done|]. rewrite bind_cons, length_app, IH. simpl. lia.
Qed.

(** X6.  What a row of bond features holds.  In the tuple of a molecule
    there is one row per directed pair, and the row of the pair [(x, y)] is
    the feature vector of the atom [x] it starts from, followed by the
    features of the bond between the smaller and the larger of the two
    positions: both directions of a pair carry the same bond features. *)
Theorem compute_features_bond_rows (addHs three_d virtual_edges : bool) (smiles : string)
    (mol : Mol) (distances_3d : option (nat -> nat -> scalar)) (mf : MolFeatures) :
  prepare_mol addHs three_d smiles = Ok (mol, distances_3d) ->
  compute_features addHs three_d virtual_edges smiles = Ok mf ->
  result_mapM atom_features (GetAtoms mol) = Ok (mol_fatoms mf)
  /\ length (mol_fbonds mf) = length (mol_all_bonds mf)
  /\ forall b x y, mol_all_bonds mf !! b = Some (x, y) ->
       exists fa_x bf,
         mol_fatoms mf !! Z.to_nat x = Some fa_x
         /\ pair_features three_d virtual_edges mol distances_3d
              (Z.to_nat (Z.min x y)) (Z.to_nat (Z.max x y)) = Ok bf
         /\ mol_fbonds mf !! b = Some (fa_x ++ bf).
Proof.
  intros Eprep E. unfold compute_features in E. rewrite Eprep in E. simpl in E.
  apply result_bind_Ok in E as (fa & Efa & E).
  apply result_bind_Ok in E as ([fb ab] & Eloops & E).
  injection E as <-. simpl. split; [done|].
  apply bond_loops_rows_ok in Eloops. exact Eloops.
Qed.

End EdgeFacts.

(** ** The dictionary across calls *)

Section CacheFacts.
Context `{Scalar} `{!Toolkit}.

Lemma batch_fold_delta (addHs three_d virtual_edges : bool) (batch : list string) :
  forall (L0 : Locals) (w w' : World) (r : result Locals),
    foldM (batch_body addHs three_d virtual_edges) batch L0 w = (w', r) ->
    forall s t, SMILES_TO_FEATURES w' !! s = Some t ->
      SMILES_TO_FEATURES w !! s = Some t
      \/ (SMILES_TO_FEATURES w !! s = None /\ s ∈ batch
          /\ compute_features addHs three_d virtual_edges s = Ok t).
Proof.
  induction batch as [|smiles batch IH]; intros L0 w w' r.
  - intros [= <- <-] s t Hs. by left.
  - rewrite batch_fold_cons.
    destruct (mol_features _ _ _ _ _) as [w1 [mf|e]] eqn:Estep.
    + apply mol_features_step in Estep as (Hmono & _ & Hfor & Hhit & Hother).
      assert (forall s t, SMILES_TO_FEATURES w1 !! s = Some t ->
                SMILES_TO_FEATURES w !! s = Some t
                \/ (SMILES_TO_FEATURES w !! s = None /\ s ∈ smiles :: batch
                    /\ compute_features addHs three_d virtual_edges s = Ok t)) as Hw1.
      { intros s t Hs. destruct (decide (s = smiles)) as [->|Hne].
        - rewrite Hhit in Hs. injection Hs as <-.
          destruct Hfor as [Hc|[Hc Hcomp]]; [by left|].
          right. split; [done|]. split; [left|done].
        - left. by rewrite <- Hother. }
      destruct (add_molecule L0 mf) as [L1|e].
      * intros Etail s t Hs.
        destruct (IH _ _ _ _ Etail s t Hs) as [Hc|(Hc & Hin & Hcomp)].
        -- by apply Hw1.
        -- right. split; [|split; [by right|done]].
           destruct (SMILES_TO_FEATURES w !! s) eqn:E; [|done].
           apply Hmono in E. congruence.
      * intros [= <- <-]. done.
    + apply mol_features_step in Estep as (_ & _ & Hsame & _).
      intros [= <- <-] s t Hs. left. by rewrite <- Hsame.
Qed.

(** X7.  What a call does to [SMILES_TO_FEATURES], whether it returns or
    raises: entries that were there stay as they are, and an entry that is
    new is for a notation of the batch and holds the tuple computed under
    the flags of this call. *)
Theorem mol2graph_cache_delta (mol_batch : list string) (addHs three_d virtual_edges : bool)
    (w w' : World) (r : result Graph) :
  mol2graph mol_batch addHs three_d virtual_edges w = (w', r) ->
  (forall s t, SMILES_TO_FEATURES w !! s = Some t -> SMILES_TO_FEATURES w' !! s = Some t)
  /\ (forall s t, SMILES_TO_FEATURES w' !! s = Some t ->
        SMILES_TO_FEATURES w !! s = Some t
        \/ (SMILES_TO_FEATURES w !! s = None /\ s ∈ mol_batch
            /\ compute_features addHs three_d virtual_edges s = Ok t)).
Proof.
  rewrite mol2graph_unfold, batch_loop_unfold.
  destruct (foldM (batch_body addHs three_d virtual_edges) mol_batch
              (initial_locals three_d virtual_edges) w) as [w1 [L|e]] eqn:Eloop;
    intros [= <- _]; (split; [by apply batch_fold_world in Eloop as [? _]|]);
    by eapply batch_fold_delta.
Qed.

Lemma batch_fold_all_cached (addHs three_d virtual_edges : bool) (batch : list string)
    (ts : list MolFeatures) (w : World) :
  Forall2 (fun s t => SMILES_TO_FEATURES w !! s = Some t) batch ts ->
  forall L0,
    foldM (batch_body addHs three_d virtual_edges) batch L0 w
    = (w, foldM add_molecule ts L0).
Proof.
  intros Hts. induction Hts as [|s t batch ts Hs _ IH]; intros L0; [done|].
  rewrite batch_fold_cons, (mol_features_hit _ _ _ _ _ _ Hs). cbn [foldM].
  destruct (add_molecule L0 t) as [L1|e]; [apply IH|done].
Qed.

(** X8.  Calling again on the same batch.  After a call that returned, a
    second call on the same batch with the same [three_d] and
    [virtual_edges] returns the same graph whatever its [addHs], makes no
    toolkit call and leaves the dictionary as it is. *)
Theorem mol2graph_again (mol_batch : list string) (addHs addHs' three_d virtual_edges : bool)
    (w w1 : World) (g : Graph) :
  mol2graph mol_batch addHs three_d virtual_edges w = (w1, Ok g) ->
  mol2graph mol_batch addHs' three_d virtual_edges w1 = (w1, Ok g).
Proof.
  intros E. apply mol2graph_Ok in E as (L & Eloop & Ebuild).
  rewrite batch_loop_unfold in Eloop.
  apply batch_fold_tuples in Eloop as (ts & Hts & Hfold).
  rewrite mol2graph_unfold, batch_loop_unfold.
  rewrite (batch_fold_all_cached _ _ _ _ ts).
  - rewrite Hfold. cbn beta iota. by rewrite Ebuild.
  - eapply Forall2_impl; [exact Hts|]. by intros s t [_ ?].
Qed.

End CacheFacts.

(** ** The toolkit calls of a call *)

Section CallFacts.
Context `{Scalar} `{!Toolkit}.

Ltac run_step :=
  rewrite ?M_bind_unfold;
  rewrite ?call_MolFromSmiles_eq, ?call_AddHs_eq, ?call_EmbedMolecule_eq, ?call_RemoveHs_eq,
    ?call_Get3DDistanceMatrix_eq, ?call_GetDistanceMatrix_eq, ?lift_eq, ?M_ret_eq,
    ?cache_store_eq, ?log_calls_log_calls;
  cbn beta iota.

(** Whether it returns or raises, a featurisation logs an initial segment
    of [featurize_calls]. *)
Lemma featurize_logs_prefix (addHs three_d virtual_edges : bool) (smiles : string)
    (w : World) :
  exists tr rest,
    toolkit_calls (featurize addHs three_d virtual_edges smiles w).1
    = toolkit_calls w ++ tr
    /\ pair smiles <$> featurize_calls addHs three_d = tr ++ rest.
Proof.
  unfold featurize_calls.
  destruct (MolFromSmiles smiles) as [mol|] eqn:Eparse.
  2:{ unfold featurize. run_step. rewrite Eparse. cbn [of_option].
      destruct addHs, three_d; (eexists [_], _; split; reflexivity). }
  destruct addHs, three_d; unfold featurize; cbv beta iota zeta delta [negb];
    repeat (run_step; cbv beta iota zeta;
            rewrite ?Eparse;
            cbn [of_option mbind result_bind];
            try match goal with
              | |- context [@of_option ?A ?e ?o] =>
                  lazymatch o with
                  | Some _ => fail
                  | None => fail
                  | _ => destruct o
                  end
              | |- context [match ?r with Ok _ => _ | Raise _ => _ end] =>
                  lazymatch r with
                  | Ok _ => fail
                  | Raise _ => fail
                  | _ => destruct r as [[? ?]|?] || destruct r as [?|?]
                  end
              end;
            cbn [of_option mbind result_bind]);
    unfold log_calls; cbn [app SMILES_TO_FEATURES toolkit_calls fst];
    (eexists _, _; split; [reflexivity|reflexivity]).
Qed.

Lemma mol_features_calls (addHs three_d virtual_edges : bool) (smiles : string)
    (w w1 : World) (r : result MolFeatures) :
  mol_features addHs three_d virtual_edges smiles w = (w1, r) ->
  exists tr, toolkit_calls w1 = toolkit_calls w ++ tr
             /\ Forall (fun c => c.2 ∈ featurize_calls addHs three_d) tr.
Proof.
  destruct (SMILES_TO_FEATURES w !! smiles) as [mf|] eqn:Hcache.
  - rewrite (mol_features_hit _ _ _ _ _ _ Hcache). intros [= <- <-].
    exists []. rewrite app_nil_r. split; [done|constructor].
  - rewrite (mol_features_miss _ _ _ _ _ Hcache). intros E.
    destruct (featurize_logs_prefix addHs three_d virtual_edges smiles w)
      as (tr & rest & Etr & Hprefix).
    rewrite E in Etr. simpl in Etr. exists tr. split; [done|].
    apply Forall_forall. intros c Hc.
    assert (c ∈ pair smiles <$> featurize_calls addHs three_d) as Hin.
    { rewrite Hprefix. apply elem_of_app. by left. }
    apply list_elem_of_fmap in Hin as (x & -> & Hx). done.
Qed.

Lemma batch_fold_calls (addHs three_d virtual_edges : bool) (batch : list string) :
  forall (L0 : Locals) (w w' : World) (r : result Locals),
    foldM (batch_body addHs three_d virtual_edges) batch L0 w = (w', r) ->
    exists tr, toolkit_calls w' = toolkit_calls w ++ tr
               /\ Forall (fun c => c.2 ∈ featurize_calls addHs three_d) tr.
Proof.
  induction batch as [|smiles batch IH]; intros L0 w w' r.
  - intros [= <- <-]. exists []. rewrite app_nil_r. split; [done|constructor].
  - rewrite batch_fold_cons.
    destruct (mol_features _ _ _ _ _) as [w1 [mf|e]] eqn:Estep;
      apply mol_features_calls in Estep as (tr1 & Etr1 & Htr1).
    + destruct (add_molecule L0 mf) as [L1|e].
      * intros Etail. destruct (IH _ _ _ _ Etail) as (tr2 & Etr2 & Htr2).
        exists (tr1 ++ tr2). rewrite Etr2, Etr1, app_assoc. split; [done|].
        by apply Forall_app.
      * intros [= <- <-]. eauto.
    + intros [= <- <-]. eauto.
Qed.

(** X9.  The toolkit calls a call of [mol2graph] makes, whether it returns
    or raises.  Each is for a notation of the batch that was not a key of the
    dictionary when the call started, and is one of the calls the flags
    allow: without [three_d] the molecule is never embedded, never stripped
    of hydrogens and never asked for its 3D distance matrix, and without
    [addHs] and [three_d] no hydrogens are added. *)
Theorem mol2graph_toolkit_calls (mol_batch : list string) (addHs three_d virtual_edges : bool)
    (w w' : World) (r : result Graph) :
  mol2graph mol_batch addHs three_d virtual_edges w = (w', r) ->
  exists tr,
    toolkit_calls w' = toolkit_calls w ++ tr
    /\ Forall (fun c => c.1 ∈ mol_batch /\ SMILES_TO_FEATURES w !! c.1 = None) tr
    /\ (three_d = false ->
        Forall (fun c => c.2 ≠ Call_EmbedMolecule /\ c.2 ≠ Call_RemoveHs
                         /\ c.2 ≠ Call_Get3DDistanceMatrix) tr)
    /\ (addHs = false -> three_d = false -> Forall (fun c => c.2 ≠ Call_AddHs) tr)
    /\ (addHs = true -> Forall (fun c => c.2 ≠ Call_RemoveHs) tr).
Proof.
  intros E.
  assert (exists w1 rL, foldM (batch_body addHs three_d virtual_edges) mol_batch
                          (initial_locals three_d virtual_edges) w = (w1, rL) /\ w1 = w')
    as (w1 & rL & Eloop & ->).
  { rewrite mol2graph_unfold, batch_loop_unfold in E.
    destruct (foldM (batch_body addHs three_d virtual_edges) mol_batch
                (initial_locals three_d virtual_edges) w) as [w1 [L|e]];
      injection E as <- _; eauto. }
  destruct (batch_fold_world _ _ _ _ _ _ _ _ Eloop) as (_ & tr & Etr & Htr).
  destruct (batch_fold_calls _ _ _ _ _ _ _ _ Eloop) as (tr' & Etr' & Htr').
  assert (tr' = tr) as -> by (rewrite Etr in Etr'; by apply app_inv_head in Etr').
  exists tr. split; [done|]. split; [done|].
  split; [|split].
  - intros ->. eapply Forall_impl; [exact Htr'|]. intros c Hc.
    unfold featurize_calls in Hc. destruct addHs; simpl in Hc;
      repeat (apply elem_of_cons in Hc as [->|Hc]; [repeat split; discriminate|]);
      by apply elem_of_nil in Hc.
  - intros -> ->. eapply Forall_impl; [exact Htr'|]. intros c Hc.
    unfold featurize_calls in Hc. simpl in Hc.
    repeat (apply elem_of_cons in Hc as [->|Hc]; [discriminate|]).
    by apply elem_of_nil in Hc.
  - intros ->. eapply Forall_impl; [exact Htr'|]. intros c Hc.
    unfold featurize_calls in Hc. destruct three_d; simpl in Hc;
      repeat (apply elem_of_cons in Hc as [->|Hc]; [discriminate|]);
      by apply elem_of_nil in Hc.
Qed.

End CallFacts.

(** ** The shape of the batched graph *)


Lemma torch_stack_widths {A} (rows rows' : list (list A)) (r0 : list A) :
  torch_stack rows = Ok rows' -> head rows = Some r0 ->
  Forall (fun r => length r = length r0) rows.
Proof.
  unfold torch_stack. destruct rows as [|r rs]; [discriminate|].
  destruct (forallb _ rs) eqn:Hall; [|discriminate]. intros _ [= <-].
  constructor; [done|]. apply Forall_forall. intros r' Hr'.
  rewrite forallb_forall in Hall. apply Nat.eqb_eq, Hall. by apply list_elem_of_In.
Qed.

Lemma torch_stack_total {A} (rows : list (list A)) (n : nat) :
  rows ≠ [] -> Forall (fun row => length row = n) rows -> torch_stack rows = Ok rows.
Proof.
  intros Hne Hrows. destruct rows as [|r rs]; [done|]. unfold torch_stack.
  apply Forall_cons_1 in Hrows as [Hr Hrs].
  assert (forallb (fun r' => Nat.eqb (length r') (length r)) rs = true) as ->; [|done].
  apply forallb_forall. intros r' Hr'. apply Nat.eqb_eq. rewrite Hr.
  rewrite Forall_forall in Hrs. by apply Hrs, list_elem_of_In.
Qed.

Lemma sum_list_lookup_le (l : list nat) (i x : nat) :
  l !! i = Some x -> (sum_list (take i l) + x <= sum_list l)%nat.
Proof.
  intros Hi. rewrite <- (take_drop_middle l i x Hi) at 2.
  rewrite sum_list_with_app. simpl. lia.
Qed.

Section ShapeFacts.
Context `{Scalar} `{!Toolkit}.

Lemma add_molecule_fields (L L' : Locals) (mf : MolFeatures) :
  add_molecule L mf = Ok L' ->
  fatoms L' = fatoms L ++ mol_fatoms mf
  /\ fbonds L' = fbonds L ++ mol_fbonds mf
  /\ scope L' = scope L ++ [(total_atoms L, n_atoms mf)]
  /\ total_atoms L' = (total_atoms L + n_atoms mf)%nat.
Proof.
  unfold add_molecule. cbv zeta. intros E.
  apply result_bind_Ok in E as ([ab ib] & _ & E). by injection E as <-.
Qed.

Lemma fold_add_molecule_concat (ts : list MolFeatures) :
  forall (L0 L : Locals),
    foldM add_molecule ts L0 = Ok L ->
    fatoms L = fatoms L0 ++ concat (mol_fatoms <$> ts)
    /\ fbonds L = fbonds L0 ++ concat (mol_fbonds <$> ts)
    /\ total_atoms L = (total_atoms L0 + sum_list (n_atoms <$> ts))%nat.
Proof.
  induction ts as [|t ts IH]; intros L0 L E.
  - injection E as <-. simpl. rewrite !app_nil_r. split; [done|]. split; [done|lia].
  - cbn [foldM] in E. apply result_bind_Ok in E as (L1 & E1 & E).
    apply add_molecule_fields in E1 as (Efa & Efb & _ & Etot).
    destruct (IH _ _ E) as (-> & -> & ->).
    rewrite Efa, Efb, Etot, <- !app_assoc, !fmap_cons. cbn [concat sum_list_with].
    split; [done|]. split; [done|]. unfold id. lia.
Qed.

Lemma add_molecule_scope (L L' : Locals) (mf : MolFeatures) :
  scope_contiguous L -> add_molecule L mf = Ok L' -> scope_contiguous L'.
Proof.
  intros [Hst Hsum] E. apply add_molecule_fields in E as (_ & _ & Esc & Etot).
  split.
  - intros i st n. rewrite Esc. intros Hi.
    destruct (decide (i < length (scope L))%nat) as [Hlt|Hge].
    + rewrite lookup_app_l in Hi by done. rewrite take_app_le by lia. by eapply Hst.
    + rewrite lookup_app_r in Hi by lia.
      destruct (i - length (scope L))%nat as [|k] eqn:Ek; [|by destruct k].
      injection Hi as <- <-.
      assert (i = length (scope L)) as -> by lia.
      by rewrite take_app_length.
  - rewrite Esc, Etot, fmap_app, sum_list_with_app, Hsum. simpl. lia.
Qed.

Lemma fold_add_molecule_scope (ts : list MolFeatures) :
  forall (L0 L : Locals),
    scope_contiguous L0 -> foldM add_molecule ts L0 = Ok L ->
    scope_contiguous L /\ length (scope L) = (length (scope L0) + length ts)%nat.
Proof.
  induction ts as [|t ts IH]; intros L0 L Hsc E.
  - injection E as <-. split; [done|]. simpl. lia.
  - cbn [foldM] in E. apply result_bind_Ok in E as (L1 & E1 & E).
    pose proof (add_molecule_scope _ _ _ Hsc E1) as Hsc1.
    apply add_molecule_fields in E1 as (_ & _ & Esc & _).
    destruct (IH _ _ Hsc1 E) as [HscL Hlen]. split; [done|].
    rewrite Hlen, Esc, length_app. simpl. lia.
Qed.

Lemma initial_locals_scope (three_d virtual_edges : bool) :
  scope_contiguous (initial_locals three_d virtual_edges).
Proof. split; [intros i st n Hi; done|done]. Qed.

(** What a call that returns leaves behind: the locals after the loop, and
    the tuples the loop assembled. *)
Lemma mol2graph_locals (mol_batch : list string) (addHs three_d virtual_edges : bool)
    (w w' : World) (g : Graph) :
  mol2graph mol_batch addHs three_d virtual_edges w = (w', Ok g) ->
  exists L ts,
    build_graph L = Ok g
    /\ Forall2 (fun s t => tuple_for addHs three_d virtual_edges w s t
                           /\ SMILES_TO_FEATURES w' !! s = Some t) mol_batch ts
    /\ foldM add_molecule ts (initial_locals three_d virtual_edges) = Ok L
    /\ (cache_wf w -> locals_inv L).
Proof.
  intros E. apply mol2graph_Ok in E as (L & Eloop & Ebuild).
  rewrite batch_loop_unfold in Eloop.
  destruct (batch_fold_tuples _ _ _ _ _ _ _ _ Eloop) as (ts & Hts & Hfold).
  exists L, ts. split; [done|]. split; [done|]. split; [done|].
  intros Hwf.
  by pose proof (batch_fold_wf _ _ _ _ _ _ _ _ Hwf (initial_locals_inv _ _) Eloop) as [_ ?].
Qed.

Lemma scope_contiguous_fits (L : Locals) :
  scope_contiguous L ->
  Forall (fun '(st, le) => (st + le <= total_atoms L)%nat) (scope L).
Proof.
  intros [Hst Hsum]. apply Forall_lookup. intros i [st le] Hi.
  simpl. rewrite (Hst _ _ _ Hi), <- Hsum, fmap_take.
  apply sum_list_lookup_le. by rewrite list_lookup_fmap, Hi.
Qed.

(** X10.  The scope of a returned graph partitions the rows of [fatoms]: it
    has one entry per notation of the batch, in order; each entry starts
    where the atom counts of the entries before it end (the first at 0);
    and the counts add up to the number of rows of [fatoms], which is not
    zero. *)
Theorem mol2graph_scope_partition (mol_batch : list string)
    (addHs three_d virtual_edges : bool) (w w' : World) (g : Graph) :
  cache_wf w ->
  mol2graph mol_batch addHs three_d virtual_edges w = (w', Ok g) ->
  length (g_scope g) = length mol_batch
  /\ (forall i st n, g_scope g !! i = Some (st, n) ->
                     st = sum_list ((take i (g_scope g)).*2))
  /\ sum_list ((g_scope g).*2) = length (g_fatoms g)
  /\ (0 < length (g_fatoms g))%nat.
Proof.
  intros Hwf E. apply mol2graph_locals in E as (L & ts & Ebuild & Hts & Hfold & HinvL).
  specialize (HinvL Hwf).
  destruct (build_graph_Ok L g HinvL Ebuild) as (Hgfa & _ & Hgsc & _ & _ & Hpos).
  destruct (fold_add_molecule_scope ts _ L (initial_locals_scope _ _) Hfold)
    as [[Hst Hsum] Hlen].
  destruct HinvL as (Hfa & _).
  rewrite Hgsc, Hgfa, Hfa. split.
  { rewrite Hlen. simpl. symmetry. by eapply Forall2_length. }
  split; [done|]. split; [done|]. done.
Qed.

(** The index tables [build_graph] makes fit the feature tables. *)
Lemma build_graph_in_range (L : Locals) (g : Graph) :
  locals_inv L -> build_graph L = Ok g ->
  length (g_agraph g) = length (g_fatoms g)
  /\ length (g_bgraph g) = length (g_fbonds g)
  /\ exists width,
       Forall (fun row => length row = width
                          /\ Forall (fun b => (b < length (g_fbonds g))%nat) row)
              (g_agraph g ++ g_bgraph g).
Proof.
  intros HinvL Ebuild.
  destruct (build_graph_Ok L g HinvL Ebuild) as (Hgfa & Hgfb & _ & Hag & Hbg & _).
  destruct HinvL as (Hfa & Hfb & Hinv).
  pose proof Hinv as (Hlen & (rest & Hab & Hrange) & Hin).
  set (width := max_list (length <$> in_bonds L)) in *.
  assert (forall bonds, bonds ∈ in_bonds L -> (length bonds <= width)%nat) as Hwidth.
  { intros bonds Hb. apply max_list_elem_of_le. apply list_elem_of_fmap. eauto. }
  assert (forall a, (a < total_atoms L)%nat ->
            (length (incoming (all_bonds L) (Z.of_nat a)) <= width)%nat) as Hdeg.
  { intros a Ha. apply Hwidth. apply list_elem_of_lookup. exists a. by apply Hin. }
  assert (forall a b, b ∈ incoming (all_bonds L) a -> (b < length (all_bonds L))%nat) as Hb.
  { intros a b Hin'. apply elem_of_incoming in Hin' as (_ & x & Hl).
    by eapply lookup_lt_Some. }
  assert (0 < length (all_bonds L))%nat as Hpos by (rewrite Hab; simpl; lia).
  rewrite Hgfa, Hgfb, Hfa, Hfb.
  split; [by rewrite Hag, length_fmap|].
  split; [rewrite Hbg; simpl; rewrite length_fmap, length_seq; lia|].
  exists width. apply Forall_app. split.
  - rewrite Hag. apply Forall_forall. intros row Hrow.
    apply list_elem_of_fmap in Hrow as (bonds & -> & Hbonds).
    split; [by apply pad_length, Hwidth|].
    apply list_elem_of_lookup in Hbonds as [a Ha].
    pose proof (lookup_lt_Some _ _ _ Ha) as Hlt. rewrite Hlen in Hlt.
    rewrite Hin in Ha by done. injection Ha as <-.
    unfold pad. apply Forall_app. split.
    + apply Forall_forall. intros b Hb'. by eapply Hb.
    + by apply Forall_replicate.
  - rewrite Hbg. constructor.
    { split; [by rewrite length_replicate|]. by apply Forall_replicate. }
    apply Forall_forall. intros row Hrow.
    apply list_elem_of_fmap in Hrow as (b1 & -> & Hb1). apply elem_of_seq in Hb1.
    unfold bgraph_row.
    destruct (all_bonds L !! b1) as [[x y]|] eqn:Hxy.
    2:{ split; [by rewrite length_replicate|]. by apply Forall_replicate. }
    assert (0 <= x < Z.of_nat (total_atoms L)) as Hx.
    { rewrite Hab in Hxy. destruct b1 as [|b1]; [lia|]. simpl in Hxy.
      rewrite Forall_forall in Hrange. apply list_elem_of_lookup_2, Hrange in Hxy.
      simpl in Hxy. lia. }
    split.
    + apply pad_length. rewrite length_fmap.
      replace x with (Z.of_nat (Z.to_nat x)) by lia. apply Hdeg. lia.
    + unfold pad. apply Forall_app. split; [|by apply Forall_replicate].
      apply Forall_forall. intros b Hb'.
      apply list_elem_of_fmap in Hb' as (b2 & -> & Hb2).
      case_bool_decide; [by eapply Hb|done].
Qed.

(** X11.  The index tables of a returned graph fit its feature tables:
    [agraph] has one row per row of [fatoms] and [bgraph] one row per row
    of [fbonds]; all rows of both tables have one and the same width; and
    every entry is the index of a row of [fbonds]. *)
Theorem mol2graph_tables_in_range (mol_batch : list string)
    (addHs three_d virtual_edges : bool) (w w' : World) (g : Graph) :
  cache_wf w ->
  mol2graph mol_batch addHs three_d virtual_edges w = (w', Ok g) ->
  length (g_agraph g) = length (g_fatoms g)
  /\ length (g_bgraph g) = length (g_fbonds g)
  /\ exists width,
       Forall (fun row => length row = width
                          /\ Forall (fun b => (b < length (g_fbonds g))%nat) row)
              (g_agraph g ++ g_bgraph g).
Proof.
  intros Hwf E. apply mol2graph_locals in E as (L & ts & Ebuild & _ & _ & HinvL).
  by apply (build_graph_in_range L g (HinvL Hwf)).
Qed.

(** ** The widths of the feature rows *)

Lemma bond_pair_rows (three_d virtual_edges : bool) (mol : Mol)
    (mol_fatoms : list (list scalar)) distances_3d distances_path (a1 a2 : nat) acc acc' :
  Forall (fun row => length row = ATOM_FDIM) mol_fatoms ->
  (is_Some distances_3d <-> three_d = true) ->
  Forall (fun row => length row = (ATOM_FDIM + get_bond_fdim three_d virtual_edges)%nat) acc.1 ->
  bond_pair three_d virtual_edges mol mol_fatoms distances_3d distances_path a1 acc a2 = Ok acc' ->
  Forall (fun row => length row = (ATOM_FDIM + get_bond_fdim three_d virtual_edges)%nat) acc'.1.
Proof.
  intros Hfa Hd3 Hacc. destruct acc as [fb ab]. unfold bond_pair.
  destruct (bool_decide _ && negb virtual_edges); [by intros [= <-]|].
  intros E.
  apply result_bind_Ok in E as (fa1 & E1 & E).
  apply result_bind_Ok in E as (bf1 & Eb1 & E).
  apply result_bind_Ok in E as (fa2 & E2 & E).
  apply result_bind_Ok in E as (bf2 & Eb2 & E).
  injection E as <-. simpl in *.
  assert (forall bf bond, bond_features bond
            (if virtual_edges then Some (distances_path a1 a2) else None)
            (if three_d then (fun d => d a1 a2) <$> distances_3d else None) = Ok bf ->
          length bf = get_bond_fdim three_d virtual_edges) as Hbf.
  { intros bf bond Ebf.
    destruct (bond_features_Ok bond
                (if virtual_edges then Some (distances_path a1 a2) else None)
                (if three_d then (fun d => d a1 a2) <$> distances_3d else None))
      as (v & Ev & Hv).
    rewrite Ev in Ebf. injection Ebf as <-. rewrite Hv. unfold get_bond_fdim.
    destruct three_d, virtual_edges; simpl; try lia.
    all: destruct distances_3d; simpl; try lia.
    all: destruct Hd3 as [_ Hd3]; by destruct (Hd3 eq_refl). }
  assert (forall a fa, of_option IndexError (mol_fatoms !! a) = Ok fa -> length fa = ATOM_FDIM)
    as Hrow.
  { intros a fa Ea. destruct (mol_fatoms !! a) as [fa'|] eqn:Hl; [|discriminate].
    injection Ea as <-. rewrite Forall_forall in Hfa. by eapply Hfa, list_elem_of_lookup_2. }
  rewrite !Forall_app. repeat split; [done|..].
  - constructor; [|done]. rewrite length_app. erewrite Hrow, Hbf; done.
  - constructor; [|done]. rewrite length_app. erewrite Hrow, Hbf; done.
Qed.

Lemma bond_loops_rows (three_d virtual_edges : bool) (mol : Mol)
    (mol_fatoms : list (list scalar)) distances_3d distances_path (n : nat) fb ab :
  Forall (fun row => length row = ATOM_FDIM) mol_fatoms ->
  (is_Some distances_3d <-> three_d = true) ->
  bond_loops three_d virtual_edges mol mol_fatoms distances_3d distances_path n = Ok (fb, ab) ->
  Forall (fun row => length row = (ATOM_FDIM + get_bond_fdim three_d virtual_edges)%nat) fb.
Proof.
  intros Hfa Hd3 E. unfold bond_loops in E.
  change fb with (fb, ab).1.
  eapply (foldM_result_inv
            (fun acc : list (list scalar) * list (Z * Z) =>
               Forall (fun row => length row
                                  = (ATOM_FDIM + get_bond_fdim three_d virtual_edges)%nat) acc.1));
    [| |exact E]; [|done].
  intros acc a1 acc' _ Hacc E1.
  eapply (foldM_result_inv
            (fun acc : list (list scalar) * list (Z * Z) =>
               Forall (fun row => length row
                                  = (ATOM_FDIM + get_bond_fdim three_d virtual_edges)%nat) acc.1));
    [|exact Hacc|exact E1].
  intros b a2 b' _ Hb Eb. by eapply bond_pair_rows.
Qed.

Lemma prepare_mol_distances (addHs three_d : bool) (smiles : string) mol d3 :
  prepare_mol addHs three_d smiles = Ok (mol, d3) -> (is_Some d3 <-> three_d = true).
Proof.
  unfold prepare_mol. intros E. apply result_bind_Ok in E as (mol0 & _ & E).
  destruct three_d.
  - apply result_bind_Ok in E as (d & _ & E). injection E as <- <-. split; eauto.
  - injection E as <- <-. split; [by intros []|done].
Qed.

Lemma compute_features_rows (addHs three_d virtual_edges : bool) (smiles : string)
    (mf : MolFeatures) :
  compute_features addHs three_d virtual_edges smiles = Ok mf ->
  Forall (fun row => length row = ATOM_FDIM) (mol_fatoms mf)
  /\ Forall (fun row => length row = (ATOM_FDIM + get_bond_fdim three_d virtual_edges)%nat)
            (mol_fbonds mf).
Proof.
  unfold compute_features. intros E.
  apply result_bind_Ok in E as ([mol d3] & Eprep & E).
  apply result_bind_Ok in E as (fa & Efa & E).
  apply result_bind_Ok in E as ([fb ab] & Eloops & E).
  injection E as <-. simpl.
  assert (Forall (fun row => length row = ATOM_FDIM) fa) as Hfa.
  { eapply (result_mapM_Forall (fun _ => True)); [|by apply Forall_true|exact Efa].
    intros atom v _ Ev. destruct (atom_features_Ok atom) as (v' & Ev' & Hv').
    congruence. }
  split; [done|].
  eapply bond_loops_rows; [exact Hfa| |exact Eloops].
  by eapply prepare_mol_distances.
Qed.

(** One step of the loop keeps a property of the memoised tuples that
    every freshly computed tuple has. *)
Lemma batch_fold_cache (P : MolFeatures -> Prop) (addHs three_d virtual_edges : bool)
    (batch : list string) :
  (forall s t, compute_features addHs three_d virtual_edges s = Ok t -> P t) ->
  forall (L0 : Locals) (w w' : World) (r : result Locals),
    (forall s t, SMILES_TO_FEATURES w !! s = Some t -> P t) ->
    foldM (batch_body addHs three_d virtual_edges) batch L0 w = (w', r) ->
    forall s t, SMILES_TO_FEATURES w' !! s = Some t -> P t.
Proof.
  intros Hfresh. induction batch as [|s batch IH]; intros L0 w w' r Hw E.
  - injection E as <- _. done.
  - rewrite batch_fold_cons in E.
    destruct (mol_features addHs three_d virtual_edges s w) as [w1 [t|e]] eqn:Estep.
    + apply mol_features_step in Estep as (_ & _ & Htup & Hs & Hother).
      assert (forall s' t', SMILES_TO_FEATURES w1 !! s' = Some t' -> P t') as Hw1.
      { intros s' t' Hl. destruct (decide (s' = s)) as [->|Hne].
        - rewrite Hs in Hl. injection Hl as <-.
          destruct Htup as [Hhit|[_ Hcomp]]; [by eapply Hw|by eapply Hfresh].
        - rewrite Hother in Hl by done. by eapply Hw. }
      destruct (add_molecule L0 t); [by eapply IH|by injection E as <- _].
    + apply mol_features_step in Estep as (_ & _ & Heq & _).
      injection E as <- _. intros s' t'. rewrite Heq. apply Hw.
Qed.

Lemma mol2graph_keeps_cache (P : MolFeatures -> Prop) (mol_batch : list string)
    (addHs three_d virtual_edges : bool) (w w' : World) (r : result Graph) :
  (forall s t, compute_features addHs three_d virtual_edges s = Ok t -> P t) ->
  (forall s t, SMILES_TO_FEATURES w !! s = Some t -> P t) ->
  mol2graph mol_batch addHs three_d virtual_edges w = (w', r) ->
  forall s t, SMILES_TO_FEATURES w' !! s = Some t -> P t.
Proof.
  intros Hfresh Hw. rewrite mol2graph_unfold, batch_loop_unfold.
  destruct (foldM (batch_body addHs three_d virtual_edges) mol_batch
              (initial_locals three_d virtual_edges) w) as [w1 [L|e]] eqn:Eloop.
  - intros [= <- _]. by eapply batch_fold_cache.
  - intros [= <- _]. by eapply batch_fold_cache.
Qed.

(** The rows of the tuples the loop assembles. *)
Lemma tuples_rows (P : MolFeatures -> Prop) (addHs three_d virtual_edges : bool)
    (w w' : World) (batch : list string) (ts : list MolFeatures) :
  (forall s t, compute_features addHs three_d virtual_edges s = Ok t -> P t) ->
  (forall s t, SMILES_TO_FEATURES w !! s = Some t -> P t) ->
  Forall2 (fun s t => tuple_for addHs three_d virtual_edges w s t
                      /\ SMILES_TO_FEATURES w' !! s = Some t) batch ts ->
  Forall P ts.
Proof.
  intros Hfresh Hw Hts. apply Forall_lookup. intros i t Hi.
  destruct (Forall2_lookup_r _ _ _ _ _ Hts Hi) as (s & _ & [[Hhit|[_ Hcomp]] _]).
  - by eapply Hw.
  - by eapply Hfresh.
Qed.

Lemma build_graph_tables (L : Locals) (g : Graph) :
  build_graph L = Ok g ->
  g_fatoms g = fatoms L /\ g_fbonds g = fbonds L
  /\ exists r0, Forall (fun row => length row = length r0) (fbonds L)
                /\ head (fbonds L) = Some r0.
Proof.
  unfold build_graph. intros Ebuild.
  apply result_bind_Ok in Ebuild as (width & _ & Ebuild).
  apply result_bind_Ok in Ebuild as (fa & Efa & Ebuild).
  apply result_bind_Ok in Ebuild as (fb & Efb & Ebuild).
  apply result_bind_Ok in Ebuild as (ag & _ & Ebuild).
  apply result_bind_Ok in Ebuild as (bg & _ & Ebuild).
  injection Ebuild as <-. simpl.
  pose proof (torch_stack_Ok _ _ Efa) as [-> _].
  pose proof (torch_stack_Ok _ _ Efb) as [-> Hne].
  split; [done|]. split; [done|].
  destruct (fbonds L) as [|r0 rows] eqn:Hfb; [done|]. exists r0. split; [|done].
  by eapply torch_stack_widths.
Qed.

(** Every row of [fbonds] is as wide as the padding row. *)
Lemma mol2graph_fbonds_rows (mol_batch : list string) (addHs three_d virtual_edges : bool)
    (w w' : World) (g : Graph) :
  mol2graph mol_batch addHs three_d virtual_edges w = (w', Ok g) ->
  Forall (fun row => length row = (get_atom_fdim + get_bond_fdim three_d virtual_edges)%nat)
         (g_fbonds g).
Proof.
  intros E. apply mol2graph_locals in E as (L & ts & Ebuild & _ & Hfold & _).
  apply fold_add_molecule_concat in Hfold as (_ & Hfb & _).
  apply build_graph_tables in Ebuild as (_ & -> & r0 & Hrows & Hhead).
  rewrite Hfb in Hhead. cbn [initial_locals fbonds app head] in Hhead.
  apply (inj Some) in Hhead. subst r0.
  by rewrite length_replicate in Hrows.
Qed.

Lemma mol2graph_fatoms_rows (mol_batch : list string) (addHs three_d virtual_edges : bool)
    (w w' : World) (g : Graph) :
  cache_atom_rows w ->
  mol2graph mol_batch addHs three_d virtual_edges w = (w', Ok g) ->
  Forall (fun row => length row = get_atom_fdim) (g_fatoms g).
Proof.
  intros Hw E. apply mol2graph_locals in E as (L & ts & Ebuild & Hts & Hfold & _).
  apply fold_add_molecule_concat in Hfold as (Hfa & _).
  apply build_graph_tables in Ebuild as (-> & _).
  rewrite Hfa. simpl. apply Forall_concat, Forall_fmap.
  eapply (tuples_rows (fun t => Forall (fun row => length row = ATOM_FDIM) (mol_fatoms t)));
    [|exact Hw|exact Hts].
  intros s t Hcomp. by apply compute_features_rows in Hcomp as [? _].
Qed.

(** X12.  In a returned graph every row of [fbonds] has width
    [get_atom_fdim() + get_bond_fdim(three_d, virtual_edges)] for the flags
    of the call, whatever the dictionary held; and when the atom rows
    memoised so far have width [ATOM_FDIM], so have the rows of [fatoms] and
    the atom rows memoised afterwards. *)
Theorem mol2graph_row_widths (mol_batch : list string) (addHs three_d virtual_edges : bool)
    (w w' : World) (g : Graph) :
  mol2graph mol_batch addHs three_d virtual_edges w = (w', Ok g) ->
  Forall (fun row => length row = (get_atom_fdim + get_bond_fdim three_d virtual_edges)%nat)
         (g_fbonds g)
  /\ (cache_atom_rows w ->
      Forall (fun row => length row = get_atom_fdim) (g_fatoms g) /\ cache_atom_rows w').
Proof.
  intros E. split; [by eapply mol2graph_fbonds_rows|].
  intros Hw. split; [by eapply mol2graph_fatoms_rows|].
  intros s t Hs.
  refine (mol2graph_keeps_cache
            (fun t => Forall (fun row => length row = ATOM_FDIM) (mol_fatoms t))
            _ _ _ _ _ _ _ _ Hw E s t Hs).
  intros s0 t0 Hcomp. by apply compute_features_rows in Hcomp as [? _].
Qed.

(** X13.  The dictionary is keyed by the notation alone, and a tuple
    memoised under other distance flags does not fit: when a notation of
    the batch is memoised with a tuple that was computed under flags
    [three_d', virtual_edges'] and has at least one bond row, a call under
    different flags [three_d, virtual_edges] returns no graph. *)
Theorem mol2graph_stale_flags_raise (mol_batch : list string) (smiles : string)
    (addHs' three_d' virtual_edges' addHs three_d virtual_edges : bool)
    (w w' : World) (mf : MolFeatures) (r : result Graph) :
  smiles ∈ mol_batch ->
  SMILES_TO_FEATURES w !! smiles = Some mf ->
  compute_features addHs' three_d' virtual_edges' smiles = Ok mf ->
  mol_fbonds mf ≠ [] ->
  (three_d', virtual_edges') ≠ (three_d, virtual_edges) ->
  mol2graph mol_batch addHs three_d virtual_edges w = (w', r) ->
  exists e, r = Raise e.
Proof.
  intros Hin Hcached Hcomp Hne Hflags E.
  destruct r as [g|e]; [exfalso|by eexists].
  pose proof (mol2graph_fbonds_rows _ _ _ _ _ _ _ E) as Hrows.
  apply mol2graph_locals in E as (L & ts & Ebuild & Hts & Hfold & _).
  apply fold_add_molecule_concat in Hfold as (_ & Hfb & _).
  apply build_graph_tables in Ebuild as (_ & Hgfb & _). rewrite Hgfb in Hrows.
  apply list_elem_of_lookup in Hin as [i Hi].
  destruct (Forall2_lookup_l _ _ _ _ _ Hts Hi) as (t & Ht & Htup & _).
  rewrite (tuple_for_cached _ _ _ _ _ _ _ Htup Hcached) in Ht.
  destruct (mol_fbonds mf) as [|row rows] eqn:Hmf; [done|].
  assert (length row = (get_atom_fdim + get_bond_fdim three_d virtual_edges)%nat) as Hrow.
  { rewrite Hfb in Hrows. apply Forall_app in Hrows as [_ Hrows].
    apply Forall_concat in Hrows. rewrite Forall_fmap in Hrows.
    apply (Forall_lookup_1 _ _ _ _ Hrows) in Ht. simpl in Ht. rewrite Hmf in Ht.
    by apply Forall_cons_1 in Ht as [? _]. }
  apply compute_features_rows in Hcomp as [_ Hcomp]. rewrite Hmf in Hcomp.
  apply Forall_cons_1 in Hcomp as [Hcomp _].
  rewrite Hcomp in Hrow. unfold get_atom_fdim in Hrow.
  assert (get_bond_fdim three_d' virtual_edges' = get_bond_fdim three_d virtual_edges) as Hdim
    by lia.
  apply Hflags. clear -Hdim. unfold get_bond_fdim, BOND_FDIM in Hdim.
  destruct three_d', virtual_edges', three_d, virtual_edges; simpl in Hdim; done || lia.
Qed.

(** ** When the batcher returns, and what it raises *)

Lemma batch_fold_total (addHs three_d virtual_edges : bool) (batch : list string) :
  forall (L0 : Locals) (w : World),
    cache_wf w -> locals_inv L0 ->
    Forall (fun s => exists t, tuple_for addHs three_d virtual_edges w s t) batch ->
    exists w' L, foldM (batch_body addHs three_d virtual_edges) batch L0 w = (w', Ok L).
Proof.
  induction batch as [|smiles batch IH]; intros L0 w Hwf Hinv Hall.
  - exists w, L0. done.
  - apply Forall_cons_1 in Hall as [[t Ht] Hall]. rewrite batch_fold_cons.
    destruct (mol_features addHs three_d virtual_edges smiles w) as [w1 [mf|e]] eqn:Estep.
    + apply mol_features_step in Estep as (Hmono & _ & Hfor & Hhit & Hother).
      destruct (tuple_for_wf _ _ _ _ _ _ Hwf Hfor) as [Hmf Hparse].
      assert (cache_wf w1) as Hwf1.
      { intros s t' Hs. destruct (decide (s = smiles)) as [->|Hne].
        - rewrite Hhit in Hs. by injection Hs as <-.
        - rewrite Hother in Hs by done. by eapply Hwf. }
      destruct (add_molecule_Ok L0 mf Hinv Hmf) as (L1 & -> & Hinv1 & _).
      apply IH; [done|done|].
      eapply Forall_impl; [exact Hall|]. intros s [t' [Hc|[Hc Hcomp]]].
      * exists t'. left. by apply Hmono.
      * destruct (decide (s = smiles)) as [->|Hne].
        -- exists mf. by left.
        -- exists t'. right. split; [|done]. by rewrite Hother.
    + apply mol_features_step in Estep as (_ & _ & _ & Hmiss & Hcomp).
      destruct Ht as [Hc|[_ Hc]]; congruence.
Qed.

Lemma build_graph_total (L : Locals) (a b : nat) :
  locals_inv L -> (0 < total_atoms L)%nat ->
  Forall (fun row => length row = a) (fatoms L) ->
  Forall (fun row => length row = b) (fbonds L) ->
  exists g, build_graph L = Ok g.
Proof.
  intros (Hfa & Hfb & Hinv) Hpos Hfarows Hfbrows.
  pose proof Hinv as (Hlen & (rest & Hab & _) & _).
  unfold build_graph. cbv zeta.
  assert (py_max (length <$> in_bonds L) = Ok (max_list (length <$> in_bonds L))) as ->.
  { unfold py_max. destruct (in_bonds L); [simpl in Hlen; lia|done]. }
  cbn [mbind result_bind].
  rewrite (torch_stack_total (fatoms L) a); [|destruct (fatoms L); [simpl in Hfa; lia|done]|done].
  cbn [mbind result_bind].
  rewrite (torch_stack_total (fbonds L) b);
    [|destruct (fbonds L); [rewrite Hab in Hfb; done|done]|done].
  cbn [mbind result_bind].
  assert (forall bonds, bonds ∈ in_bonds L ->
            (length bonds <= max_list (length <$> in_bonds L))%nat) as Hwidth.
  { intros bonds Hb. apply max_list_elem_of_le. apply list_elem_of_fmap. eauto. }
  rewrite <- Hlen. rewrite fill_agraph_Ok by done. cbn [mbind result_bind].
  rewrite (fill_bgraph_Ok _ _ _ _ Hinv Hwidth). cbn [mbind result_bind]. eauto.
Qed.

Lemma build_graph_raises (L : Locals) (e : exn) :
  locals_inv L -> build_graph L = Raise e ->
  (e = ValueError_max_empty /\ total_atoms L = 0%nat) \/ e = RuntimeError_stack.
Proof.
  intros (Hfa & Hfb & Hinv). pose proof Hinv as (Hlen & _ & _).
  unfold build_graph. cbv zeta.
  destruct (decide (in_bonds L = [])) as [Hnil|Hne].
  { rewrite Hnil. intros [= <-]. left. split; [done|]. by rewrite <- Hlen, Hnil. }
  assert (py_max (length <$> in_bonds L) = Ok (max_list (length <$> in_bonds L))) as ->.
  { unfold py_max. by destruct (in_bonds L). }
  cbn [mbind result_bind].
  assert (forall rows : list (list scalar),
            torch_stack rows = Ok rows \/ torch_stack rows = Raise RuntimeError_stack)
    as Hstack.
  { intros [|r rs]; simpl; [by right|]. destruct (forallb _ rs); [by left|by right]. }
  destruct (Hstack (fatoms L)) as [->| ->]; [|intros [= <-]; by right].
  cbn [mbind result_bind].
  destruct (Hstack (fbonds L)) as [->| ->]; [|intros [= <-]; by right].
  cbn [mbind result_bind].
  assert (forall bonds, bonds ∈ in_bonds L ->
            (length bonds <= max_list (length <$> in_bonds L))%nat) as Hwidth.
  { intros bonds' Hb. apply max_list_elem_of_le. apply list_elem_of_fmap. eauto. }
  rewrite <- Hlen. rewrite fill_agraph_Ok by done. cbn [mbind result_bind].
  rewrite (fill_bgraph_Ok _ _ _ _ Hinv Hwidth). cbn [mbind result_bind]. done.
Qed.

(** X14.  When [mol2graph] returns a graph.  From a well-formed
    dictionary whose memoised rows have the widths of the flags of the
    call, [mol2graph] returns a graph as soon as every notation of the
    batch is memoised or can be featurised under these flags, and one of
    the molecules has an atom. *)
Theorem mol2graph_returns (mol_batch : list string) (addHs three_d virtual_edges : bool)
    (w : World) (smiles : string) (mf : MolFeatures) :
  cache_wf w -> cache_atom_rows w -> cache_bond_rows three_d virtual_edges w ->
  Forall (fun s => exists t, tuple_for addHs three_d virtual_edges w s t) mol_batch ->
  smiles ∈ mol_batch ->
  tuple_for addHs three_d virtual_edges w smiles mf ->
  (0 < n_atoms mf)%nat ->
  exists w' g, mol2graph mol_batch addHs three_d virtual_edges w = (w', Ok g).
Proof.
  intros Hwf Harows Hbrows Hall Hin Hmf Hatoms.
  destruct (batch_fold_total addHs three_d virtual_edges mol_batch
              (initial_locals three_d virtual_edges) w Hwf (initial_locals_inv _ _) Hall)
    as (w' & L & Eloop).
  rewrite mol2graph_unfold, batch_loop_unfold, Eloop.
  pose proof (batch_fold_wf _ _ _ _ _ _ _ _ Hwf (initial_locals_inv _ _) Eloop) as [_ HinvL].
  destruct (batch_fold_tuples _ _ _ _ _ _ _ _ Eloop) as (ts & Hts & Hfold).
  apply fold_add_molecule_concat in Hfold as (Hfa & Hfb & Htot).
  assert (Forall (fun t => Forall (fun row => length row = ATOM_FDIM) (mol_fatoms t)
                           /\ Forall (fun row => length row
                                        = (ATOM_FDIM + get_bond_fdim three_d virtual_edges)%nat)
                                     (mol_fbonds t)) ts) as Hrows.
  { eapply tuples_rows; [| |exact Hts].
    - intros s t. apply compute_features_rows.
    - intros s t Hs. split; [by eapply Harows|by eapply Hbrows]. }
  destruct (build_graph_total L ATOM_FDIM
              (ATOM_FDIM + get_bond_fdim three_d virtual_edges)%nat HinvL) as [g Eg].
  - rewrite Htot. cbn [initial_locals total_atoms].
    apply list_elem_of_lookup in Hin as [i Hi].
    destruct (Forall2_lookup_l _ _ _ _ _ Hts Hi) as (t & Ht & Htup & _).
    assert (t = mf) as -> by (by eapply tuple_for_agree).
    assert (n_atoms mf ∈ n_atoms <$> ts) as Hn.
    { apply list_elem_of_fmap. exists mf. split; [done|]. by eapply list_elem_of_lookup_2. }
    apply (sum_list_with_in _ id) in Hn. unfold id in Hn at 1. lia.
  - rewrite Hfa. cbn [initial_locals fatoms app]. apply Forall_concat, Forall_fmap.
    eapply Forall_impl; [exact Hrows|]. by intros t [? _].
  - rewrite Hfb. cbn [initial_locals fbonds app]. constructor; [by rewrite length_replicate|].
    apply Forall_concat, Forall_fmap.
    eapply Forall_impl; [exact Hrows|]. by intros t [_ ?].
  - exists w', g. by rewrite Eg.
Qed.

(** X15.  What [mol2graph] can raise from a well-formed dictionary: the
    toolkit's exception for a notation that does not parse, or, with
    [three_d], for a molecule without conformer; the [ValueError] of [max]
    when the batch has no atom at all; or the error of [torch.stack] on rows
    of different widths, which needs memoised rows of other widths.  It
    never raises an [IndexError]. *)
Theorem mol2graph_exceptions (mol_batch : list string) (addHs three_d virtual_edges : bool)
    (w w' : World) (e : exn) :
  cache_wf w ->
  mol2graph mol_batch addHs three_d virtual_edges w = (w', Raise e) ->
  (e = ArgumentError
   \/ (three_d = true /\ e = ValueError_bad_conformer)
   \/ e = ValueError_max_empty
   \/ (e = RuntimeError_stack
       /\ ~ (cache_atom_rows w /\ cache_bond_rows three_d virtual_edges w)))
  /\ e ≠ IndexError.
Proof.
  intros Hwf E.
  enough (e = ArgumentError
          \/ (three_d = true /\ e = ValueError_bad_conformer)
          \/ e = ValueError_max_empty
          \/ (e = RuntimeError_stack
              /\ ~ (cache_atom_rows w /\ cache_bond_rows three_d virtual_edges w))) as Hcases.
  { split; [done|]. destruct Hcases as [->|[[_ ->]|[->|[-> _]]]]; done. }
  rewrite mol2graph_unfold, batch_loop_unfold in E.
  destruct (foldM (batch_body addHs three_d virtual_edges) mol_batch
              (initial_locals three_d virtual_edges) w) as [w1 [L|e1]] eqn:Eloop.
  - pose proof (batch_fold_wf _ _ _ _ _ _ _ _ Hwf (initial_locals_inv _ _) Eloop) as [_ HinvL].
    injection E as <- Eg.
    destruct (build_graph_raises L e HinvL Eg) as [[-> Hzero]| ->]; [auto|].
    right. right. right. split; [done|]. intros [Harows Hbrows].
    destruct (batch_fold_tuples _ _ _ _ _ _ _ _ Eloop) as (ts & Hts & Hfold).
    apply fold_add_molecule_concat in Hfold as (Hfa & Hfb & Htot).
    assert (Forall (fun t => Forall (fun row => length row = ATOM_FDIM) (mol_fatoms t)
                             /\ Forall (fun row => length row
                                          = (ATOM_FDIM + get_bond_fdim three_d virtual_edges)%nat)
                                       (mol_fbonds t)) ts) as Hrows.
    { eapply tuples_rows; [| |exact Hts].
      - intros s t. apply compute_features_rows.
      - intros s t Hs. split; [by eapply Harows|by eapply Hbrows]. }
    destruct (decide (0 < total_atoms L)%nat) as [Hpos|Hzero].
    + destruct (build_graph_total L ATOM_FDIM
                  (ATOM_FDIM + get_bond_fdim three_d virtual_edges)%nat HinvL) as [g Eg'];
        [done| | |congruence].
      * rewrite Hfa. cbn [initial_locals fatoms app]. apply Forall_concat, Forall_fmap.
        eapply Forall_impl; [exact Hrows|]. by intros t [? _].
      * rewrite Hfb. cbn [initial_locals fbonds app]. constructor; [by rewrite length_replicate|].
        apply Forall_concat, Forall_fmap.
        eapply Forall_impl; [exact Hrows|]. by intros t [_ ?].
    + destruct HinvL as (_ & _ & Hlen & _).
      unfold build_graph in Eg. destruct (in_bonds L); [done|simpl in Hlen; lia].
  - pose proof (batch_fold_wf _ _ _ _ _ _ _ _ Hwf (initial_locals_inv _ _) Eloop) as [_ He].
    injection E as <- <-. destruct He as [->|[-> ->]]; auto.
Qed.

End ShapeFacts.

Lemma result_mapM_Forall_Ok {A B} (P : A -> Prop) (Q : B -> Prop) (f : A -> result B)
    (l : list A) :
  (forall a, P a -> exists b, f a = Ok b /\ Q b) ->
  Forall P l ->
  exists bs, result_mapM f l = Ok bs /\ length bs = length l /\ Forall Q bs.
Proof.
  intros Hf Hl. induction Hl as [|a l Ha _ (bs & E & Hlen & HQ)].
  - exists []. done.
  - destruct (Hf a Ha) as (b & Eb & Hb). exists (b :: bs). simpl. rewrite Eb, E. simpl.
    split; [done|]. split; [by rewrite Hlen|by constructor].
Qed.

(** ** The forward pass *)

Section ForwardFacts.
Context `{Scalar}.

Lemma vsum_length (width : nat) (vs : list (list scalar)) (v : list scalar) :
  vsum width vs = Ok v -> length v = width.
Proof.
  unfold vsum. intros E. apply foldM_vadd_length in E. by rewrite length_replicate in E.
Qed.

Lemma pool_molecule_length (m : MPN) (keep : nat -> nat -> bool)
    (atom_hiddens : list (list scalar)) (st le : nat) (v : list scalar) :
  pool_molecule m keep atom_hiddens st le = Ok v -> length v = out_features (W_o m).
Proof.
  unfold pool_molecule. cbv zeta. intros E.
  apply result_bind_Ok in E as (cur & _ & E).
  apply result_bind_Ok in E as (vec & _ & E).
  apply result_bind_Ok in E as (s & Es & E).
  injection E as <-. rewrite length_map. by eapply vsum_length.
Qed.

Lemma pooling_fold_shape (m : MPN) (rng : nat -> nat -> nat -> bool)
    (atom_hiddens : list (list scalar)) (scope : list (nat * nat)) :
  forall (acc : list (list scalar)) (k : nat) acc' k',
    foldM (fun '(mol_vecs, k) '(st, le) =>
             mol_vec ← pool_molecule m (rng k) atom_hiddens st le;
             Ok (mol_vecs ++ [mol_vec], if attention m then S k else k))
          scope (acc, k) = Ok (acc', k') ->
    Forall (fun v => length v = out_features (W_o m)) acc ->
    length acc' = (length acc + length scope)%nat
    /\ Forall (fun v => length v = out_features (W_o m)) acc'.
Proof.
  induction scope as [|[st le] scope IH]; intros acc k acc' k' E Hacc.
  - injection E as <- <-. simpl. split; [lia|done].
  - cbn [foldM] in E. apply result_bind_Ok in E as ([acc1 k1] & E1 & E).
    apply result_bind_Ok in E1 as (v & Ev & E1). injection E1 as <- <-.
    apply pool_molecule_length in Ev.
    destruct (IH _ _ _ _ E) as [Hlen Hall].
    { apply Forall_app. split; [done|]. by constructor. }
    split; [|done]. rewrite Hlen, length_app. simpl. lia.
Qed.

(** X16.  The shape of what [forward] returns: one vector per entry of
    the scope, hence per molecule of the batch, each as wide as the output
    of [W_o]; and the scope was not empty. *)
Theorem forward_shape (m : MPN) (rng : nat -> nat -> nat -> bool) (mol_graph : Graph)
    (mol_vecs : list (list scalar)) :
  forward m rng mol_graph = Ok mol_vecs ->
  length mol_vecs = length (g_scope mol_graph)
  /\ Forall (fun v => length v = out_features (W_o m)) mol_vecs
  /\ g_scope mol_graph ≠ [].
Proof.
  unfold forward. intros E.
  apply result_bind_Ok in E as ([binput message] & _ & E).
  apply result_bind_Ok in E as (message' & _ & E).
  apply result_bind_Ok in E as (atom_hiddens & _ & E).
  unfold pooling in E.
  apply result_bind_Ok in E as ([vecs k] & Efold & E).
  apply pooling_fold_shape in Efold as [Hlen Hall]; [|done].
  apply torch_stack_Ok in E as [-> Hne]. simpl in Hlen.
  split; [done|]. split; [done|].
  intros Hnil. rewrite Hnil in Hlen. by destruct vecs.
Qed.

Lemma dropout_layer_eval (m : MPN) (keep : nat -> nat -> bool) (x : list (list scalar)) :
  training m = false -> dropout_layer m keep x = x.
Proof. unfold dropout_layer. by intros ->. Qed.

Lemma result_bind_ext {A B} (r r' : result A) (f g : A -> result B) :
  r = r' -> (forall a, f a = g a) -> r ≫= f = r' ≫= g.
Proof. intros <- Hfg. destruct r; [apply Hfg|done]. Qed.

Lemma message_round_eval (m : MPN) (keep keep' : nat -> nat -> bool)
    (bgraph : list (list nat)) (binput message : list (list scalar)) :
  training m = false ->
  message_round m keep bgraph binput message = message_round m keep' bgraph binput message.
Proof.
  intros Heval. unfold message_round.
  repeat (apply result_bind_ext; [done|intros ?]).
  by rewrite !dropout_layer_eval.
Qed.

Lemma message_rounds_eval (m : MPN) (rng rng' : nat -> nat -> nat -> bool)
    (bgraph : list (list nat)) (binput : list (list scalar)) (rounds : nat) :
  training m = false ->
  forall k k' message,
    message_rounds m rng bgraph binput rounds k message
    = message_rounds m rng' bgraph binput rounds k' message.
Proof.
  intros Heval. induction rounds as [|rounds IH]; intros k k' message; [done|].
  cbn [message_rounds]. apply result_bind_ext; [by apply message_round_eval|].
  intros message'. apply IH.
Qed.

Lemma atom_aggregation_eval (m : MPN) (keep keep' : nat -> nat -> bool)
    (fatoms : list (list scalar)) (agraph : list (list nat)) (message : list (list scalar)) :
  training m = false ->
  atom_aggregation m keep fatoms agraph message
  = atom_aggregation m keep' fatoms agraph message.
Proof.
  intros Heval. unfold atom_aggregation.
  repeat (apply result_bind_ext; [done|intros ?]).
  by rewrite !dropout_layer_eval.
Qed.

Lemma pool_molecule_eval (m : MPN) (keep keep' : nat -> nat -> bool)
    (atom_hiddens : list (list scalar)) (st le : nat) :
  training m = false ->
  pool_molecule m keep atom_hiddens st le = pool_molecule m keep' atom_hiddens st le.
Proof.
  intros Heval. unfold pool_molecule. cbv zeta.
  apply result_bind_ext; [done|intros cur].
  apply result_bind_ext; [|done].
  destruct (attention m); [|done].
  repeat (apply result_bind_ext; [done|intros ?]).
  by rewrite !dropout_layer_eval.
Qed.

Lemma pooling_eval (m : MPN) (rng rng' : nat -> nat -> nat -> bool) (k k' : nat)
    (atom_hiddens : list (list scalar)) (scope : list (nat * nat)) :
  training m = false ->
  pooling m rng k atom_hiddens scope = pooling m rng' k' atom_hiddens scope.
Proof.
  intros Heval. unfold pooling.
  enough (forall acc k k',
            (foldM (fun '(mol_vecs, k) '(st, le) =>
                      mol_vec ← pool_molecule m (rng k) atom_hiddens st le;
                      Ok (mol_vecs ++ [mol_vec], if attention m then S k else k))
                   scope (acc, k)) ≫= (fun '(mol_vecs, _) => torch_stack mol_vecs)
            = (foldM (fun '(mol_vecs, k) '(st, le) =>
                        mol_vec ← pool_molecule m (rng' k) atom_hiddens st le;
                        Ok (mol_vecs ++ [mol_vec], if attention m then S k else k))
                     scope (acc, k')) ≫= (fun '(mol_vecs, _) => torch_stack mol_vecs))
    as Hfold by apply Hfold.
  induction scope as [|[st le] scope IH]; intros acc k0 k0'; [done|].
  cbn [foldM].
  rewrite (pool_molecule_eval m (rng k0) (rng' k0') atom_hiddens st le Heval).
  destruct (pool_molecule m (rng' k0') atom_hiddens st le) as [v|e]; [|done].
  cbn [mbind result_bind]. apply IH.
Qed.

(** X17.  In evaluation mode ([training] off) the dropout layer is the
    identity, so the result of [forward] does not depend on the random
    draws: any two sources of draws give the same result, value or
    exception. *)
Theorem forward_eval_ignores_draws (m : MPN) (rng rng' : nat -> nat -> nat -> bool)
    (mol_graph : Graph) :
  training m = false ->
  forward m rng mol_graph = forward m rng' mol_graph.
Proof.
  intros Heval. unfold forward.
  apply result_bind_ext; [done|intros [binput message]].
  apply result_bind_ext; [by apply message_rounds_eval|intros message'].
  apply result_bind_ext; [by apply atom_aggregation_eval|intros atom_hiddens].
  by apply pooling_eval.
Qed.

(** X18.  A depth of 1 or less, zero and negative depths included, is
    accepted and makes no message passing round ([range(depth - 1)] is
    empty): [forward] is the depth-one computation. *)
Theorem forward_depth_at_most_one (m : MPN) (rng : nat -> nat -> nat -> bool)
    (mol_graph : Graph) :
  depth m <= 1 ->
  forward m rng mol_graph = forward_depth_one m rng mol_graph.
Proof.
  intros Hdepth. unfold forward, forward_depth_one, initial_message.
  replace (Z.to_nat (depth m - 1)) with 0%nat by lia.
  destruct (linear_rows (W_i m) (g_fbonds mol_graph)) as [binput|e]; [|done].
  reflexivity.
Qed.


Lemma dot_Ok (x w : list scalar) : length x = length w -> exists s, dot x w = Ok s.
Proof. intros Hlen. unfold dot. rewrite decide_True by done. eauto. Qed.

Lemma linear_Ok (L : Linear) (n_in n_out : nat) (x : list scalar) :
  linear_fits L n_in n_out -> length x = n_in ->
  exists y, linear L x = Ok y /\ length y = n_out.
Proof.
  intros [[Hrows Hcols] Hbias] Hx. unfold linear.
  destruct (result_mapM_Forall_Ok (fun row => length row = n_in) (fun _ => True)
              (dot x) (weight L)) as (y & -> & Hy & _); [|done|].
  { intros row Hrow. destruct (dot_Ok x row) as [s Es]; [congruence|]. eauto. }
  simpl. destruct (bias L) as [b|] eqn:Hb.
  - unfold vadd. rewrite decide_True by (rewrite (Hbias b); [lia|done]).
    eexists. split; [done|]. rewrite length_zip_with, (Hbias b) by done. lia.
  - exists y. split; [done|lia].
Qed.

Lemma linear_rows_Ok (L : Linear) (n_in n_out rows : nat) (X : list (list scalar)) :
  linear_fits L n_in n_out -> mat rows n_in X ->
  exists Y, linear_rows L X = Ok Y /\ mat rows n_out Y.
Proof.
  intros HL [Hrows Hcols]. unfold linear_rows.
  destruct (result_mapM_Forall_Ok (fun row => length row = n_in)
              (fun row => length row = n_out) (linear L) X) as (Y & E & Hlen & HY);
    [|done|].
  { intros x Hx. by eapply linear_Ok. }
  exists Y. split; [done|]. split; [lia|done].
Qed.

Lemma activate_mat (m : MPN) (rows cols : nat) (X : list (list scalar)) :
  mat rows cols X -> mat rows cols (activate m X).
Proof.
  intros [Hrows Hcols]. unfold activate. split; [by rewrite length_fmap|].
  apply Forall_fmap. eapply Forall_impl; [exact Hcols|]. intros row Hrow. simpl.
  by rewrite length_fmap.
Qed.

Lemma dropout_layer_mat (m : MPN) (keep : nat -> nat -> bool) (rows cols : nat)
    (X : list (list scalar)) :
  mat rows cols X -> mat rows cols (dropout_layer m keep X).
Proof.
  intros [Hrows Hcols]. unfold dropout_layer. destruct (training m); [|done].
  split; [by rewrite length_imap|].
  apply Forall_lookup. intros i row. rewrite list_lookup_imap.
  destruct (X !! i) as [row'|] eqn:Hi; [|done]. intros [= <-].
  rewrite length_imap. by eapply (Forall_lookup_1 _ _ _ _ Hcols).
Qed.

Lemma index_select_ND_Ok (source : list (list scalar)) (index : list (list nat)) (cols : nat) :
  Forall (fun row => length row = cols) source ->
  Forall (Forall (fun i => (i < length source)%nat)) index ->
  exists gathered, index_select_ND source index = Ok gathered
                   /\ length gathered = length index
                   /\ Forall (Forall (fun v => length v = cols)) gathered.
Proof.
  intros Hsource Hindex. unfold index_select_ND.
  apply (result_mapM_Forall_Ok (Forall (fun i => (i < length source)%nat)));
    [|done].
  intros row Hrow.
  destruct (result_mapM_Forall_Ok (fun i => (i < length source)%nat)
              (fun v : list scalar => length v = cols)
              (fun i => of_option IndexError (source !! i)) row) as (vs & E & _ & Hvs);
    [|done|by eauto].
  intros i Hi. destruct (lookup_lt_is_Some_2 _ _ Hi) as [v Hv]. rewrite Hv.
  exists v. split; [done|]. by eapply (Forall_lookup_1 _ _ _ _ Hsource).
Qed.

Lemma vsum_Ok (width : nat) (vs : list (list scalar)) :
  Forall (fun v => length v = width) vs ->
  exists v, vsum width vs = Ok v /\ length v = width.
Proof.
  unfold vsum. generalize (length_replicate width (of_Z 0)).
  generalize (replicate width (of_Z 0)). intros acc Hacc Hvs. revert acc Hacc.
  induction Hvs as [|x vs Hx _ IH]; intros acc Hacc.
  - exists acc. done.
  - cbn [foldM]. unfold vadd at 2. rewrite decide_True by lia. simpl.
    apply IH. rewrite length_zip_with. lia.
Qed.

Lemma vadd_rows_Ok (rows cols : nat) (X Y : list (list scalar)) :
  mat rows cols X -> mat rows cols Y ->
  exists Z, result_mapM (fun '(x, y) => vadd x y) (zip X Y) = Ok Z /\ mat rows cols Z.
Proof.
  intros [HX HXc] [HY HYc].
  destruct (result_mapM_Forall_Ok
              (fun p : list scalar * list scalar => length p.1 = cols /\ length p.2 = cols)
              (fun z => length z = cols) (fun '(x, y) => vadd x y) (zip X Y))
    as (Z & E & Hlen & HZ).
  - intros [x y] [Hx Hy]. simpl in *. unfold vadd. rewrite decide_True by lia.
    eexists. split; [done|]. rewrite length_zip_with. lia.
  - apply Forall_forall. intros [x y] Hin. simpl.
    rewrite Forall_forall in HXc, HYc. split.
    + by eapply HXc, elem_of_zip_l.
    + by eapply HYc, elem_of_zip_r.
  - exists Z. split; [done|]. split; [|done]. rewrite Hlen, length_zip. lia.
Qed.

Lemma message_attend_Ok (m : MPN) (nei : list (list scalar)) :
  linear_fits (W_ma1 m) (hidden_size m) 1 ->
  Forall (fun v => length v = hidden_size m) nei ->
  exists r, message_attend m nei = Ok r /\ Forall (fun v => length v = hidden_size m) r.
Proof.
  intros Hfit Hnei. unfold message_attend.
  destruct (result_mapM_Forall_Ok (fun v => length v = hidden_size m) (fun _ => True)
              (fun v => s ← linear (W_ma1 m) v;
                        match s with
                        | [s] => Ok s
                        | _ => Raise RuntimeError_shape
                        end) nei) as (scores & -> & _ & _); [|done|].
  { intros v Hv. destruct (linear_Ok _ _ _ v Hfit Hv) as (s & -> & Hs). simpl.
    destruct s as [|s [|]]; try done. eauto. }
  simpl.
  destruct (result_mapM_Forall_Ok
              (fun p : list scalar * scalar => length p.1 = hidden_size m)
              (fun v => length v = hidden_size m)
              (fun '(v, w) => vmul v (replicate (hidden_size m) w))
              (zip nei (softmax scores))) as (r & E & _ & Hr).
  - intros [v w] Hv. simpl in Hv. unfold vmul.
    rewrite decide_True by (by rewrite length_replicate).
    eexists. split; [done|]. rewrite length_zip_with, length_replicate. lia.
  - by apply (Forall_zip_fst (fun v : list scalar => length v = hidden_size m)).
  - eauto.
Qed.

Lemma message_round_Ok (m : MPN) (keep : nat -> nat -> bool) (bgraph : list (list nat))
    (binput message : list (list scalar)) (three_d virtual_edges : bool) `{!Toolkit} :
  network_fits m three_d virtual_edges ->
  mat (length bgraph) (hidden_size m) binput ->
  mat (length bgraph) (hidden_size m) message ->
  Forall (Forall (fun b => (b < length bgraph)%nat)) bgraph ->
  exists message', message_round m keep bgraph binput message = Ok message'
                   /\ mat (length bgraph) (hidden_size m) message'.
Proof.
  intros (HWi & HWh & _ & _ & HWma) Hbin [Hmlen Hmcols] Hbg. unfold message_round.
  assert (out_features (W_i m) = hidden_size m) as -> by apply HWi.
  destruct (index_select_ND_Ok message bgraph (hidden_size m)) as (G & -> & HGlen & HG);
    [done|by rewrite Hmlen|]. simpl.
  assert (exists G', (if message_attention m then result_mapM (message_attend m) G else Ok G)
                     = Ok G'
                     /\ length G' = length bgraph
                     /\ Forall (Forall (fun v => length v = hidden_size m)) G')
    as (G' & -> & HG'len & HG').
  { destruct (message_attention m); [|by eauto].
    destruct (result_mapM_Forall_Ok (Forall (fun v => length v = hidden_size m))
                (Forall (fun v => length v = hidden_size m)) (message_attend m) G)
      as (G' & E & Hlen & HG'); [|done|].
    - intros nei Hnei. apply message_attend_Ok; [by apply HWma|done].
    - exists G'. split; [done|]. split; [lia|done]. }
  simpl.
  destruct (result_mapM_Forall_Ok (Forall (fun v => length v = hidden_size m))
              (fun v => length v = hidden_size m) (vsum (hidden_size m)) G')
    as (N & -> & HNlen & HN); [by apply vsum_Ok|done|]. simpl.
  destruct (linear_rows_Ok (W_h m) (hidden_size m) (hidden_size m) (length bgraph) N HWh)
    as (N' & -> & HN'); [split; [lia|done]|]. simpl.
  rewrite decide_True by (destruct Hbin, HN'; lia). simpl.
  destruct (vadd_rows_Ok _ _ _ _ Hbin HN') as (Z & -> & HZ). simpl.
  eexists. split; [done|]. by apply dropout_layer_mat, activate_mat.
Qed.

Lemma message_rounds_Ok (m : MPN) (rng : nat -> nat -> nat -> bool) (bgraph : list (list nat))
    (binput : list (list scalar)) (three_d virtual_edges : bool) `{!Toolkit} (rounds : nat) :
  network_fits m three_d virtual_edges ->
  mat (length bgraph) (hidden_size m) binput ->
  Forall (Forall (fun b => (b < length bgraph)%nat)) bgraph ->
  forall k message,
    mat (length bgraph) (hidden_size m) message ->
    exists message', message_rounds m rng bgraph binput rounds k message = Ok message'
                     /\ mat (length bgraph) (hidden_size m) message'.
Proof.
  intros Hfit Hbin Hbg. induction rounds as [|rounds IH]; intros k message Hm.
  - exists message. done.
  - cbn [message_rounds].
    destruct (message_round_Ok m (rng k) bgraph binput message three_d virtual_edges
                Hfit Hbin Hm Hbg) as (message1 & -> & Hm1).
    simpl. by apply IH.
Qed.

Lemma atom_aggregation_Ok (m : MPN) (keep : nat -> nat -> bool)
    (fatoms : list (list scalar)) (agraph : list (list nat)) (message : list (list scalar))
    (three_d virtual_edges : bool) `{!Toolkit} (n_bonds : nat) :
  network_fits m three_d virtual_edges ->
  mat (length agraph) get_atom_fdim fatoms ->
  mat n_bonds (hidden_size m) message ->
  Forall (Forall (fun b => (b < n_bonds)%nat)) agraph ->
  exists atom_hiddens, atom_aggregation m keep fatoms agraph message = Ok atom_hiddens
                       /\ mat (length agraph) (hidden_size m) atom_hiddens.
Proof.
  intros (HWi & _ & HWo & _) [Hfalen Hfacols] [Hmlen Hmcols] Hag. unfold atom_aggregation.
  assert (out_features (W_i m) = hidden_size m) as -> by apply HWi.
  destruct (index_select_ND_Ok message agraph (hidden_size m)) as (G & -> & HGlen & HG);
    [done|by rewrite Hmlen|]. simpl.
  destruct (result_mapM_Forall_Ok (Forall (fun v => length v = hidden_size m))
              (fun v => length v = hidden_size m) (vsum (hidden_size m)) G)
    as (N & -> & HNlen & HN); [by apply vsum_Ok|done|]. simpl.
  rewrite decide_True by lia. simpl.
  destruct (linear_rows_Ok (W_o m) (get_atom_fdim + hidden_size m) (hidden_size m)
              (length agraph) (zip_with app fatoms N) HWo) as (Y & -> & HY).
  { split; [rewrite length_zip_with; lia|].
    apply Forall_lookup. intros i row Hi.
    apply lookup_zip_with_Some in Hi as (fa & n & -> & Hfa & Hn).
    rewrite length_app.
    rewrite (Forall_lookup_1 _ _ _ _ Hfacols Hfa), (Forall_lookup_1 _ _ _ _ HN Hn). done. }
  simpl. eexists. split; [done|]. by apply dropout_layer_mat, activate_mat.
Qed.

Lemma pool_molecule_Ok (m : MPN) (keep : nat -> nat -> bool)
    (atom_hiddens : list (list scalar)) (st le : nat) (three_d virtual_edges : bool)
    `{!Toolkit} :
  network_fits m three_d virtual_edges ->
  Forall (fun row => length row = hidden_size m) atom_hiddens ->
  (st + le <= length atom_hiddens)%nat ->
  exists mol_vec, pool_molecule m keep atom_hiddens st le = Ok mol_vec.
Proof.
  intros (_ & _ & HWo & Hatt & _) Hcols Hfit. unfold pool_molecule. cbv zeta.
  assert (out_features (W_o m) = hidden_size m) as -> by apply HWo.
  unfold narrow. rewrite decide_True by done. simpl.
  set (cur := take le (drop st atom_hiddens)).
  assert (mat le (hidden_size m) cur) as Hcur.
  { split; [unfold cur; rewrite length_take, length_drop; lia|].
    by apply Forall_take, Forall_drop. }
  assert (forall mol_vec,
            mat le (hidden_size m) mol_vec ->
            exists v, (mol_vec ← vsum (hidden_size m) mol_vec;
                       Ok (map (fun v => sdiv v (of_Z (Z.of_nat le))) mol_vec)) = Ok v)
    as Hsum.
  { intros mol_vec Hvec.
    destruct (vsum_Ok (hidden_size m) mol_vec) as (v & -> & _); [apply Hvec|].
    simpl. eauto. }
  destruct (attention m); [|by apply Hsum].
  destruct Hatt as [HWa HWb]; [done|].
  destruct (linear_rows_Ok (W_a m) _ _ _ cur HWa Hcur) as (query & -> & Hq).
  cbn [mbind result_bind].
  destruct (result_mapM_Forall_Ok (fun q => length q = hidden_size m) (fun _ => True)
              (fun q => result_mapM (dot q) cur) query) as (att_w & -> & Hawlen & _);
    [|apply Hq|].
  { intros q Hq'.
    destruct (result_mapM_Forall_Ok (fun c => length c = hidden_size m) (fun _ => True)
                (dot q) cur) as (ws & E & _ & _); [|apply Hcur|by eauto].
    intros c Hc. destruct (dot_Ok q c) as [s Es]; [congruence|]. eauto. }
  cbn [mbind result_bind].
  destruct (result_mapM_Forall_Ok (fun _ => True) (fun v => length v = hidden_size m)
              (fun ws => vsum (hidden_size m) (zip_with (fun w h => map (smul w) h) ws cur))
              (map softmax att_w)) as (att_h & -> & Hahlen & Hah);
    [|by apply Forall_true|].
  { intros ws _. apply vsum_Ok. apply Forall_lookup. intros i v Hi.
    apply lookup_zip_with_Some in Hi as (w & h & -> & _ & Hh).
    rewrite length_map. destruct Hcur as [_ Hcur].
    by apply (Forall_lookup_1 _ _ _ _ Hcur Hh). }
  cbn [mbind result_bind].
  destruct (linear_rows_Ok (W_b m) (hidden_size m) (hidden_size m) le att_h HWb)
    as (att_h' & -> & Hah').
  { split; [|done]. rewrite Hahlen, length_map, Hawlen. apply Hq. }
  cbn [mbind result_bind].
  pose proof (dropout_layer_mat m keep _ _ _ (activate_mat m _ _ _ Hah')) as Hdrop.
  rewrite decide_True by (destruct Hcur, Hdrop; lia). cbn [mbind result_bind].
  destruct (vadd_rows_Ok _ _ _ _ Hcur Hdrop) as (mol_vec & -> & Hvec).
  cbn [mbind result_bind]. by apply Hsum.
Qed.

Lemma pooling_Ok (m : MPN) (rng : nat -> nat -> nat -> bool) (k : nat)
    (atom_hiddens : list (list scalar)) (scope : list (nat * nat))
    (three_d virtual_edges : bool) `{!Toolkit} :
  network_fits m three_d virtual_edges ->
  Forall (fun row => length row = hidden_size m) atom_hiddens ->
  Forall (fun '(st, le) => (st + le <= length atom_hiddens)%nat) scope ->
  scope ≠ [] ->
  exists mol_vecs, pooling m rng k atom_hiddens scope = Ok mol_vecs
                   /\ mat (length scope) (hidden_size m) mol_vecs.
Proof.
  intros Hfit Hcols Hscope Hne. unfold pooling.
  assert (out_features (W_o m) = hidden_size m) as HWo by apply Hfit.
  assert (forall acc k0,
            Forall (fun v => length v = hidden_size m) acc ->
            exists acc' k',
              foldM (fun '(mol_vecs, k) '(st, le) =>
                       mol_vec ← pool_molecule m (rng k) atom_hiddens st le;
                       Ok (mol_vecs ++ [mol_vec], if attention m then S k else k))
                    scope (acc, k0) = Ok (acc', k')
              /\ mat (length acc + length scope) (hidden_size m) acc') as Hfold.
  { clear Hne. induction Hscope as [|[st le] scope Hfits _ IH]; intros acc k0 Hacc.
    - exists acc, k0. split; [done|]. split; [simpl; lia|done].
    - cbn [foldM].
      destruct (pool_molecule_Ok m (rng k0) atom_hiddens st le three_d virtual_edges
                  Hfit Hcols Hfits) as (v & Ev).
      rewrite Ev. cbn [mbind result_bind].
      destruct (IH (acc ++ [v]) (if attention m then S k0 else k0))
        as (acc' & k' & E & Hlen & Hacc').
      { apply Forall_app. split; [done|]. constructor; [|done].
        apply pool_molecule_length in Ev. congruence. }
      exists acc', k'. split; [done|]. split; [|done].
      rewrite Hlen, length_app. simpl. lia. }
  destruct (Hfold [] k) as (vecs & k' & -> & Hlen & Hvecs); [done|]. simpl.
  rewrite (torch_stack_total vecs (hidden_size m)); [|by destruct vecs, scope|done].
  exists vecs. done.
Qed.

(** A network dimensioned for the flags of a graph accepts the graph. *)
Lemma forward_fits (m : MPN) (rng : nat -> nat -> nat -> bool) (g : Graph)
    (three_d virtual_edges : bool) `{!Toolkit} :
  network_fits m three_d virtual_edges ->
  graph_fits g three_d virtual_edges ->
  exists mol_vecs, forward m rng g = Ok mol_vecs
                   /\ mat (length (g_scope g)) (hidden_size m) mol_vecs.
Proof.
  intros Hfit (Hfa & Hfb & Hag & Hbg & Hidx & Hscope & Hne).
  apply Forall_app in Hidx as [Hagidx Hbgidx].
  unfold forward, initial_message.
  destruct (linear_rows_Ok (W_i m) (get_atom_fdim + get_bond_fdim three_d virtual_edges)
              (hidden_size m) (length (g_bgraph g)) (g_fbonds g))
    as (binput & -> & Hbin); [apply Hfit|by split|].
  cbn [mbind result_bind].
  rewrite <- Hbg in Hbgidx.
  destruct (message_rounds_Ok m rng (g_bgraph g) binput three_d virtual_edges
              (Z.to_nat (depth m - 1)) Hfit Hbin Hbgidx 0%nat (activate m binput))
    as (message & -> & Hmsg); [by apply activate_mat|].
  cbn [mbind result_bind].
  destruct (atom_aggregation_Ok m (rng (Z.to_nat (depth m - 1))) (g_fatoms g) (g_agraph g)
              message three_d virtual_edges (length (g_bgraph g)) Hfit)
    as (atom_hiddens & -> & Hah); [by split|done|by rewrite Hbg|].
  cbn [mbind result_bind].
  apply (pooling_Ok m rng _ atom_hiddens (g_scope g) three_d virtual_edges Hfit);
    [apply Hah| |done].
  destruct Hah as [Hlen _]. by rewrite Hlen, Hag.
Qed.



End ForwardFacts.

(** ** The network on the graphs of the batcher: shapes *)

Section PipelineFacts.
Context `{Scalar} `{!Toolkit}.

Lemma mol2graph_graph_fits (mol_batch : list string) (addHs three_d virtual_edges : bool)
    (w w' : World) (g : Graph) :
  cache_wf w -> cache_atom_rows w ->
  mol2graph mol_batch addHs three_d virtual_edges w = (w', Ok g) ->
  graph_fits g three_d virtual_edges /\ length (g_scope g) = length mol_batch.
Proof.
  intros Hwf Harows E.
  pose proof (mol2graph_fbonds_rows _ _ _ _ _ _ _ E) as Hfb.
  pose proof (mol2graph_fatoms_rows _ _ _ _ _ _ _ Harows E) as Hfa.
  apply mol2graph_locals in E as (L & ts & Ebuild & Hts & Hfold & HinvL).
  specialize (HinvL Hwf).
  destruct (build_graph_in_range L g HinvL Ebuild) as (Hag & Hbg & width & Hidx).
  destruct (build_graph_Ok L g HinvL Ebuild) as (Hgfa & _ & Hgsc & _ & _ & Hpos).
  destruct (fold_add_molecule_scope ts _ L (initial_locals_scope _ _) Hfold)
    as [Hsc Hlen].
  pose proof (scope_contiguous_fits L Hsc) as Hfits.
  destruct HinvL as (HLfa & _).
  assert (length (g_scope g) = length mol_batch) as Hscope.
  { rewrite Hgsc, Hlen. simpl. symmetry. by eapply Forall2_length. }
  split; [|done].
  split; [done|]. split; [done|]. split; [done|]. split; [done|]. split; [|split].
  - eapply Forall_impl; [exact Hidx|]. by intros row [_ ?].
  - by rewrite Hgsc, Hgfa, HLfa.
  - destruct Hsc as [_ Hsum]. rewrite Hgsc. intros Hnil. rewrite Hnil in Hsum.
    simpl in Hsum. lia.
Qed.

(** X19.  A network whose layers have the dimensions [MPN.__init__]
    gives them for the flags [three_d] and [virtual_edges] accepts every
    graph [mol2graph] returns under these flags (from a well-formed
    dictionary whose memoised atom rows have width [ATOM_FDIM]): [forward]
    returns, whatever the depth, the attention switches and the dropout
    draws, one vector of [hidden_size] entries per notation of the batch. *)
Theorem forward_accepts_mol2graph (mol_batch : list string)
    (addHs three_d virtual_edges : bool) (w w' : World) (g : Graph)
    (m : MPN) (rng : nat -> nat -> nat -> bool) :
  cache_wf w -> cache_atom_rows w ->
  mol2graph mol_batch addHs three_d virtual_edges w = (w', Ok g) ->
  network_fits m three_d virtual_edges ->
  exists mol_vecs,
    forward m rng g = Ok mol_vecs
    /\ length mol_vecs = length mol_batch
    /\ Forall (fun v => length v = hidden_size m) mol_vecs.
Proof.
  intros Hwf Harows E Hfit.
  destruct (mol2graph_graph_fits _ _ _ _ _ _ _ Hwf Harows E) as [Hg Hscope].
  destruct (forward_fits m rng g three_d virtual_edges Hfit Hg) as (mol_vecs & Ef & Hlen & Hcols).
  exists mol_vecs. split; [done|]. split; [congruence|done].
Qed.

End PipelineFacts.

(** ** The index rows of a notation do not depend on the batch *)

Lemma arriving_app (l1 l2 : list (Z * Z)) (a : Z) :
  forall k, arriving (l1 ++ l2) a k = arriving l1 a k ++ arriving l2 a (k + length l1).
Proof.
  induction l1 as [|[x y] l1 IH]; intros k; simpl.
  - by rewrite Nat.add_0_r.
  - rewrite IH, <- app_assoc. do 3 f_equal. lia.
Qed.

Lemma incoming_app (l1 l2 : list (Z * Z)) (a : Z) :
  l1 ≠ [] -> incoming (l1 ++ l2) a = incoming l1 a ++ arriving l2 a (length l1).
Proof.
  intros Hne. induction l2 as [|[x y] l2 IH] using rev_ind.
  - simpl. by rewrite !app_nil_r.
  - rewrite app_assoc, incoming_snoc, IH, arriving_app, <- app_assoc. simpl.
    do 2 f_equal. rewrite length_app, app_nil_r.
    destruct (decide (y = a)) as [->|Hy].
    + rewrite decide_True; [done|]. split; [|done]. destruct l1; [done|simpl; lia].
    + rewrite decide_False; [done|]. by intros [_ ?].
Qed.

Lemma arriving_shift (m : list (Z * Z)) (off : nat) (a : Z) :
  forall k, arriving (shift_pair off <$> m) (a + Z.of_nat off) k = arriving m a k.
Proof.
  induction m as [|[x y] m IH]; intros k; [done|]. simpl. rewrite IH. f_equal.
  destruct (decide (y = a)) as [->|Hy].
  - by rewrite decide_True.
  - rewrite decide_False; [done|]. lia.
Qed.

Lemma arriving_offset (m : list (Z * Z)) (a : Z) (d : nat) :
  forall k, arriving m a (d + k) = (fun e => (d + e)%nat) <$> arriving m a k.
Proof.
  induction m as [|[x y] m IH]; intros k; [done|]. simpl.
  rewrite fmap_app. replace (S (d + k)) with (d + S k)%nat by lia. rewrite IH. f_equal.
  by destruct (decide (y = a)).
Qed.

Lemma arriving_none (l : list (Z * Z)) (a : Z) :
  Forall (fun pair : Z * Z => pair.2 ≠ a) l -> forall k, arriving l a k = [].
Proof.
  induction 1 as [|[x y] l Hy _ IH]; intros k; [done|]. simpl in *.
  rewrite decide_False by done. apply IH.
Qed.

Lemma elem_of_arriving (m : list (Z * Z)) (a : Z) (e : nat) :
  forall k, e ∈ arriving m a k ->
            (k <= e)%nat /\ exists x, m !! (e - k)%nat = Some (x, a).
Proof.
  induction m as [|[x y] m IH]; intros k He; [by apply elem_of_nil in He|].
  simpl in He. apply elem_of_app in He as [He|He].
  - destruct (decide (y = a)) as [->|]; [|by apply elem_of_nil in He].
    apply list_elem_of_singleton in He as ->. split; [lia|]. rewrite Nat.sub_diag. eauto.
  - apply IH in He as (Hk & x' & Hl). split; [lia|]. exists x'.
    replace (e - k)%nat with (S (e - S k)) by lia. done.
Qed.

Section EmbedFacts.
Context `{Scalar} `{!Toolkit}.

Lemma fold_add_molecule_bonds (ts : list MolFeatures) :
  forall (L0 L : Locals),
    Forall features_wf ts -> locals_inv L0 ->
    foldM add_molecule ts L0 = Ok L ->
    exists extra,
      all_bonds L = all_bonds L0 ++ extra
      /\ Forall (fun pair : Z * Z => Z.of_nat (total_atoms L0) <= pair.2) extra.
Proof.
  induction ts as [|t ts IH]; intros L0 L Hwf Hinv E.
  - injection E as <-. exists []. by rewrite app_nil_r.
  - apply Forall_cons_1 in Hwf as [Ht Hts]. cbn [foldM] in E.
    destruct (add_molecule_Ok L0 t Hinv Ht) as (L1 & E1 & Hinv1 & _ & _ & Hab & _ & Htot).
    rewrite E1 in E. cbn [mbind result_bind] in E.
    destruct (IH _ _ Hts Hinv1 E) as (extra & Hab' & Hextra).
    exists ((shift_pair (total_atoms L0) <$> mol_all_bonds t) ++ extra).
    rewrite Hab', Hab, <- app_assoc. split; [done|]. apply Forall_app. split.
    + destruct Ht as (_ & _ & Hrange). apply Forall_fmap.
      eapply Forall_impl; [exact Hrange|]. intros [x y]; simpl. lia.
    + eapply Forall_impl; [exact Hextra|]. intros [x y]; simpl. lia.
Qed.

Lemma incoming_placeholder (a : Z) : 0 <= a -> incoming [(-1, -1)] a = [].
Proof. intros Ha. by apply (incoming_empty [] 0). Qed.

(** The bonds arriving at an atom of a molecule, in a batch where the
    molecule's atoms start at [off] and its bonds after [boff], and in the
    batch of one. *)
Lemma incoming_in_batch (rest1 m extra : list (Z * Z)) (off n : nat) (a : nat) :
  Forall (fun pair : Z * Z => 0 <= pair.1 < Z.of_nat off /\ 0 <= pair.2 < Z.of_nat off) rest1 ->
  Forall (fun pair : Z * Z => Z.of_nat (off + n) <= pair.2) extra ->
  (a < n)%nat ->
  incoming (((-1, -1) :: rest1) ++ (shift_pair off <$> m) ++ extra) (Z.of_nat (off + a))
  = (fun e => (length rest1 + e)%nat)
      <$> incoming ([(-1, -1)] ++ (shift_pair 0 <$> m)) (Z.of_nat a).
Proof.
  intros Hrest Hextra Ha.
  rewrite !incoming_app by done.
  rewrite (incoming_empty rest1 off) by (done || lia).
  rewrite incoming_placeholder by lia.
  rewrite arriving_app, (arriving_none extra), app_nil_r.
  2:{ eapply Forall_impl; [exact Hextra|]. intros [x y]; simpl. lia. }
  replace (Z.of_nat (off + a)) with (Z.of_nat a + Z.of_nat off) by lia.
  replace (Z.of_nat a) with (Z.of_nat a + Z.of_nat 0) at 2 by lia.
  rewrite !arriving_shift. simpl.
  replace (S (length rest1)) with (length rest1 + 1)%nat by lia.
  apply arriving_offset.
Qed.

Lemma shift_bond_pos (boff e : nat) : (1 <= e)%nat -> shift_bond boff e = (boff + e)%nat.
Proof. intros He. unfold shift_bond. rewrite decide_False by lia. done. Qed.

Lemma row_embeds_pad (boff width1 width : nat) (core : list nat) :
  row_embeds boff (pad width1 core) (pad width (shift_bond boff <$> core)).
Proof. unfold pad. eexists core, _, _. split; [done|]. by rewrite length_fmap. Qed.

Lemma build_graph_embeds (L L' : Locals) (g g1 : Graph) (rest1 m extra : list (Z * Z))
    (off n : nat) :
  locals_inv L -> locals_inv L' ->
  build_graph L = Ok g -> build_graph L' = Ok g1 ->
  all_bonds L = ((-1, -1) :: rest1) ++ (shift_pair off <$> m) ++ extra ->
  all_bonds L' = [(-1, -1)] ++ (shift_pair 0 <$> m) ->
  Forall (fun pair : Z * Z => 0 <= pair.1 < Z.of_nat off /\ 0 <= pair.2 < Z.of_nat off) rest1 ->
  Forall (fun pair : Z * Z => Z.of_nat (off + n) <= pair.2) extra ->
  Forall (fun pair : Z * Z => 0 <= pair.1 < Z.of_nat n /\ 0 <= pair.2 < Z.of_nat n) m ->
  total_atoms L' = n -> (off + n <= total_atoms L)%nat ->
  (forall a row1, g_agraph g1 !! a = Some row1 ->
     exists row, g_agraph g !! (off + a)%nat = Some row /\ row_embeds (length rest1) row1 row)
  /\ (forall b row1, g_bgraph g1 !! b = Some row1 ->
        exists row, g_bgraph g !! shift_bond (length rest1) b = Some row
                    /\ row_embeds (length rest1) row1 row).
Proof.
  intros HinvL HinvL' Ebuild Ebuild1 Hab Hab' Hrest Hextra Hm Hn Htot.
  destruct (build_graph_Ok L g HinvL Ebuild) as (_ & _ & _ & Hag & Hbg & _).
  destruct (build_graph_Ok L' g1 HinvL' Ebuild1) as (_ & _ & _ & Hag1 & Hbg1 & _).
  destruct HinvL as (_ & _ & Hlen & _ & Hin).
  destruct HinvL' as (_ & _ & Hlen' & _ & Hin').
  set (width := max_list (length <$> in_bonds L)) in *.
  set (width1 := max_list (length <$> in_bonds L')) in *.
  set (boff := length rest1).
  assert (forall a, (a < n)%nat ->
            incoming (all_bonds L) (Z.of_nat (off + a))
            = (fun e => (boff + e)%nat) <$> incoming (all_bonds L') (Z.of_nat a)) as Hinc.
  { intros a Ha. rewrite Hab, Hab'. by eapply incoming_in_batch. }
  assert (forall a e, e ∈ incoming (all_bonds L') a ->
            (1 <= e)%nat /\ exists e' xs, e = S e' /\ m !! e' = Some (xs, a)) as Hcore.
  { intros a e He. apply elem_of_incoming in He as (He & x & Hl). split; [done|].
    destruct e as [|e']; [lia|]. rewrite Hab' in Hl. simpl in Hl.
    rewrite list_lookup_fmap in Hl. destruct (m !! e') as [[xs ys]|] eqn:Hm'; [|done].
    injection Hl as <- <-. exists e', xs. split; [done|].
    replace (ys + Z.of_nat 0) with ys by lia. done. }
  split.
  - intros a row1. rewrite Hag1, Hag, !list_lookup_fmap. intros Hrow1.
    destruct (in_bonds L' !! a) as [bonds1|] eqn:Hb1; [|done]. injection Hrow1 as <-.
    pose proof (lookup_lt_Some _ _ _ Hb1) as Ha. rewrite Hlen', Hn in Ha.
    rewrite Hin' in Hb1 by lia. injection Hb1 as <-.
    rewrite Hin by lia. simpl. eexists. split; [done|].
    rewrite Hinc by done.
    rewrite (Forall_fmap_ext_1 (fun e => (boff + e)%nat) (shift_bond boff)).
    + apply row_embeds_pad.
    + apply Forall_forall. intros e He. apply Hcore in He as [He _].
      by rewrite shift_bond_pos.
  - intros b row1. rewrite Hbg1, Hbg. destruct b as [|b'].
    { intros [= <-]. exists (replicate width 0%nat). split; [done|].
      exists [], width1, width. done. }
    simpl. rewrite list_lookup_fmap. intros Hrow1.
    destruct (seq 1 (length (all_bonds L') - 1) !! b') as [b1|] eqn:Hseq; [|done].
    injection Hrow1 as <-. apply lookup_seq in Hseq as [-> Hb'].
    rewrite Hab' in Hb'. simpl in Hb'. rewrite length_fmap, Nat.sub_0_r in Hb'.
    destruct (lookup_lt_is_Some_2 m b' Hb') as [[x1 y1] Hxy].
    pose proof (Forall_lookup_1 _ _ _ _ Hm Hxy) as Hrange. simpl in Hrange.
    rewrite shift_bond_pos by lia.
    replace (boff + S b')%nat with (S (boff + b')) by lia. simpl.
    rewrite list_lookup_fmap, lookup_seq_lt.
    2:{ rewrite Hab. simpl. rewrite !length_app, length_fmap. fold boff. lia. }
    simpl. eexists. split; [done|].
    unfold bgraph_row.
    assert (all_bonds L' !! S b' = Some (x1, y1)) as ->.
    { rewrite Hab'. simpl. rewrite list_lookup_fmap, Hxy. simpl. unfold shift_pair. simpl.
      do 2 f_equal; lia. }
    assert (forall e', (e' < length m)%nat ->
              all_bonds L !! S (boff + e') = shift_pair off <$> m !! e') as Hlook.
    { intros e' He'. rewrite Hab. simpl. rewrite lookup_app_r by (fold boff; lia).
      fold boff. replace (boff + e' - boff)%nat with e' by lia.
      rewrite lookup_app_l by (by rewrite length_fmap). by rewrite list_lookup_fmap. }
    rewrite Hlook, Hxy by done. simpl.
    replace (x1 + Z.of_nat off) with (Z.of_nat (off + Z.to_nat x1)) by lia.
    rewrite Hinc by lia. rewrite Z2Nat.id by lia.
    assert (((fun b2 => if bool_decide (source_of (all_bonds L) b2 ≠ Some (y1 + Z.of_nat off))
                        then b2 else 0%nat)
               <$> ((fun e => (boff + e)%nat) <$> incoming (all_bonds L') x1))
            = shift_bond boff
                <$> ((fun b2 => if bool_decide (source_of (all_bonds L') b2 ≠ Some y1)
                                then b2 else 0%nat) <$> incoming (all_bonds L') x1)) as ->;
      [|apply row_embeds_pad].
    rewrite <- !list_fmap_compose. apply Forall_fmap_ext_1.
    apply Forall_forall. intros e He. simpl.
    apply Hcore in He as (He & e' & xs & -> & Hxs).
    unfold source_of.
    replace (boff + S e')%nat with (S (boff + e')) by lia.
    rewrite Hlook by (by eapply lookup_lt_Some).
    rewrite Hab'. simpl. rewrite list_lookup_fmap, Hxs. simpl.
    destruct (decide (xs = y1)) as [->|Hne].
    + rewrite !bool_decide_eq_false_2; [done| |].
      * intros Hneq. apply Hneq. do 2 f_equal. lia.
      * intros Hneq. by apply Hneq.
    + rewrite !bool_decide_eq_true_2; [by rewrite shift_bond_pos by lia| |].
      * intros [= Heq]. lia.
      * intros [= Heq]. lia.
Qed.

(** A notation inside a batch and alone: where its rows are. *)
Lemma mol2graph_embeds (pre post : list string) (smiles : string)
    (addHs three_d virtual_edges : bool) (w w1 w' w1' : World) (g g1 : Graph) :
  cache_wf w ->
  mol2graph (pre ++ smiles :: post) addHs three_d virtual_edges w = (w1, Ok g) ->
  mol2graph [smiles] addHs three_d virtual_edges w' = (w1', Ok g1) ->
  (SMILES_TO_FEATURES w' !! smiles = SMILES_TO_FEATURES w !! smiles
   \/ SMILES_TO_FEATURES w' !! smiles = SMILES_TO_FEATURES w1 !! smiles
   \/ SMILES_TO_FEATURES w !! smiles = SMILES_TO_FEATURES w1' !! smiles) ->
  exists off n boff,
    g_scope g !! length pre = Some (off, n)
    /\ g_scope g1 = [(0%nat, n)]
    /\ length (g_fatoms g1) = n
    /\ (off + n <= length (g_fatoms g))%nat
    /\ (forall a, (a < n)%nat -> g_fatoms g !! (off + a)%nat = g_fatoms g1 !! a)
    /\ (forall b, (b < length (g_fbonds g1))%nat ->
                  g_fbonds g !! shift_bond boff b = g_fbonds g1 !! b)
    /\ (forall a row1, g_agraph g1 !! a = Some row1 ->
          exists row, g_agraph g !! (off + a)%nat = Some row /\ row_embeds boff row1 row)
    /\ (forall b row1, g_bgraph g1 !! b = Some row1 ->
          exists row, g_bgraph g !! shift_bond boff b = Some row /\ row_embeds boff row1 row).
Proof.
  intros Hwf E E1 Hagree.
  apply mol2graph_Ok in E as (L & Eloop & Ebuild).
  apply mol2graph_Ok in E1 as (L' & Eloop1 & Ebuild1).
  rewrite batch_loop_unfold in Eloop, Eloop1.
  pose proof (batch_fold_wf _ _ _ _ _ _ _ _ Hwf (initial_locals_inv _ _) Eloop) as [_ HinvL].
  apply batch_fold_tuples in Eloop as (ts & Hts & Hfold).
  apply batch_fold_tuples in Eloop1 as (ts' & Hts' & Hfold').
  apply Forall2_app_inv_l in Hts as (ts1 & ts23 & Hts1 & Hts23 & ->).
  apply Forall2_cons_inv_l in Hts23 as (t & ts2 & [Ht Hcached] & Hts2 & ->).
  apply Forall2_cons_inv_l in Hts' as (t' & ts0 & [Ht' Hcached'] & Hts0 & ->).
  apply Forall2_nil_inv_l in Hts0 as ->.
  assert (t' = t) as ->.
  { destruct Hagree as [Ha|[Ha|Ha]].
    - by eapply tuple_for_agree.
    - eapply tuple_for_cached; [exact Ht'|]. by rewrite Ha.
    - symmetry. eapply tuple_for_cached; [exact Ht|]. by rewrite Ha. }
  assert (Forall features_wf ts1) as Hwf1.
  { apply Forall_forall. intros t1 Hin. apply list_elem_of_lookup in Hin as [i Hi].
    destruct (Forall2_lookup_r _ _ _ _ _ Hts1 Hi) as (s1 & _ & Hfor & _).
    by apply (tuple_for_wf _ _ _ _ _ _ Hwf Hfor). }
  pose proof (tuple_for_wf _ _ _ _ _ _ Hwf Ht) as [Hwft _].
  assert (Forall features_wf ts2) as Hwf2.
  { apply Forall_forall. intros t2 Hin. apply list_elem_of_lookup in Hin as [i Hi].
    destruct (Forall2_lookup_r _ _ _ _ _ Hts2 Hi) as (s2 & _ & Hfor & _).
    by apply (tuple_for_wf _ _ _ _ _ _ Hwf Hfor). }
  (* the batch *)
  apply fold_add_molecule_middle in Hfold as (L1 & L2 & Ef1 & Ef2 & Ef3).
  destruct (fold_add_molecule_grows _ _ _ Hwf1 (initial_locals_inv _ _) Ef1)
    as (Hinv1 & fa1 & fb1 & sc1 & Efa1 & Efb1 & Esc1 & Hlen1).
  destruct (add_molecule_Ok L1 t Hinv1 Hwft)
    as (L2' & Ef2' & Hinv2 & Efa2 & Efb2 & Eab2 & Esc2 & Etot2).
  rewrite Ef2 in Ef2'. injection Ef2' as <-.
  destruct (fold_add_molecule_grows _ _ _ Hwf2 Hinv2 Ef3)
    as (_ & fa3 & fb3 & sc3 & Efa3 & Efb3 & Esc3 & _).
  destruct (fold_add_molecule_bonds _ _ _ Hwf2 Hinv2 Ef3) as (extra & Eab3 & Hextra).
  (* the batch of one *)
  cbn [foldM] in Hfold'. apply result_bind_Ok in Hfold' as (L0' & Eadd & Eret).
  injection Eret as ->.
  destruct (add_molecule_Ok _ t (initial_locals_inv three_d virtual_edges) Hwft)
    as (L'' & Eadd' & HinvL' & Efa' & Efb' & Eab' & Esc' & Etot').
  rewrite Eadd in Eadd'. injection Eadd' as <-.
  destruct (build_graph_Ok L g HinvL Ebuild) as (Hgfa & Hgfb & Hgsc & _).
  destruct (build_graph_Ok L' g1 HinvL' Ebuild1) as (Hgfa1 & Hgfb1 & Hgsc1 & _).
  pose proof Hwft as (Hnfa & Hnfb & Hrange).
  pose proof Hinv1 as (Hlfa1 & Hlfb1 & _ & (rest1 & Hab1 & Hrest1) & _).
  pose proof HinvL as (HlfaL & _).
  destruct (build_graph_embeds L L' g g1 rest1 (mol_all_bonds t) extra
              (total_atoms L1) (n_atoms t) HinvL HinvL' Ebuild Ebuild1)
    as [Hag Hbg].
  { rewrite Eab3, Eab2, Hab1, <- app_assoc. done. }
  { rewrite Eab'. done. }
  { done. }
  { by rewrite <- Etot2. }
  { done. }
  { rewrite Etot'. simpl. lia. }
  { rewrite <- HlfaL, Efa3, Efa2, !length_app. lia. }
  exists (total_atoms L1), (n_atoms t), (length rest1).
  rewrite Hgfa, Hgfb, Hgsc, Hgfa1, Hgfb1, Hgsc1.
  rewrite Efa', Efb', Esc'. cbn [initial_locals fatoms fbonds scope total_atoms app].
  rewrite Efa3, Efb3, Esc3, Efa2, Efb2, Esc2.
  split.
  { rewrite Esc1. cbn [initial_locals scope app]. rewrite <- app_assoc. simpl.
    rewrite (Forall2_length _ _ _ Hts1), <- Hlen1. apply list_lookup_middle. done. }
  split; [done|]. split; [done|].
  split; [rewrite !length_app; lia|].
  split.
  { intros a Ha. rewrite <- app_assoc, lookup_app_r by lia.
    rewrite Hlfa1. replace (total_atoms L1 + a - total_atoms L1)%nat with a by lia.
    by rewrite lookup_app_l by lia. }
  split; [|done].
  intros b Hb. simpl in Hb.
  assert (length (fbonds L1) = S (length rest1)) as Hlfb by (by rewrite Hlfb1, Hab1).
  destruct b as [|b'].
  { unfold shift_bond. simpl. rewrite Efb1. done. }
  rewrite shift_bond_pos by lia. simpl.
  rewrite <- app_assoc, lookup_app_r by lia. rewrite Hlfb.
  replace (length rest1 + S b' - S (length rest1))%nat with b' by lia.
  by rewrite lookup_app_l by lia.
Qed.

(** X20.  The index rows of a notation do not depend on the rest of the
    batch either.  Under the conditions of the feature rows (same flags, the
    two calls see the same dictionary entry for the notation), the row of
    every atom in [agraph] and of every bond in [bgraph] of the batch of one
    reappears in the batch, at the atom offset of the scope entry and at a
    running bond offset: the same entries before the padding, every bond
    index other than the padding index 0 moved by the bond offset, then
    zeros up to the width of the batch's tables. *)
Theorem mol2graph_index_rows_independent (pre post : list string) (smiles : string)
    (addHs three_d virtual_edges : bool) (w w1 w' w1' : World) (g g1 : Graph) :
  cache_wf w ->
  mol2graph (pre ++ smiles :: post) addHs three_d virtual_edges w = (w1, Ok g) ->
  mol2graph [smiles] addHs three_d virtual_edges w' = (w1', Ok g1) ->
  (SMILES_TO_FEATURES w' !! smiles = SMILES_TO_FEATURES w !! smiles
   \/ SMILES_TO_FEATURES w' !! smiles = SMILES_TO_FEATURES w1 !! smiles
   \/ SMILES_TO_FEATURES w !! smiles = SMILES_TO_FEATURES w1' !! smiles) ->
  exists off n boff,
    g_scope g !! length pre = Some (off, n)
    /\ (forall b, (1 <= b < length (g_fbonds g1))%nat ->
                  g_fbonds g !! (boff + b)%nat = g_fbonds g1 !! b)
    /\ (forall a row1, g_agraph g1 !! a = Some row1 ->
          exists core k1 k,
            row1 = core ++ replicate k1 0%nat
            /\ g_agraph g !! (off + a)%nat
               = Some ((shift_bond boff <$> core) ++ replicate k 0%nat))
    /\ (forall b row1, (1 <= b)%nat -> g_bgraph g1 !! b = Some row1 ->
          exists core k1 k,
            row1 = core ++ replicate k1 0%nat
            /\ g_bgraph g !! (boff + b)%nat
               = Some ((shift_bond boff <$> core) ++ replicate k 0%nat)).
Proof.
  intros Hwf E E1 Hagree.
  destruct (mol2graph_embeds _ _ _ _ _ _ _ _ _ _ _ _ Hwf E E1 Hagree)
    as (off & n & boff & Hsc & _ & _ & _ & _ & Hfb & Hag & Hbg).
  exists off, n, boff. split; [done|]. split; [|split].
  - intros b Hb. rewrite <- (shift_bond_pos boff b) by lia. apply Hfb. lia.
  - intros a row1 Hrow1.
    destruct (Hag a row1 Hrow1) as (row & Hrow & core & k1 & k & -> & ->).
    by exists core, k1, k.
  - intros b row1 Hb Hrow1.
    destruct (Hbg b row1 Hrow1) as (row & Hrow & core & k1 & k & -> & ->).
    exists core, k1, k. split; [done|]. rewrite shift_bond_pos in Hrow by lia. done.
Qed.

End EmbedFacts.

(** ** The network on a notation inside a batch *)

Lemma result_mapM_lookup_rel {A A1 B} (f : A -> result B) (f1 : A1 -> result B)
    (l : list A) (l1 : list A1) (bs bs1 : list B) (i j : nat) (x : A) (x1 : A1) :
  result_mapM f l = Ok bs -> result_mapM f1 l1 = Ok bs1 ->
  l !! i = Some x -> l1 !! j = Some x1 -> f x = f1 x1 ->
  bs !! i = bs1 !! j.
Proof.
  intros E E1 Hi Hj Hf.
  destruct (result_mapM_Ok_lookup _ _ _ _ _ E Hi) as (b & -> & Eb).
  destruct (result_mapM_Ok_lookup _ _ _ _ _ E1 Hj) as (b1 & -> & Eb1).
  congruence.
Qed.

Lemma result_mapM_app {A B} (f : A -> result B) (l1 l2 : list A) :
  result_mapM f (l1 ++ l2)
  = (bs1 ← result_mapM f l1; bs2 ← result_mapM f l2; Ok (bs1 ++ bs2)).
Proof.
  induction l1 as [|a l1 IH]; simpl.
  - by destruct (result_mapM f l2).
  - destruct (f a) as [b|e]; [|done]. simpl. rewrite IH.
    destruct (result_mapM f l1) as [bs1|e]; [|done]. simpl.
    by destruct (result_mapM f l2).
Qed.

Lemma result_mapM_fmap_ext {A A1 B} (f : A -> result B) (f1 : A1 -> result B) (h : A1 -> A)
    (l : list A1) :
  Forall (fun a => f (h a) = f1 a) l -> result_mapM f (h <$> l) = result_mapM f1 l.
Proof.
  induction 1 as [|a l Ha _ IH]; [done|]. rewrite fmap_cons. cbn [result_mapM].
  by rewrite Ha, IH.
Qed.

Lemma result_mapM_lookup_eq {A B} (f : A -> result B) (l l1 : list A) (bs bs1 : list B)
    (i j : nat) :
  result_mapM f l = Ok bs -> result_mapM f l1 = Ok bs1 ->
  l !! i = l1 !! j -> is_Some (l1 !! j) ->
  bs !! i = bs1 !! j.
Proof.
  intros E E1 Hij [x Hx]. rewrite Hx in Hij.
  by eapply result_mapM_lookup_rel.
Qed.

Section BatchNetworkFacts.
Context `{Scalar} `{!ScalarLaws}.

Lemma vsum_app_zeros (width : nat) (vs : list (list scalar)) (k : nat) :
  vsum width (vs ++ replicate k (replicate width (of_Z 0))) = vsum width vs.
Proof.
  induction k as [|k IH]; [by rewrite app_nil_r|].
  simpl. by rewrite vsum_skip_zeros.
Qed.

(** A gather through a row of the batch and through the row of the batch of
    one: the same vectors, then zero vectors. *)
Lemma gather_embeds (M M1 : list (list scalar)) (boff n_bonds : nat) (z : list scalar)
    (row1 row : list nat) (vs vs1 : list (list scalar)) :
  rows_embed boff n_bonds M1 M -> M1 !! 0%nat = Some z -> M !! 0%nat = Some z ->
  Forall (fun b => (b < n_bonds)%nat) row1 ->
  row_embeds boff row1 row ->
  result_mapM (fun i => of_option IndexError (M !! i)) row = Ok vs ->
  result_mapM (fun i => of_option IndexError (M1 !! i)) row1 = Ok vs1 ->
  exists vcore k1 k, vs1 = vcore ++ replicate k1 z /\ vs = vcore ++ replicate k z.
Proof.
  intros HM Hz1 Hz Hrange (core & k1 & k & -> & ->) E E1.
  apply Forall_app in Hrange as [Hcore _].
  rewrite result_mapM_app in E, E1.
  rewrite (result_mapM_fmap_ext _ (fun i => of_option IndexError (M1 !! i))) in E.
  2:{ eapply Forall_impl; [exact Hcore|]. intros b Hb. simpl. by rewrite HM. }
  rewrite (result_mapM_replicate _ 0%nat z) in E by (by rewrite Hz).
  rewrite (result_mapM_replicate _ 0%nat z) in E1 by (by rewrite Hz1).
  destruct (result_mapM _ core) as [vcore|e]; [|done]. simpl in E, E1.
  injection E as <-. injection E1 as <-. by exists vcore, k1, k.
Qed.

(** The sums over the gathered messages agree. *)
Lemma nei_sum_embeds (M M1 : list (list scalar)) (idx idx1 : list (list nat))
    (G G1 : list (list (list scalar))) (N N1 : list (list scalar))
    (boff n_bonds width r r1 : nat) (row row1 : list nat) :
  rows_embed boff n_bonds M1 M ->
  M1 !! 0%nat = Some (replicate width (of_Z 0)) ->
  M !! 0%nat = Some (replicate width (of_Z 0)) ->
  index_select_ND M idx = Ok G -> result_mapM (vsum width) G = Ok N ->
  index_select_ND M1 idx1 = Ok G1 -> result_mapM (vsum width) G1 = Ok N1 ->
  idx !! r = Some row -> idx1 !! r1 = Some row1 ->
  Forall (fun b => (b < n_bonds)%nat) row1 ->
  row_embeds boff row1 row ->
  N !! r = N1 !! r1.
Proof.
  intros HM Hz1 Hz EG EN EG1 EN1 Hr Hr1 Hrange Hrow.
  unfold index_select_ND in EG, EG1.
  destruct (result_mapM_Ok_lookup _ _ _ _ _ EG Hr) as (vs & Hvs & Evs).
  destruct (result_mapM_Ok_lookup _ _ _ _ _ EG1 Hr1) as (vs1 & Hvs1 & Evs1).
  eapply result_mapM_lookup_rel; [exact EN|exact EN1|exact Hvs|exact Hvs1|].
  destruct (gather_embeds _ _ _ _ _ _ _ _ _ HM Hz1 Hz Hrange Hrow Evs Evs1)
    as (vcore & k1 & k & -> & ->).
  by rewrite !vsum_app_zeros.
Qed.

Lemma message_round_embeds (m : MPN) (keep keep1 : nat -> nat -> bool)
    (bg bg1 : list (list nat)) (B B1 M M1 M' M1' : list (list scalar)) (boff n_bonds : nat) :
  training m = false -> message_attention m = false ->
  rows_embed boff n_bonds B1 B -> rows_embed boff n_bonds M1 M ->
  M1 !! 0%nat = Some (replicate (out_features (W_i m)) (of_Z 0)) ->
  M !! 0%nat = Some (replicate (out_features (W_i m)) (of_Z 0)) ->
  (forall b row1, bg1 !! b = Some row1 ->
     exists row, bg !! shift_bond boff b = Some row /\ row_embeds boff row1 row) ->
  Forall (Forall (fun b => (b < n_bonds)%nat)) bg1 -> length bg1 = n_bonds ->
  message_round m keep bg B M = Ok M' ->
  message_round m keep1 bg1 B1 M1 = Ok M1' ->
  rows_embed boff n_bonds M1' M'.
Proof.
  intros Heval Hma HB HM Hz1 Hz Hbg Hrange Hlen E E1.
  unfold message_round in E, E1. rewrite Hma in E, E1.
  apply result_bind_Ok in E as (G & EG & E). apply result_bind_Ok in E as (G' & [= <-] & E).
  apply result_bind_Ok in E as (N & EN & E). apply result_bind_Ok in E as (N' & EN' & E).
  apply result_bind_Ok in E as ([] & _ & E). apply result_bind_Ok in E as (Z & EZ & E).
  injection E as <-.
  apply result_bind_Ok in E1 as (G1 & EG1 & E1).
  apply result_bind_Ok in E1 as (G1' & [= <-] & E1).
  apply result_bind_Ok in E1 as (N1 & EN1 & E1).
  apply result_bind_Ok in E1 as (N1' & EN1' & E1).
  apply result_bind_Ok in E1 as ([] & Echeck & E1).
  apply result_bind_Ok in E1 as (Z1 & EZ1 & E1).
  injection E1 as <-.
  rewrite !dropout_layer_eval by done.
  destruct (decide (length B1 = length N1')) as [HlenB|]; [|done]. clear Echeck.
  pose proof (result_mapM_Ok_length _ _ _ EG1) as HlG1.
  pose proof (result_mapM_Ok_length _ _ _ EN1) as HlN1.
  pose proof (result_mapM_Ok_length _ _ _ EN1') as HlN1'.
  intros b Hb.
  destruct (lookup_lt_is_Some_2 bg1 b) as [row1 Hrow1]; [lia|].
  destruct (Hbg b row1 Hrow1) as (row & Hrow & Hemb).
  assert (N !! shift_bond boff b = N1 !! b) as HN.
  { eapply (nei_sum_embeds M M1 bg bg1); try done.
    by eapply (Forall_lookup_1 _ _ _ _ Hrange). }
  assert (N' !! shift_bond boff b = N1' !! b) as HN'.
  { eapply result_mapM_lookup_eq; [exact EN'|exact EN1'|exact HN|].
    apply lookup_lt_is_Some_2. lia. }
  assert (Z !! shift_bond boff b = Z1 !! b) as HZ.
  { eapply result_mapM_lookup_eq; [exact EZ|exact EZ1| |].
    - by rewrite (lookup_zip_with pair B N'), (lookup_zip_with pair B1 N1'), HB, HN' by done.
    - apply lookup_lt_is_Some_2. rewrite length_zip. lia. }
  unfold activate. by rewrite !list_lookup_fmap, HZ.
Qed.

Lemma message_rounds_embeds (m : MPN) (rng rng1 : nat -> nat -> nat -> bool)
    (bg bg1 : list (list nat)) (B B1 : list (list scalar)) (boff n_bonds width width1 : nat)
    (rounds : nat) :
  training m = false -> message_attention m = false ->
  bias (W_h m) = None -> act_func m (of_Z 0) = of_Z 0 ->
  rows_embed boff n_bonds B1 B ->
  B1 !! 0%nat = Some (replicate (out_features (W_i m)) (of_Z 0)) ->
  B !! 0%nat = Some (replicate (out_features (W_i m)) (of_Z 0)) ->
  bg1 !! 0%nat = Some (replicate width1 0%nat) ->
  bg !! 0%nat = Some (replicate width 0%nat) ->
  (forall b row1, bg1 !! b = Some row1 ->
     exists row, bg !! shift_bond boff b = Some row /\ row_embeds boff row1 row) ->
  Forall (Forall (fun b => (b < n_bonds)%nat)) bg1 -> length bg1 = n_bonds ->
  forall k k1 M M1 M' M1',
    rows_embed boff n_bonds M1 M ->
    M1 !! 0%nat = Some (replicate (out_features (W_i m)) (of_Z 0)) ->
    M !! 0%nat = Some (replicate (out_features (W_i m)) (of_Z 0)) ->
    message_rounds m rng bg B rounds k M = Ok M' ->
    message_rounds m rng1 bg1 B1 rounds k1 M1 = Ok M1' ->
    rows_embed boff n_bonds M1' M'
    /\ M1' !! 0%nat = Some (replicate (out_features (W_i m)) (of_Z 0))
    /\ M' !! 0%nat = Some (replicate (out_features (W_i m)) (of_Z 0)).
Proof.
  intros Heval Hma Hbh Hact HB HB1z HBz Hbg1z Hbgz Hbg Hrange Hlen.
  induction rounds as [|rounds IH]; intros k k1 M M1 M' M1' HM Hz1 Hz E E1.
  - injection E as <-. injection E1 as <-. by split_and!.
  - cbn [message_rounds] in E, E1.
    apply result_bind_Ok in E as (Mn & En & E).
    apply result_bind_Ok in E1 as (Mn1 & En1 & E1).
    eapply (IH (S k) (S k1) Mn Mn1); [| | |exact E|exact E1].
    + exact (message_round_embeds m (rng k) (rng1 k1) bg bg1 B B1 M M1 Mn Mn1 boff n_bonds
               Heval Hma HB HM Hz1 Hz Hbg Hrange Hlen En En1).
    + exact (message_round_row_0 m (rng1 k1) bg1 B1 M1 Mn1 width1 Hbh Hact Hbg1z HB1z Hz1 En1).
    + exact (message_round_row_0 m (rng k) bg B M Mn width Hbh Hact Hbgz HBz Hz En).
Qed.

Lemma atom_aggregation_embeds (m : MPN) (keep keep1 : nat -> nat -> bool)
    (fa fa1 : list (list scalar)) (ag ag1 : list (list nat)) (M M1 A A1 : list (list scalar))
    (off boff n_bonds : nat) :
  training m = false ->
  rows_embed boff n_bonds M1 M ->
  M1 !! 0%nat = Some (replicate (out_features (W_i m)) (of_Z 0)) ->
  M !! 0%nat = Some (replicate (out_features (W_i m)) (of_Z 0)) ->
  (forall a row1, ag1 !! a = Some row1 ->
     exists row, ag !! (off + a)%nat = Some row /\ row_embeds boff row1 row) ->
  Forall (Forall (fun b => (b < n_bonds)%nat)) ag1 ->
  (forall a, (a < length fa1)%nat -> fa !! (off + a)%nat = fa1 !! a) ->
  atom_aggregation m keep fa ag M = Ok A ->
  atom_aggregation m keep1 fa1 ag1 M1 = Ok A1 ->
  length A1 = length fa1
  /\ forall a, (a < length fa1)%nat -> A !! (off + a)%nat = A1 !! a.
Proof.
  intros Heval HM Hz1 Hz Hag Hrange Hfa E E1.
  unfold atom_aggregation in E, E1.
  apply result_bind_Ok in E as (G & EG & E). apply result_bind_Ok in E as (N & EN & E).
  apply result_bind_Ok in E as ([] & _ & E). apply result_bind_Ok in E as (Y & EY & E).
  injection E as <-.
  apply result_bind_Ok in E1 as (G1 & EG1 & E1).
  apply result_bind_Ok in E1 as (N1 & EN1 & E1).
  apply result_bind_Ok in E1 as ([] & Echeck & E1).
  apply result_bind_Ok in E1 as (Y1 & EY1 & E1).
  injection E1 as <-.
  rewrite !dropout_layer_eval by done.
  destruct (decide (length fa1 = length N1)) as [HlenN|]; [|done]. clear Echeck.
  pose proof (result_mapM_Ok_length _ _ _ EG1) as HlG1.
  pose proof (result_mapM_Ok_length _ _ _ EN1) as HlN1.
  pose proof (result_mapM_Ok_length _ _ _ EY1) as HlY1.
  rewrite length_zip_with in HlY1.
  split; [unfold activate; rewrite length_fmap; lia|].
  intros a Ha.
  destruct (lookup_lt_is_Some_2 ag1 a) as [row1 Hrow1]; [lia|].
  destruct (Hag a row1 Hrow1) as (row & Hrow & Hemb).
  assert (N !! (off + a)%nat = N1 !! a) as HN.
  { eapply (nei_sum_embeds M M1 ag ag1); try done.
    by eapply (Forall_lookup_1 _ _ _ _ Hrange). }
  assert (Y !! (off + a)%nat = Y1 !! a) as HY.
  { eapply result_mapM_lookup_eq; [exact EY|exact EY1| |].
    - by rewrite (lookup_zip_with app fa N), (lookup_zip_with app fa1 N1), Hfa, HN by done.
    - apply lookup_lt_is_Some_2. rewrite length_zip_with. lia. }
  unfold activate. by rewrite !list_lookup_fmap, HY.
Qed.

Lemma pool_molecule_narrow (m : MPN) (keep : nat -> nat -> bool)
    (A cur : list (list scalar)) (st le : nat) :
  narrow A st le = Ok cur ->
  pool_molecule m keep A st le = pool_molecule m keep cur 0 le.
Proof.
  unfold pool_molecule. cbv zeta. intros Hnarrow. rewrite Hnarrow.
  unfold narrow in Hnarrow. case_decide as Hfit; [|done]. injection Hnarrow as <-.
  unfold narrow. rewrite decide_True by (rewrite length_take, length_drop; lia).
  rewrite drop_0, take_take, Nat.min_id. done.
Qed.

Lemma pooling_lookup (m : MPN) (rng : nat -> nat -> nat -> bool) (A : list (list scalar))
    (scope : list (nat * nat)) :
  forall (k : nat) (out : list (list scalar)) (i st le : nat),
    pooling m rng k A scope = Ok out ->
    scope !! i = Some (st, le) ->
    exists k' v, pool_molecule m (rng k') A st le = Ok v /\ out !! i = Some v.
Proof.
  intros k out i st le E Hi. unfold pooling in E.
  apply result_bind_Ok in E as ([vecs k'] & Efold & E).
  apply torch_stack_Ok in E as [-> _].
  enough (forall acc k0 acc' k',
            foldM (fun '(mol_vecs, k) '(st, le) =>
                     mol_vec ← pool_molecule m (rng k) A st le;
                     Ok (mol_vecs ++ [mol_vec], if attention m then S k else k))
                  scope (acc, k0) = Ok (acc', k') ->
            exists k'' v, pool_molecule m (rng k'') A st le = Ok v
                          /\ acc' !! (length acc + i)%nat = Some v) as Hgen.
  { destruct (Hgen [] k vecs k' Efold) as (k'' & v & Ev & Hv). eauto. }
  clear Efold. revert i Hi.
  induction scope as [|[st0 le0] scope IH]; intros i Hi acc k0 acc' k1 E; [done|].
  cbn [foldM] in E. apply result_bind_Ok in E as ([acc1 k2] & E1 & E).
  apply result_bind_Ok in E1 as (v0 & Ev0 & E1). injection E1 as <- <-.
  destruct i as [|i].
  - injection Hi as -> ->. exists k0, v0. split; [done|].
    clear IH. revert E. generalize (if attention m then S k0 else k0).
    assert ((acc ++ [v0]) !! (length acc + 0)%nat = Some v0) as Hv0.
    { rewrite Nat.add_0_r. apply list_lookup_middle. done. }
    revert Hv0. generalize (acc ++ [v0]). clear Ev0.
    induction scope as [|[st1 le1] scope IH]; intros acc0 Hv0 k3 E.
    + by injection E as <- _.
    + cbn [foldM] in E. apply result_bind_Ok in E as ([acc2 k4] & E1 & E).
      apply result_bind_Ok in E1 as (v1 & _ & E1). injection E1 as <- <-.
      eapply IH; [|exact E]. by apply lookup_app_l_Some.
  - simpl in Hi. destruct (IH i Hi _ _ _ _ E) as (k'' & v & Ev & Hv).
    exists k'', v. split; [done|]. rewrite length_app in Hv. simpl in Hv.
    by replace (length acc + S i)%nat with (length acc + 1 + i)%nat by lia.
Qed.

End BatchNetworkFacts.

Section BatchForwardFacts.
Context `{Scalar} `{!Toolkit} `{!ScalarLaws}.

(** X21.  Batching does not change the encoding of a molecule.  In
    evaluation mode and without message attention, for a network whose
    [W_i] and [W_h] have no bias (as [MPN.__init__] makes them) and whose
    activation maps 0 to 0, the vector [forward] returns for a notation at
    any position of a batch is the vector it returns for the batch of that
    notation alone (same flags, the two calls of [mol2graph] see the same
    dictionary entry for the notation), whatever the rest of the batch, the
    depth and the attention over atoms. *)
Theorem forward_batch_independent (pre post : list string) (smiles : string)
    (addHs three_d virtual_edges : bool) (w w1 w' w1' : World) (g g1 : Graph)
    (m : MPN) (rng rng1 : nat -> nat -> nat -> bool) (out out1 : list (list scalar)) :
  cache_wf w -> cache_wf w' ->
  mol2graph (pre ++ smiles :: post) addHs three_d virtual_edges w = (w1, Ok g) ->
  mol2graph [smiles] addHs three_d virtual_edges w' = (w1', Ok g1) ->
  (SMILES_TO_FEATURES w' !! smiles = SMILES_TO_FEATURES w !! smiles
   \/ SMILES_TO_FEATURES w' !! smiles = SMILES_TO_FEATURES w1 !! smiles
   \/ SMILES_TO_FEATURES w !! smiles = SMILES_TO_FEATURES w1' !! smiles) ->
  training m = false -> message_attention m = false ->
  bias (W_i m) = None -> bias (W_h m) = None -> act_func m (of_Z 0) = of_Z 0 ->
  forward m rng g = Ok out ->
  forward m rng1 g1 = Ok out1 ->
  out !! length pre = out1 !! 0%nat.
Proof.
  intros Hwf Hwf' E E1 Hagree Heval Hma Hbi Hbh Hact Ef Ef1.
  destruct (mol2graph_embeds _ _ _ _ _ _ _ _ _ _ _ _ Hwf E E1 Hagree)
    as (off & n & boff & Hsc & Hsc1 & Hn & _ & Hfa & Hfb & Hag & Hbg).
  destruct (mol2graph_sentinel_rows _ _ _ _ _ _ _ Hwf E) as (Hfbz & width & Hbgz).
  destruct (mol2graph_sentinel_rows _ _ _ _ _ _ _ Hwf' E1) as (Hfbz1 & width1 & Hbgz1).
  apply mol2graph_locals in E1 as (L1 & ts1 & Ebuild1 & _ & _ & HinvL1).
  destruct (build_graph_in_range L1 g1 (HinvL1 Hwf') Ebuild1)
    as (Haglen & Hbglen & width0 & Hidx).
  assert (Forall (Forall (fun b => (b < length (g_fbonds g1))%nat)) (g_agraph g1)
          /\ Forall (Forall (fun b => (b < length (g_fbonds g1))%nat)) (g_bgraph g1))
    as [Hagr Hbgr].
  { apply Forall_app. eapply Forall_impl; [exact Hidx|]. by intros row [_ ?]. }
  unfold forward in Ef, Ef1.
  apply result_bind_Ok in Ef as ([B M0] & Einit & Ef).
  apply result_bind_Ok in Ef as (M & Erounds & Ef).
  apply result_bind_Ok in Ef as (A & Eagg & Ef).
  apply result_bind_Ok in Ef1 as ([B1 M01] & Einit1 & Ef1).
  apply result_bind_Ok in Ef1 as (M1 & Erounds1 & Ef1).
  apply result_bind_Ok in Ef1 as (A1 & Eagg1 & Ef1).
  destruct (initial_message_row_0 _ _ _ _ _ Hbi Hact Hfbz Einit) as [HBz HM0z].
  destruct (initial_message_row_0 _ _ _ _ _ Hbi Hact Hfbz1 Einit1) as [HB1z HM01z].
  unfold initial_message in Einit, Einit1.
  apply result_bind_Ok in Einit as (B' & EB & [= -> <-]).
  apply result_bind_Ok in Einit1 as (B1' & EB1 & [= -> <-]).
  assert (rows_embed boff (length (g_fbonds g1)) B1 B) as HB.
  { intros b Hb. eapply result_mapM_lookup_eq; [exact EB|exact EB1|by apply Hfb|].
    by apply lookup_lt_is_Some_2. }
  assert (rows_embed boff (length (g_fbonds g1)) (activate m B1) (activate m B)) as HM0.
  { intros b Hb. unfold activate. by rewrite !list_lookup_fmap, HB. }
  destruct (message_rounds_embeds m rng rng1 (g_bgraph g) (g_bgraph g1) B B1 boff
              (length (g_fbonds g1)) width width1 (Z.to_nat (depth m - 1))
              Heval Hma Hbh Hact HB HB1z HBz Hbgz1 Hbgz Hbg Hbgr Hbglen
              0%nat 0%nat _ _ _ _ HM0 HM01z HM0z Erounds Erounds1)
    as (HM & HM1z & HMz).
  destruct (atom_aggregation_embeds m (rng (Z.to_nat (depth m - 1)))
              (rng1 (Z.to_nat (depth m - 1))) (g_fatoms g) (g_fatoms g1) (g_agraph g)
              (g_agraph g1) M M1 A A1 off boff (length (g_fbonds g1))
              Heval HM HM1z HMz Hag Hagr) as [HlenA1 HA]; [|exact Eagg|exact Eagg1|].
  { rewrite Hn. exact Hfa. }
  rewrite Hn in HlenA1, HA.
  destruct (pooling_lookup _ _ _ _ _ _ _ _ _ Ef Hsc) as (k & v & Ev & ->).
  assert (g_scope g1 !! 0%nat = Some (0%nat, n)) as Hsc1' by (by rewrite Hsc1).
  destruct (pooling_lookup _ _ _ _ _ _ _ _ _ Ef1 Hsc1') as (k1 & v1 & Ev1 & ->).
  f_equal.
  assert (narrow A off n = Ok A1) as Hnarrow.
  { unfold pool_molecule in Ev. cbv zeta in Ev.
    apply result_bind_Ok in Ev as (cur & Ecur & _).
    rewrite Ecur. f_equal. unfold narrow in Ecur. case_decide as Hfit; [|done].
    injection Ecur as <-. apply list_eq. intros j.
    destruct (decide (j < n)%nat) as [Hj|Hj].
    - rewrite lookup_take_lt, lookup_drop by done. by apply HA.
    - rewrite lookup_take_ge by lia. symmetry. apply lookup_ge_None_2. lia. }
  rewrite (pool_molecule_narrow _ _ _ _ _ _ Hnarrow) in Ev.
  rewrite (pool_molecule_eval m (rng k) (rng1 k1) A1 0 n Heval) in Ev.
  congruence.
Qed.

End BatchForwardFacts.

(** ** The properties at concrete inputs *)

Import Toy.

Lemma run_eq {A} (d : A) (run : World * result A) :
  is_Ok run.2 = true ->
  run = (run.1, Ok (match run.2 with Ok a => a | Raise _ => d end)).
Proof. destruct run as [w [a|e]]; simpl; [done|discriminate]. Qed.

Lemma batch_run_eq : batch_run = (batch_run.1, Ok (graph_of batch_run)).
Proof. apply (run_eq no_graph). vm_compute. reflexivity. Qed.

Lemma single_run_eq : single_run = (single_run.1, Ok (graph_of single_run)).
Proof. apply (run_eq no_graph). vm_compute. reflexivity. Qed.

Lemma methane_step_eq : methane_step = (methane_step.1, Ok methane_features).
Proof. apply run_eq. vm_compute. reflexivity. Qed.

Lemma cache_key_is_notation_alone_witness :
  "CC"%string ∈ ["CCC"; "CC"]%string
  /\ SMILES_TO_FEATURES empty_world !! "CC"%string = None
  /\ exists t,
       compute_features false false false "CC"%string = Ok t
       /\ SMILES_TO_FEATURES batch_run.1 !! "CC"%string = Some t
       /\ mol_features true true true "CC"%string batch_run.1 = (batch_run.1, Ok t).
Proof.
  split; [right; left|]. split; [reflexivity|].
  destruct (cache_key_is_notation_alone false false false true true true
              ["CCC"; "CC"]%string "CC"%string empty_world batch_run.1 (graph_of batch_run))
    as (t & Hcomp & Hcached & Hlater).
  - right; left.
  - reflexivity.
  - exact batch_run_eq.
  - exists t. split; [exact Hcomp|]. split; [exact Hcached|].
    exact (proj1 (Hlater batch_run.1 Hcached)).
Defined.

Lemma mol2graph_batch_independent_witness :
  cache_wf empty_world
  /\ exists st n boff,
       g_scope (graph_of batch_run) !! 1%nat = Some (st, n)
       /\ g_scope (graph_of single_run) = [(0%nat, n)]
       /\ length (g_fatoms (graph_of single_run)) = n
       /\ take n (drop st (g_fatoms (graph_of batch_run))) = g_fatoms (graph_of single_run)
       /\ take (length (g_fbonds (graph_of single_run)) - 1)
               (drop (S boff) (g_fbonds (graph_of batch_run)))
          = drop 1 (g_fbonds (graph_of single_run))
       /\ (S boff + (length (g_fbonds (graph_of single_run)) - 1)
           <= length (g_fbonds (graph_of batch_run)))%nat.
Proof.
  split; [apply cache_wf_empty|].
  apply (mol2graph_batch_independent ["CCC"]%string [] "CC"%string false false false
           empty_world batch_run.1 empty_world single_run.1).
  - apply cache_wf_empty.
  - exact batch_run_eq.
  - exact single_run_eq.
  - left. reflexivity.
Defined.

Lemma mol2graph_index_tables_witness :
  cache_wf empty_world
  /\ exists L,
       batch_loop ["CCC"; "CC"]%string false false false empty_world = (batch_run.1, Ok L)
       /\ length (g_agraph (graph_of batch_run)) = total_atoms L
       /\ length (g_bgraph (graph_of batch_run)) = length (all_bonds L).
Proof.
  split; [apply cache_wf_empty|].
  destruct (mol2graph_index_tables ["CCC"; "CC"]%string false false false
              empty_world batch_run.1 (graph_of batch_run))
    as (L & Eloop & Hla & Hlb & _).
  - apply cache_wf_empty.
  - exact batch_run_eq.
  - exists L. split; [exact Eloop|]. split; [exact Hla|exact Hlb].
Defined.

Lemma sentinel_row_inert_witness :
  cache_wf empty_world
  /\ bias (W_i (net 3 true true true)) = None
  /\ bias (W_h (net 3 true true true)) = None
  /\ act_func (net 3 true true true) (of_Z 0) = of_Z 0
  /\ g_fbonds (graph_of batch_run) !! 0%nat
     = Some (replicate (get_atom_fdim + get_bond_fdim false false) (of_Z 0))
  /\ forall binput message0 rounds k message,
       initial_message (net 3 true true true) (g_fbonds (graph_of batch_run))
       = Ok (binput, message0) ->
       message_rounds (net 3 true true true) keep_all (g_bgraph (graph_of batch_run))
         binput rounds k message0 = Ok message ->
       message !! 0%nat
       = Some (replicate (out_features (W_i (net 3 true true true))) (of_Z 0)).
Proof.
  split; [apply cache_wf_empty|]. split; [reflexivity|]. split; [reflexivity|].
  split; [reflexivity|].
  destruct (sentinel_row_inert ["CCC"; "CC"]%string false false false
              empty_world batch_run.1 (graph_of batch_run) (net 3 true true true) keep_all)
    as (Hfb & Hrounds & _).
  - apply cache_wf_empty.
  - exact batch_run_eq.
  - reflexivity.
  - reflexivity.
  - reflexivity.
  - split; [exact Hfb|exact Hrounds].
Defined.

Lemma forward_depth_one_reduces_witness :
  depth (net 1 true false true) = 1
  /\ forward (net 1 true false true) keep_all (graph_of batch_run)
     = forward_depth_one (net 1 true false true) keep_all (graph_of batch_run).
Proof.
  split; [reflexivity|].
  apply (forward_depth_one_reduces (net 1 true false true) keep_all (graph_of batch_run)).
  reflexivity.
Defined.

Lemma mol2graph_malformed_notation_witness :
  cache_wf empty_world
  /\ "X"%string ∈ ["C"; "X"]%string
  /\ MolFromSmiles "X"%string = None
  /\ exists w' e,
       mol2graph ["C"; "X"]%string false false false empty_world = (w', Raise e)
       /\ (e = ArgumentError \/ (false = true /\ e = ValueError_bad_conformer)).
Proof.
  split; [apply cache_wf_empty|]. split; [right; left|]. split; [reflexivity|].
  apply (mol2graph_malformed_notation ["C"; "X"]%string false false false empty_world
           "X"%string).
  - apply cache_wf_empty.
  - right; left.
  - reflexivity.
Defined.

(** C9, counterexample.  Methane, not memoised, with [virtual_edges] off:
    the featurisation calls [GetDistanceMatrix] all the same. *)
Lemma virtual_edges_off_calls_GetDistanceMatrix :
  SMILES_TO_FEATURES empty_world !! "C"%string = None
  /\ toolkit_calls (mol2graph ["C"]%string false false false empty_world).1
     = [("C"%string, Call_MolFromSmiles); ("C"%string, Call_GetDistanceMatrix)].
Proof. split; [reflexivity|]. vm_compute. reflexivity. Qed.

Lemma cache_miss_calls_GetDistanceMatrix_witness :
  SMILES_TO_FEATURES empty_world !! "C"%string = None
  /\ exists earlier,
       toolkit_calls methane_step.1
       = toolkit_calls empty_world ++ earlier ++ [("C"%string, Call_GetDistanceMatrix)]
       /\ ("C"%string, Call_GetDistanceMatrix) ∉ earlier.
Proof.
  split; [reflexivity|].
  apply (cache_miss_calls_GetDistanceMatrix false false false "C"%string empty_world
           methane_step.1 methane_features).
  - reflexivity.
  - exact methane_step_eq.
Defined.

(** The scenario of section 8: methane and ethane. *)
Example mol2graph_methane_ethane :
  is_Ok section8_run.2 = true
  /\ g_scope (graph_of section8_run) = [(0, 1); (1, 2)]%nat
  /\ length (g_fatoms (graph_of section8_run)) = 3%nat
  /\ length (g_fbonds (graph_of section8_run)) = 3%nat
  /\ g_agraph (graph_of section8_run) = [[0]; [2]; [1]]%nat
  /\ g_bgraph (graph_of section8_run) = [[0]; [0]; [0]]%nat.
Proof. vm_compute. repeat split. Qed.

(** The network runs on the graph of propane and ethane: two rounds with
    message attention and dropout in training mode return, with row 0 of the
    message tensor zero, and so does the whole of [forward]. *)
Example message_rounds_run :
  (initial_message (net 3 true true true) (g_fbonds (graph_of batch_run))
   ≫= fun '(binput, message) =>
        message_rounds (net 3 true true true) keep_all (g_bgraph (graph_of batch_run))
          binput 2 0 message
        ≫= fun message => Ok (message !! 0%nat))
  = Ok (Some [0; 0])
  /\ is_Ok (forward (net 3 true true true) keep_all (graph_of batch_run)) = true.
Proof. vm_compute. split; reflexivity. Qed.

(** ** The further properties at concrete inputs *)

Lemma result_eq {A} (d : A) (r : result A) : is_Ok r = true -> r = Ok (value_or d r).
Proof. destruct r; [done|discriminate]. Qed.

Lemma ethane_features_eq : compute_features false false false "CC"%string = Ok ethane_features.
Proof. apply (result_eq no_features). vm_compute. reflexivity. Qed.

Lemma ethane_prepared : prepare_mol false false "CC"%string = Ok (ethane, None).
Proof. reflexivity. Qed.

Lemma forward_run_eq : forward_run = Ok (value_or [] forward_run).
Proof. apply (result_eq []). vm_compute. reflexivity. Qed.

Lemma cache_atom_rows_empty (calls : list (string * ToolkitCall)) :
  cache_atom_rows {| SMILES_TO_FEATURES := ∅; toolkit_calls := calls |}.
Proof. intros s mf Hs. simpl in Hs. by rewrite lookup_empty in Hs. Qed.

Lemma cache_bond_rows_empty (three_d virtual_edges : bool)
    (calls : list (string * ToolkitCall)) :
  cache_bond_rows three_d virtual_edges {| SMILES_TO_FEATURES := ∅; toolkit_calls := calls |}.
Proof. intros s mf Hs. simpl in Hs. by rewrite lookup_empty in Hs. Qed.

Lemma net_fits (depth : Z) (attention message_attention training : bool) :
  network_fits (net depth attention message_attention training) false false.
Proof.
  unfold network_fits, linear_fits, mat, get_atom_fdim, get_bond_fdim.
  rewrite ATOM_FDIM_value. simpl.
  repeat split; repeat constructor; try done.
  all: by intros b [= <-].
Qed.

Lemma single_run_cached : SMILES_TO_FEATURES single_run.1 !! "CC"%string = Some ethane_features.
Proof.
  destruct (mol2graph_locals ["CC"]%string false false false empty_world single_run.1
              (graph_of single_run) single_run_eq) as (L & ts & _ & Hts & _).
  apply Forall2_cons_inv_l in Hts as (t & ts' & [Htup Hcached] & _ & _).
  destruct Htup as [Hc|[_ Hcomp]]; [unfold empty_world in Hc; simpl in Hc; by rewrite lookup_empty in Hc|].
  rewrite ethane_features_eq in Hcomp. by injection Hcomp as <-.
Qed.

Lemma mol2graph_cache_delta_witness :
  (forall s t, SMILES_TO_FEATURES empty_world !! s = Some t ->
               SMILES_TO_FEATURES batch_run.1 !! s = Some t)
  /\ (forall s t, SMILES_TO_FEATURES batch_run.1 !! s = Some t ->
        SMILES_TO_FEATURES empty_world !! s = Some t
        \/ (SMILES_TO_FEATURES empty_world !! s = None /\ s ∈ ["CCC"; "CC"]%string
            /\ compute_features false false false s = Ok t)).
Proof.
  apply (mol2graph_cache_delta ["CCC"; "CC"]%string false false false empty_world
           batch_run.1 (Ok (graph_of batch_run))).
  exact batch_run_eq.
Defined.

Lemma mol2graph_again_witness :
  mol2graph ["CCC"; "CC"]%string true false false batch_run.1
  = (batch_run.1, Ok (graph_of batch_run)).
Proof.
  apply (mol2graph_again ["CCC"; "CC"]%string false true false false empty_world).
  exact batch_run_eq.
Defined.

Lemma mol2graph_toolkit_calls_witness :
  exists tr,
    toolkit_calls batch_run.1 = toolkit_calls empty_world ++ tr
    /\ Forall (fun c => c.1 ∈ ["CCC"; "CC"]%string
                        /\ SMILES_TO_FEATURES empty_world !! c.1 = None) tr
    /\ Forall (fun c => c.2 ≠ Call_AddHs) tr.
Proof.
  destruct (mol2graph_toolkit_calls ["CCC"; "CC"]%string false false false empty_world
              batch_run.1 (Ok (graph_of batch_run)) batch_run_eq)
    as (tr & Etr & Hbatch & _ & Hadd & _).
  exists tr. split; [exact Etr|]. split; [exact Hbatch|].
  apply Hadd; reflexivity.
Defined.

Lemma mol2graph_scope_partition_witness :
  cache_wf empty_world
  /\ length (g_scope (graph_of batch_run)) = length ["CCC"; "CC"]%string
  /\ sum_list ((g_scope (graph_of batch_run)).*2) = length (g_fatoms (graph_of batch_run)).
Proof.
  split; [apply cache_wf_empty|].
  destruct (mol2graph_scope_partition ["CCC"; "CC"]%string false false false empty_world
              batch_run.1 (graph_of batch_run)) as (Hlen & _ & Hsum & _).
  - apply cache_wf_empty.
  - exact batch_run_eq.
  - split; [exact Hlen|exact Hsum].
Defined.

Lemma mol2graph_tables_in_range_witness :
  cache_wf empty_world
  /\ length (g_agraph (graph_of batch_run)) = length (g_fatoms (graph_of batch_run))
  /\ length (g_bgraph (graph_of batch_run)) = length (g_fbonds (graph_of batch_run))
  /\ exists width,
       Forall (fun row => length row = width
                          /\ Forall (fun b => (b < length (g_fbonds (graph_of batch_run)))%nat)
                                    row)
              (g_agraph (graph_of batch_run) ++ g_bgraph (graph_of batch_run)).
Proof.
  split; [apply cache_wf_empty|].
  apply (mol2graph_tables_in_range ["CCC"; "CC"]%string false false false empty_world
           batch_run.1 (graph_of batch_run)).
  - apply cache_wf_empty.
  - exact batch_run_eq.
Defined.

Lemma mol2graph_row_widths_witness :
  Forall (fun row => length row = (get_atom_fdim + get_bond_fdim false false)%nat)
         (g_fbonds (graph_of batch_run))
  /\ Forall (fun row => length row = get_atom_fdim) (g_fatoms (graph_of batch_run))
  /\ cache_atom_rows batch_run.1.
Proof.
  destruct (mol2graph_row_widths ["CCC"; "CC"]%string false false false empty_world
              batch_run.1 (graph_of batch_run) batch_run_eq) as [Hfb Hfa].
  split; [exact Hfb|]. apply Hfa. apply cache_atom_rows_empty.
Defined.

Lemma mol2graph_stale_flags_raise_witness :
  "CC"%string ∈ ["CC"]%string
  /\ SMILES_TO_FEATURES single_run.1 !! "CC"%string = Some ethane_features
  /\ compute_features false false false "CC"%string = Ok ethane_features
  /\ mol_fbonds ethane_features ≠ []
  /\ (false, false) ≠ (true, true)
  /\ exists e, (mol2graph ["CC"]%string false true true single_run.1).2 = Raise e.
Proof.
  assert (mol_fbonds ethane_features ≠ []) as Hne by (vm_compute; discriminate).
  split; [left|]. split; [exact single_run_cached|]. split; [exact ethane_features_eq|].
  split; [exact Hne|]. split; [discriminate|].
  apply (mol2graph_stale_flags_raise ["CC"]%string "CC"%string false false false
           false true true single_run.1
           (mol2graph ["CC"]%string false true true single_run.1).1 ethane_features).
  - left.
  - exact single_run_cached.
  - exact ethane_features_eq.
  - exact Hne.
  - discriminate.
  - apply surjective_pairing.
Defined.

Lemma mol2graph_returns_witness :
  cache_wf empty_world
  /\ tuple_for false false false empty_world "CC"%string ethane_features
  /\ (0 < n_atoms ethane_features)%nat
  /\ exists w' g, mol2graph ["CC"]%string false false false empty_world = (w', Ok g).
Proof.
  assert (tuple_for false false false empty_world "CC"%string ethane_features) as Htup.
  { right. split; [reflexivity|exact ethane_features_eq]. }
  assert (0 < n_atoms ethane_features)%nat as Hpos by (vm_compute; lia).
  split; [apply cache_wf_empty|]. split; [exact Htup|]. split; [exact Hpos|].
  apply (mol2graph_returns ["CC"]%string false false false empty_world "CC"%string
           ethane_features).
  - apply cache_wf_empty.
  - apply cache_atom_rows_empty.
  - apply cache_bond_rows_empty.
  - constructor; [|constructor]. exists ethane_features. exact Htup.
  - left.
  - exact Htup.
  - exact Hpos.
Defined.

Lemma mol2graph_exceptions_witness :
  cache_wf empty_world
  /\ mol2graph [] false false false empty_world = (empty_world, Raise ValueError_max_empty)
  /\ ValueError_max_empty ≠ IndexError.
Proof.
  split; [apply cache_wf_empty|]. split; [reflexivity|].
  apply (mol2graph_exceptions [] false false false empty_world empty_world
           ValueError_max_empty).
  - apply cache_wf_empty.
  - reflexivity.
Defined.

Lemma compute_features_pairs_witness :
  prepare_mol false false "CC"%string = Ok (ethane, None)
  /\ compute_features false false false "CC"%string = Ok ethane_features
  /\ n_atoms ethane_features = GetNumAtoms ethane
  /\ forall a1 a2 : nat,
       (Z.of_nat a1, Z.of_nat a2) ∈ mol_all_bonds ethane_features
       <-> (a1 < GetNumAtoms ethane)%nat /\ (a2 < GetNumAtoms ethane)%nat /\ a1 ≠ a2
           /\ (false = true
               \/ is_Some (GetBondBetweenAtoms ethane (Nat.min a1 a2) (Nat.max a1 a2))).
Proof.
  split; [exact ethane_prepared|]. split; [exact ethane_features_eq|].
  destruct (compute_features_pairs false false false "CC"%string ethane None ethane_features
              ethane_prepared ethane_features_eq) as (Hn & Hpairs & _).
  split; [exact Hn|exact Hpairs].
Defined.

Lemma compute_features_bond_rows_witness :
  prepare_mol false false "CC"%string = Ok (ethane, None)
  /\ compute_features false false false "CC"%string = Ok ethane_features
  /\ length (mol_fbonds ethane_features) = length (mol_all_bonds ethane_features)
  /\ forall b x y, mol_all_bonds ethane_features !! b = Some (x, y) ->
       exists fa_x bf,
         mol_fatoms ethane_features !! Z.to_nat x = Some fa_x
         /\ pair_features false false ethane None
              (Z.to_nat (Z.min x y)) (Z.to_nat (Z.max x y)) = Ok bf
         /\ mol_fbonds ethane_features !! b = Some (fa_x ++ bf).
Proof.
  split; [exact ethane_prepared|]. split; [exact ethane_features_eq|].
  destruct (compute_features_bond_rows false false false "CC"%string ethane None
              ethane_features ethane_prepared ethane_features_eq) as (_ & Hlen & Hrows).
  split; [exact Hlen|exact Hrows].
Defined.

Lemma forward_shape_witness :
  forward (net 3 true true true) keep_all (graph_of batch_run) = Ok (value_or [] forward_run)
  /\ length (value_or [] forward_run) = length (g_scope (graph_of batch_run))
  /\ Forall (fun v => length v = out_features (W_o (net 3 true true true)))
            (value_or [] forward_run).
Proof.
  split; [exact forward_run_eq|].
  destruct (forward_shape (net 3 true true true) keep_all (graph_of batch_run)
              (value_or [] forward_run) forward_run_eq) as (Hlen & Hcols & _).
  split; [exact Hlen|exact Hcols].
Defined.

Lemma forward_eval_ignores_draws_witness :
  training (net 3 true true false) = false
  /\ forward (net 3 true true false) keep_all (graph_of batch_run)
     = forward (net 3 true true false) keep_none (graph_of batch_run).
Proof.
  split; [reflexivity|].
  apply (forward_eval_ignores_draws (net 3 true true false) keep_all keep_none
           (graph_of batch_run)).
  reflexivity.
Defined.

Lemma forward_depth_at_most_one_witness :
  depth (net (-2) true false true) <= 1
  /\ forward (net (-2) true false true) keep_all (graph_of batch_run)
     = forward_depth_one (net (-2) true false true) keep_all (graph_of batch_run).
Proof.
  split; [simpl; lia|].
  apply (forward_depth_at_most_one (net (-2) true false true) keep_all (graph_of batch_run)).
  simpl. lia.
Defined.

Lemma forward_accepts_mol2graph_witness :
  cache_wf empty_world /\ cache_atom_rows empty_world
  /\ network_fits (net 3 true true true) false false
  /\ exists mol_vecs,
       forward (net 3 true true true) keep_all (graph_of batch_run) = Ok mol_vecs
       /\ length mol_vecs = length ["CCC"; "CC"]%string
       /\ Forall (fun v => length v = hidden_size (net 3 true true true)) mol_vecs.
Proof.
  split; [apply cache_wf_empty|]. split; [apply cache_atom_rows_empty|].
  split; [apply net_fits|].
  apply (forward_accepts_mol2graph ["CCC"; "CC"]%string false false false empty_world
           batch_run.1 (graph_of batch_run) (net 3 true true true) keep_all).
  - apply cache_wf_empty.
  - apply cache_atom_rows_empty.
  - exact batch_run_eq.
  - apply net_fits.
Defined.

Lemma mol2graph_index_rows_independent_witness :
  cache_wf empty_world
  /\ exists off n boff,
       g_scope (graph_of batch_run) !! 1%nat = Some (off, n)
       /\ (forall a row1, g_agraph (graph_of single_run) !! a = Some row1 ->
             exists core k1 k,
               row1 = core ++ replicate k1 0%nat
               /\ g_agraph (graph_of batch_run) !! (off + a)%nat
                  = Some ((shift_bond boff <$> core) ++ replicate k 0%nat))
       /\ (forall b row1, (1 <= b)%nat -> g_bgraph (graph_of single_run) !! b = Some row1 ->
             exists core k1 k,
               row1 = core ++ replicate k1 0%nat
               /\ g_bgraph (graph_of batch_run) !! (boff + b)%nat
                  = Some ((shift_bond boff <$> core) ++ replicate k 0%nat)).
Proof.
  split; [apply cache_wf_empty|].
  destruct (mol2graph_index_rows_independent ["CCC"]%string [] "CC"%string false false false
              empty_world batch_run.1 empty_world single_run.1
              (graph_of batch_run) (graph_of single_run))
    as (off & n & boff & Hsc & _ & Hag & Hbg).
  - apply cache_wf_empty.
  - exact batch_run_eq.
  - exact single_run_eq.
  - left. reflexivity.
  - exists off, n, boff. split; [exact Hsc|]. split; [exact Hag|exact Hbg].
Defined.

Lemma forward_batch_run_eq :
  forward (net 3 true false false) keep_all (graph_of batch_run)
  = Ok (value_or [] (forward (net 3 true false false) keep_all (graph_of batch_run))).
Proof. apply (result_eq []). vm_compute. reflexivity. Qed.

Lemma forward_single_run_eq :
  forward (net 3 true false false) keep_none (graph_of single_run)
  = Ok (value_or [] (forward (net 3 true false false) keep_none (graph_of single_run))).
Proof. apply (result_eq []). vm_compute. reflexivity. Qed.

Lemma forward_batch_independent_witness :
  cache_wf empty_world
  /\ training (net 3 true false false) = false
  /\ message_attention (net 3 true false false) = false
  /\ bias (W_i (net 3 true false false)) = None
  /\ bias (W_h (net 3 true false false)) = None
  /\ act_func (net 3 true false false) (of_Z 0) = of_Z 0
  /\ value_or [] (forward (net 3 true false false) keep_all (graph_of batch_run)) !! 1%nat
     = value_or [] (forward (net 3 true false false) keep_none (graph_of single_run)) !! 0%nat.
Proof.
  split; [apply cache_wf_empty|]. do 5 (split; [reflexivity|]).
  apply (forward_batch_independent ["CCC"]%string [] "CC"%string false false false
           empty_world batch_run.1 empty_world single_run.1
           (graph_of batch_run) (graph_of single_run)
           (net 3 true false false) keep_all keep_none).
  - apply cache_wf_empty.
  - apply cache_wf_empty.
  - exact batch_run_eq.
  - exact single_run_eq.
  - left. reflexivity.
  - reflexivity.
  - reflexivity.
  - reflexivity.
  - reflexivity.
  - reflexivity.
  - exact forward_batch_run_eq.
  - exact forward_single_run_eq.
Defined.
